(** * Cross-org record viewer and record modal: a shallow embedding

    The development follows the two Lightning web components of the
    repository: [crossOrgRecordModal] (the create/edit form: validation,
    change detection, external lookups) and [crossOrgRecordsViewer] (the
    table: paging, client-side sort, load and delete), and the chart
    configuration of [dashboardCharts].

    JavaScript strings are modelled by Rocq strings read as sequences of
    Latin-1 code units; on that range [trim], [toLowerCase], the digit and
    letter classes of the regular expressions and the code-unit order used
    by [<] are exactly those of the language. *)

From Stdlib Require Import ZArith Lia List Bool Ascii String QArith DecimalString.
From stdpp Require Import base tactics option list strings gmap sorting.

Open Scope Z_scope.

(** ** The language: strings, sorting, values and numbers *)

Module JS.

Definition chars (s : string) : list ascii := String.list_ascii_of_string s.
Definition str (l : list ascii) : string := String.string_of_list_ascii l.

Definition code (c : ascii) : N := N_of_ascii c.

Definition dot : ascii := ".".
Definition lower_i : ascii := "i".
Definition lower_d : ascii := "d".

(** White space and line terminators below U+0100: TAB, LF, VT, FF, CR,
    SP and NBSP. *)
Definition isWhiteSpace (c : ascii) : bool :=
  match code c with
  | 9 | 10 | 11 | 12 | 13 | 32 | 160 => true
  | _ => false
  end%N.

Definition isDigit (c : ascii) : bool :=
  (48 <=? code c)%N && (code c <=? 57)%N.

Definition isUpperAZ (c : ascii) : bool :=
  (65 <=? code c)%N && (code c <=? 90)%N.

Definition isLowerAZ (c : ascii) : bool :=
  (97 <=? code c)%N && (code c <=? 122)%N.

Definition isAlpha (c : ascii) : bool := isUpperAZ c || isLowerAZ c.

(** [String.prototype.toLowerCase] on one code unit: A-Z and the Latin-1
    capitals U+00C0-U+00DE (the multiplication sign U+00D7 apart). *)
Definition lowerChar (c : ascii) : ascii :=
  let n := code c in
  if isUpperAZ c then ascii_of_N (n + 32)
  else if (192 <=? n)%N && (n <=? 222)%N && negb (n =? 215)%N
       then ascii_of_N (n + 32)
       else c.

Definition toLowerCase (s : string) : string := str (map lowerChar (chars s)).

Fixpoint trimStartL (l : list ascii) : list ascii :=
  match l with
  | c :: r => if isWhiteSpace c then trimStartL r else l
  | [] => []
  end.

Definition trimEndL (l : list ascii) : list ascii := rev (trimStartL (rev l)).

Definition trimL (l : list ascii) : list ascii := trimEndL (trimStartL l).

Definition trim (s : string) : string := str (trimL (chars s)).

Definition length (s : string) : Z := Z.of_nat (List.length (chars s)).

(** [s.includes(c)] for a one-character needle. *)
Definition includes (s : string) (c : ascii) : bool :=
  existsb (Ascii.eqb c) (chars s).

(** [s.lastIndexOf(c)]: the index of the last occurrence, [-1] if none. *)
Fixpoint lastIndexOfL (c : ascii) (l : list ascii) (i : Z) (found : Z) : Z :=
  match l with
  | [] => found
  | x :: r => lastIndexOfL c r (i + 1) (if Ascii.eqb x c then i else found)
  end.

Definition lastIndexOf (s : string) (c : ascii) : Z :=
  lastIndexOfL c (chars s) 0 (-1).

(** [s.slice(start, end)], with the relative (negative) indices of the
    language; [sliceFrom] is the one-argument form. *)
Definition relIndex (len i : Z) : Z :=
  if i <? 0 then Z.max (len + i) 0 else Z.min i len.

Definition slice (s : string) (start stop : Z) : string :=
  let len := length s in
  let from := relIndex len start in
  let to := relIndex len stop in
  str (take (Z.to_nat (to - from)) (drop (Z.to_nat from) (chars s))).

Definition sliceFrom (s : string) (start : Z) : string :=
  slice s start (length s).

Fixpoint isSuffixL (suf l : list ascii) (n : nat) {struct n} : bool :=
  match n with
  | O => if decide (suf = l) then true else false
  | S n' => match l with
            | [] => false
            | _ :: r => isSuffixL suf r n'
            end
  end.

(** [s.endsWith(suf)] *)
Definition endsWith (s suf : string) : bool :=
  let l := chars s in
  let k := chars suf in
  if (List.length k <=? List.length l)%nat
  then isSuffixL k l (List.length l - List.length k)
  else false.

(** [Array.prototype.sort(compare)].  For a comparison function that is
    consistent on the elements (see [consistent] below) the language fixes
    the result: the elements in order, ties in their former order.  It is
    the list computed here, by inserting the elements from the right, each
    before the first element it does not come after.  For another
    comparison function the language leaves the order to the engine: the
    list computed here is then one of the orders an engine may give, and
    only that it rearranges the elements holds of every engine. *)
Fixpoint sortInsert {A} (compare : A → A → Z) (x : A) (l : list A) : list A :=
  match l with
  | [] => [x]
  | y :: r => if compare x y <=? 0 then x :: y :: r
              else y :: sortInsert compare x r
  end.

Definition sort {A} (compare : A → A → Z) (l : list A) : list A :=
  foldr (sortInsert compare) [] l.

(** [x] stands somewhere before [y] in [l]. *)
Definition Before {A} (x y : A) (l : list A) : Prop :=
  ∃ l1 l2 l3, l = l1 ++ x :: l2 ++ y :: l3.

(** The elements that satisfy [last] all stand after all the others. *)
Definition Partitioned {A} (last : A → bool) (l : list A) : Prop :=
  ∃ l1 l2, l = l1 ++ l2 ∧
           Forall (λ x, last x = false) l1 ∧ Forall (λ x, last x = true) l2.

(** The elements of a list with their positions, counted from [n]. *)
Fixpoint tagFrom {A} (n : nat) (l : list A) : list (nat * A) :=
  match l with
  | [] => []
  | x :: r => (n, x) :: tagFrom (S n) r
  end.

(** A comparison function is consistent on the elements of [l], in the
    sense of the language: comparing in the other direction gives the
    opposite sign, and not coming after is transitive.  For such a function
    the language fixes the result of [sort]; for another one the order is
    left to the engine, and [sort] above is one of the orders allowed. *)
Definition consistent {A} (compare : A → A → Z) (l : list A) : bool :=
  forallb (λ a,
    forallb (λ b,
      (Z.sgn (compare b a) =? - Z.sgn (compare a b)) &&
      forallb (λ c,
        implb ((compare a b <=? 0) && (compare b c <=? 0)) (compare a c <=? 0)) l)
      l) l.

(** An element tagged with its position has to stand before another: it
    compares lower, or they tie and it stood earlier. *)
Definition earlier {A} (compare : A → A → Z) (p q : nat * A) : Prop :=
  compare (snd p) (snd q) < 0 ∨
  (compare (snd p) (snd q) = 0 ∧ (fst p < fst q)%nat).

(** *** Values

    The values a record or an event carries: JSON data.  A number is a
    finite double, here a rational; an object is the list of its own
    properties. *)
#[warnings="-register-all"]
Inductive JSVal :=
| VUndef
| VNull
| VBool (b : bool)
| VNum (q : Q)
| VStr (s : string)
| VObj (props : list (string * JSVal)).

(** [v == null] *)
Definition isNullish (v : JSVal) : bool :=
  match v with
  | VUndef | VNull => true
  | _ => false
  end.

(** [!!v] *)
Definition truthy (v : JSVal) : bool :=
  match v with
  | VUndef | VNull => false
  | VBool b => b
  | VNum q => negb (Qeq_bool q 0)
  | VStr s => if decide (s = "") then false else true
  | VObj _ => true
  end.

(** [v === ''] *)
Definition isEmptyString (v : JSVal) : bool :=
  match v with
  | VStr s => if decide (s = "") then true else false
  | _ => false
  end.

(** [o[k]] on a plain data object held as a finite map. *)
Definition getProp (o : gmap string JSVal) (k : string) : JSVal :=
  default VUndef (o !! k).

(** The own property [k] of an object, if it has one. *)
Fixpoint getOwn (k : string) (props : list (string * JSVal)) : option JSVal :=
  match props with
  | [] => None
  | (k', x) :: r => if decide (k' = k) then Some x else getOwn k r
  end.

(** [String(v)]; the decimal form of a number is the engine's. *)
Definition ToString (NumberToString : Q → string) (v : JSVal) : string :=
  match v with
  | VUndef => "undefined"
  | VNull => "null"
  | VBool true => "true"
  | VBool false => "false"
  | VNum q => NumberToString q
  | VStr s => s
  | VObj _ => "[object Object]"
  end.

(** *** Numbers and the relational operators *)

(** The result of [ToNumber]: a finite number, an infinity or NaN. *)
Inductive Number :=
| NaN
| NegInfinity
| Finite (q : Q)
| PosInfinity.

(** [x < y] on numbers; false when either is NaN. *)
Definition numberLt (x y : Number) : bool :=
  match x, y with
  | NaN, _ | _, NaN => false
  | _, NegInfinity => false
  | NegInfinity, _ => true
  | PosInfinity, _ => false
  | Finite _, PosInfinity => true
  | Finite a, Finite b => negb (Qle_bool b a)
  end.

(** [s < t] on strings: the order of the code units. *)
Definition stringLt (s t : string) : bool := String.ltb s t.

Section Relational.

(** [ToNumber] on a string is the engine's numeric-literal reader. *)
Variable StringToNumber : string → Number.

(** [ToPrimitive]: a plain object becomes "[object Object]". *)
Definition ToPrimitive (v : JSVal) : JSVal :=
  match v with
  | VObj _ => VStr "[object Object]"
  | _ => v
  end.

Definition ToNumber (v : JSVal) : Number :=
  match ToPrimitive v with
  | VUndef => NaN
  | VNull => Finite 0
  | VBool b => Finite (if b then 1 else 0)
  | VNum q => Finite q
  | VStr s => StringToNumber s
  | VObj _ => NaN
  end.

(** [a < b] *)
Definition lessThan (a b : JSVal) : bool :=
  match ToPrimitive a, ToPrimitive b with
  | VStr s, VStr t => stringLt s t
  | _, _ => numberLt (ToNumber a) (ToNumber b)
  end.

End Relational.

(** [parseInt(s, 10)]: leading white space, a sign, then the digits up to
    the first other character; [None] for NaN.  The digits are read as an
    integer of any size; see [readsExactly] below. *)
Fixpoint leadingDigits (l : list ascii) : list ascii :=
  match l with
  | c :: r => if isDigit c then c :: leadingDigits r else []
  | [] => []
  end.

Definition digitsValue (l : list ascii) : Z :=
  foldl (λ acc c, 10 * acc + (Z.of_N (code c) - 48)) 0 l.

Definition parseInt (s : string) : option Z :=
  let l := trimStartL (chars s) in
  let '(sign, l) :=
    match l with
    | c :: r => if Ascii.eqb c "-" then (-1, r)
                else if Ascii.eqb c "+" then (1, r) else (1, l)
    | [] => (1, l)
    end in
  match leadingDigits l with
  | [] => None
  | ds => Some (sign * digitsValue ds)
  end.

(** [Number.MAX_SAFE_INTEGER] *)
Definition MAX_SAFE_INTEGER : Z := 2 ^ 53 - 1.

(** [parseInt] gives a double.  A number read within the safe integers is
    that double exactly, and so is NaN; a longer digit string is rounded,
    and read as Infinity from 309 digits on, which [parseInt] above does
    not follow.  [readsExactly] tells the strings on which it is exact. *)
Definition readsExactly (s : string) : bool :=
  match parseInt s with
  | Some n => Z.abs n <=? MAX_SAFE_INTEGER
  | None => true
  end.


(** [Math.ceil(a / b)] on integers, [b] not zero. *)
Definition ceilDiv (a b : Z) : Z := - ((- a) / b).

(** A list does not start with white space. *)
Definition noLeadWs (l : list ascii) : Prop :=
  match l with
  | [] => True
  | c :: _ => isWhiteSpace c = false
  end.

End JS.

(** ** Regular expressions

    The patterns of the component use character classes, concatenation and
    the quantifiers [+] and [{2,}], anchored at both ends; [RegExp.test]
    on such a pattern decides membership of the whole string in the
    language of the pattern, which the derivative matcher below computes. *)

Module Regex.

Inductive RegExp :=
| Never
| Empty
| Class (p : ascii → bool)
| Cat (a b : RegExp)
| Alt (a b : RegExp)
| Star (a : RegExp).

(** [a+] and [a{2,}] *)
Definition Plus (a : RegExp) : RegExp := Cat a (Star a).
Definition AtLeast2 (a : RegExp) : RegExp := Cat a (Cat a (Star a)).
Definition Lit (c : ascii) : RegExp := Class (Ascii.eqb c).

Fixpoint nullable (r : RegExp) : bool :=
  match r with
  | Never => false
  | Empty => true
  | Class _ => false
  | Cat a b => nullable a && nullable b
  | Alt a b => nullable a || nullable b
  | Star _ => true
  end.

Fixpoint deriv (c : ascii) (r : RegExp) : RegExp :=
  match r with
  | Never => Never
  | Empty => Never
  | Class p => if p c then Empty else Never
  | Cat a b =>
      if nullable a then Alt (Cat (deriv c a) b) (deriv c b)
      else Cat (deriv c a) b
  | Alt a b => Alt (deriv c a) (deriv c b)
  | Star a => Cat (deriv c a) (Star a)
  end.

Fixpoint testL (r : RegExp) (l : list ascii) : bool :=
  match l with
  | [] => nullable r
  | c :: w => testL (deriv c r) w
  end.

(** [/^r$/.test(s)] *)
Definition test (r : RegExp) (s : string) : bool := testL r (JS.chars s).

(** The language of a pattern. *)
Inductive Matches : RegExp → list ascii → Prop :=
| M_empty : Matches Empty []
| M_class p c : p c = true → Matches (Class p) [c]
| M_cat a b u v : Matches a u → Matches b v → Matches (Cat a b) (u ++ v)
| M_alt_l a b u : Matches a u → Matches (Alt a b) u
| M_alt_r a b u : Matches b u → Matches (Alt a b) u
| M_star_nil a : Matches (Star a) []
| M_star_more a u v :
    Matches a u → Matches (Star a) v → Matches (Star a) (u ++ v).

End Regex.

(** ** Dates

    Time values are milliseconds since the epoch, as integers; [None]
    stands for NaN (an invalid date).  [parseIso] reads the date-time
    string format the language standard defines ([YYYY], [YYYY-MM],
    [YYYY-MM-DD], optionally followed by [THH:mm], [THH:mm:ss] or
    [THH:mm:ss.sss] and a [Z] or [+HH:mm] offset, with expanded years
    [+YYYYYY]); what [Date.parse] does with any other string is left to the
    implementation by the standard, and is a parameter below. *)

Module Date.

Import JS.

Definition msPerDay : Z := 86400000.

Definition Day (t : Z) : Z := t / msPerDay.
Definition TimeWithinDay (t : Z) : Z := t mod msPerDay.

(** Days since the epoch of the first of a month, proleptic Gregorian
    calendar, then the day of the month added (as [MakeDay] does). *)
Definition daysFromCivil (y m d : Z) : Z :=
  let y' := if m <=? 2 then y - 1 else y in
  let era := y' / 400 in
  let yoe := y' - era * 400 in
  let mp := if m >? 2 then m - 3 else m + 9 in
  let doy := (153 * mp + 2) / 5 + d - 1 in
  let doe := yoe * 365 + yoe / 4 - yoe / 100 + doy in
  era * 146097 + doe - 719468.

(** Year, month and day of month of a day number ([YearFromTime],
    [MonthFromTime] + 1 and [DateFromTime]). *)
Definition civilFromDays (z : Z) : Z * Z * Z :=
  let z := z + 719468 in
  let era := z / 146097 in
  let doe := z - era * 146097 in
  let yoe := (doe - doe / 1460 + doe / 36524 - doe / 146096) / 365 in
  let doy := doe - (365 * yoe + yoe / 4 - yoe / 100) in
  let mp := (5 * doy + 2) / 153 in
  let d := doy - (153 * mp + 2) / 5 + 1 in
  let m := if mp <? 10 then mp + 3 else mp - 9 in
  let y := yoe + era * 400 in
  (if m <=? 2 then y + 1 else y, m, d).

Definition TimeClip (t : Z) : option Z :=
  if Z.abs t <=? 8640000000000000 then Some t else None.

Definition digitChar (z : Z) : ascii := ascii_of_N (48 + Z.to_N z).

(** The [n] low decimal digits of [z], most significant first. *)
Fixpoint padDigits (n : nat) (z : Z) : list ascii :=
  match n with
  | O => []
  | S k => padDigits k (z / 10) ++ [digitChar (z mod 10)]
  end.

Definition yearDigits (y : Z) : list ascii :=
  if (0 <=? y) && (y <=? 9999) then padDigits 4 y
  else (if y <? 0 then "-"%char else "+"%char) :: padDigits 6 (Z.abs y).

(** [new Date(t).toISOString()] for a valid time value: the date, then
    the time of day. *)
Definition isoDatePart (y m d : Z) : list ascii :=
  yearDigits y ++ "-"%char :: padDigits 2 m ++ "-"%char :: padDigits 2 d.

Definition isoTimePart (w : Z) : list ascii :=
  "T"%char :: padDigits 2 (w / 3600000)
  ++ ":"%char :: padDigits 2 (w / 60000 mod 60)
  ++ ":"%char :: padDigits 2 (w / 1000 mod 60)
  ++ "."%char :: padDigits 3 (w mod 1000) ++ ["Z"%char].

Definition toISOString (t : Z) : string :=
  let '(y, m, d) := civilFromDays (Day t) in
  str (isoDatePart y m d ++ isoTimePart (TimeWithinDay t)).

(** *** Reading the standard format *)

Definition digitValue (c : ascii) : option Z :=
  if isDigit c then Some (Z.of_N (code c) - 48) else None.

(** Exactly [n] digits, as a number, and the rest of the input. *)
Fixpoint digits (n : nat) (acc : Z) (l : list ascii) : option (Z * list ascii) :=
  match n with
  | O => Some (acc, l)
  | S k => match l with
           | c :: r => match digitValue c with
                       | Some v => digits k (10 * acc + v) r
                       | None => None
                       end
           | [] => None
           end
  end.

Record IsoFields := mkIso {
  isoYear : Z; isoMonth : Z; isoDay : Z;
  isoTime : option (Z * Z * Z * Z);   (* hour, minute, second, millisecond *)
  isoOffset : option (Z * Z * Z)       (* sign, hours, minutes; None: absent *)
}.

Definition parseYear (l : list ascii) : option (Z * list ascii) :=
  match l with
  | c :: r =>
      if Ascii.eqb c "+" then digits 6 0 r
      else if Ascii.eqb c "-" then
        match digits 6 0 r with
        | Some (y, r') => Some (- y, r')
        | None => None
        end
      else digits 4 0 l
  | [] => None
  end.

Definition parseDate (l : list ascii) : option (Z * Z * Z * list ascii) :=
  match parseYear l with
  | None => None
  | Some (y, r) =>
      match r with
      | c :: r1 =>
          if Ascii.eqb c "-" then
            match digits 2 0 r1 with
            | None => None
            | Some (m, r2) =>
                match r2 with
                | c2 :: r3 =>
                    if Ascii.eqb c2 "-" then
                      match digits 2 0 r3 with
                      | None => None
                      | Some (d, r4) => Some (y, m, d, r4)
                      end
                    else Some (y, m, 1, r2)
                | [] => Some (y, m, 1, r2)
                end
            end
          else Some (y, 1, 1, r)
      | [] => Some (y, 1, 1, r)
      end
  end.

(** [Z], [+HH:mm] or [-HH:mm] up to the end of the input, or nothing. *)
Definition parseOffset (l : list ascii) : option (option (Z * Z * Z)) :=
  match l with
  | [] => Some None
  | c :: r =>
      if Ascii.eqb c "Z" then
        match r with [] => Some (Some (1, 0, 0)) | _ => None end
      else if Ascii.eqb c "+" || Ascii.eqb c "-" then
        match digits 2 0 r with
        | Some (h, c1 :: r1) =>
            if Ascii.eqb c1 ":" then
              match digits 2 0 r1 with
              | Some (m, []) =>
                  Some (Some (if Ascii.eqb c "-" then -1 else 1, h, m))
              | _ => None
              end
            else None
        | _ => None
        end
      else None
  end.

(** [HH:mm], [HH:mm:ss] or [HH:mm:ss.sss], and the rest of the input. *)
Definition parseTime (l : list ascii) : option (Z * Z * Z * Z * list ascii) :=
  match digits 2 0 l with
  | Some (h, c :: r) =>
      if Ascii.eqb c ":" then
        match digits 2 0 r with
        | None => None
        | Some (mi, r1) =>
            match r1 with
            | c1 :: r2 =>
                if Ascii.eqb c1 ":" then
                  match digits 2 0 r2 with
                  | None => None
                  | Some (s, r3) =>
                      match r3 with
                      | c3 :: r4 =>
                          if Ascii.eqb c3 "." then
                            match digits 3 0 r4 with
                            | None => None
                            | Some (ms, r5) => Some (h, mi, s, ms, r5)
                            end
                          else Some (h, mi, s, 0, r3)
                      | [] => Some (h, mi, s, 0, r3)
                      end
                  end
                else Some (h, mi, 0, 0, r1)
            | [] => Some (h, mi, 0, 0, r1)
            end
        end
      else None
  | _ => None
  end.

(** [None]: the string is not in the standard format. *)
Definition parseIso (s : string) : option IsoFields :=
  match parseDate (chars s) with
  | None => None
  | Some (y, m, d, r) =>
      match r with
      | [] => Some (mkIso y m d None None)
      | c :: r1 =>
          if Ascii.eqb c "T" then
            match parseTime r1 with
            | None => None
            | Some (h, mi, sec, ms, r2) =>
                match parseOffset r2 with
                | None => None
                | Some off => Some (mkIso y m d (Some (h, mi, sec, ms)) off)
                end
            end
          else None
      end
  end.

Definition isPrefixMinusZero (s : string) : bool :=
  match chars s with
  | c :: r => Ascii.eqb c "-" &&
              match digits 6 0 r with
              | Some (y, _) => y =? 0
              | None => false
              end
  | [] => false
  end.

(** Whether every element is within its bounds; year zero written
    [-000000] is not. *)
Definition isoInBounds (s : string) (f : IsoFields) : bool :=
  (1 <=? isoMonth f) && (isoMonth f <=? 12) &&
  (1 <=? isoDay f) && (isoDay f <=? 31) &&
  negb (isPrefixMinusZero s) &&
  match isoTime f with
  | None => true
  | Some (h, mi, sec, ms) =>
      ((h <=? 23) && (mi <=? 59) && (sec <=? 59)) ||
      ((h =? 24) && (mi =? 0) && (sec =? 0) && (ms =? 0))
  end &&
  match isoOffset f with
  | Some (_, h, mi) => (h <=? 23) && (mi <=? 59)
  | None => true
  end.

Section Parse.

(** What the engine makes of a string that is not in the standard format
    (a time value, or [None] for NaN), and the offset of local time. *)
Variable legacyDateParse : string → option Z.
Variable LocalTZA : Z → Z.

Definition isoTimeValue (f : IsoFields) : Z :=
  let day := daysFromCivil (isoYear f) (isoMonth f) 1 + (isoDay f - 1) in
  match isoTime f with
  | None => day * msPerDay
  | Some (h, mi, sec, ms) =>
      let t := day * msPerDay + h * 3600000 + mi * 60000 + sec * 1000 + ms in
      match isoOffset f with
      | Some (sign, oh, om) => t - sign * (oh * 60 + om) * 60000
      | None => t - LocalTZA t
      end
  end.

(** [Date.parse(s)], which is also the time value of [new Date(s)]. *)
Definition parse (s : string) : option Z :=
  match parseIso s with
  | Some f => if isoInBounds s f then TimeClip (isoTimeValue f) else None
  | None => match legacyDateParse s with
            | Some t => TimeClip t
            | None => None
            end
  end.

End Parse.

End Date.

(** ** The record modal: field descriptors and lookup-target resolution *)

Module RecordModal.

Import JS.

(** A field descriptor as the controller sends it.  Both spellings of a key
    are kept because the component reads [f.fieldName || f.FieldName] and
    the like; [None] stands for an absent (undefined or null) property. *)
Record FieldDef := mkFieldDef {
  fieldName : option string;
  FieldName : option string;
  lookupObjectApiName : option string;
  LookupObjectApiName : option string;
  label : option string;
  type : option string;
  isExternalLookup : bool;
  IsExternalLookup : bool;
  required : bool
}.

(** [a || b] where [a] is a string or absent: the empty string is falsy. *)
Definition orString (a : option string) (b : string) : string :=
  match a with
  | Some s => if decide (s = "") then b else s
  | None => b
  end.

(** [f.fieldName || f.FieldName || ''] *)
Definition fieldKey (f : FieldDef) : string :=
  orString (fieldName f) (orString (FieldName f) "").

Definition getLookupObjectForField (fieldDef : option FieldDef) : string :=
  match fieldDef with
  | None => ""
  | Some fd =>
    let fromServer :=
      match lookupObjectApiName fd with
      | Some t => trim t
      | None => match LookupObjectApiName fd with
                | Some t => trim t
                | None => ""
                end
      end in
    if decide (fromServer = "") then
      let name := trim (fieldKey fd) in
      let name :=
        if includes name dot then trim (sliceFrom name (lastIndexOf name dot + 1))
        else name in
      if (JS.length name >? 2) && endsWith (toLowerCase name) "id" then
        let base := slice name 0 (-2) in
        if decide (toLowerCase base = "owner") then "User" else base
      else ""
    else fromServer
  end.

(** *** The resolution rule in the words of the specification *)

(** The lookup target the configuration supplies, if any. *)
Definition configuredTarget (fd : FieldDef) : option string :=
  match lookupObjectApiName fd with
  | Some t => Some t
  | None => LookupObjectApiName fd
  end.

(** [seg] is the segment after the last ['.'] of [name] (all of [name] when
    it is not qualified). *)
Definition lastSegment (name seg : string) : Prop :=
  ((dot ∉ chars name) ∧ seg = name) ∨
  (∃ p, chars name = p ++ dot :: chars seg ∧ dot ∉ chars seg).

(** [name] ends, whatever the case, with "id", and [base] is what is left
    of it once these two characters are stripped. *)
Definition endsWithId (name base : string) : Prop :=
  ∃ i d, chars name = chars base ++ [i; d] ∧
         lowerChar i = lower_i ∧ lowerChar d = lower_d.

Inductive LookupTarget (fd : FieldDef) : string → Prop :=
| LT_configured t :
    configuredTarget fd = Some t → trim t ≠ "" →
    LookupTarget fd (trim t)
| LT_owner seg base :
    (∀ t, configuredTarget fd = Some t → trim t = "") →
    lastSegment (trim (fieldKey fd)) seg →
    endsWithId (trim seg) base → base ≠ "" →
    toLowerCase base = "owner" →
    LookupTarget fd "User"
| LT_strip seg base :
    (∀ t, configuredTarget fd = Some t → trim t = "") →
    lastSegment (trim (fieldKey fd)) seg →
    endsWithId (trim seg) base → base ≠ "" →
    toLowerCase base ≠ "owner" →
    LookupTarget fd base
| LT_none seg :
    (∀ t, configuredTarget fd = Some t → trim t = "") →
    lastSegment (trim (fieldKey fd)) seg →
    (∀ base, endsWithId (trim seg) base → base = "") →
    LookupTarget fd "".

Definition descriptor (name : string) : FieldDef :=
  mkFieldDef (Some name) None None None None None false false false.

(** The segment [getLookupObjectForField] takes from a qualified name,
    before it is trimmed. *)
Definition codeSegment (name : string) : string :=
  if includes name dot then sliceFrom name (lastIndexOf name dot + 1) else name.

(** *** Validation and change detection *)

(** [/^[a-zA-Z0-9._%+-]+@[a-zA-Z0-9.-]+\.[a-zA-Z]{2,}$/] *)
Definition isLocalChar (c : ascii) : bool :=
  isAlpha c || isDigit c ||
  Ascii.eqb c "." || Ascii.eqb c "_" || Ascii.eqb c "%" ||
  Ascii.eqb c "+" || Ascii.eqb c "-".

Definition isDomainChar (c : ascii) : bool :=
  isAlpha c || isDigit c || Ascii.eqb c "." || Ascii.eqb c "-".

Definition EMAIL_REGEX : Regex.RegExp :=
  Regex.Cat (Regex.Plus (Regex.Class isLocalChar))
    (Regex.Cat (Regex.Lit "@")
       (Regex.Cat (Regex.Plus (Regex.Class isDomainChar))
          (Regex.Cat (Regex.Lit ".") (Regex.AtLeast2 (Regex.Class isAlpha))))).

(** A conventional address: a local part, one ['@'], a domain with a
    dot, and a top-level name of two letters or more. *)
Definition emailShape (s : string) : Prop :=
  ∃ loc dom tld,
    chars s = loc ++ "@"%char :: dom ++ "."%char :: tld ∧
    loc ≠ [] ∧ Forall (λ c, isLocalChar c = true) loc ∧
    dom ≠ [] ∧ Forall (λ c, isDomainChar c = true) dom ∧
    (2 ≤ List.length tld)%nat ∧ Forall (λ c, isAlpha c = true) tld.

Definition EXTERNAL_LOOKUP_SEARCH_DEBOUNCE_MS : Z := 350.
Definition EXTERNAL_LOOKUP_MAX_RESULTS : Z := 50.

(** [s.replace(/\D/g, '')] *)
Definition digitsOnly (s : string) : string := str (filter (λ c, isDigit c = true) (chars s)).

(** How many characters of a string are decimal digits. *)
Fixpoint digitCount (l : list ascii) : nat :=
  match l with
  | [] => 0
  | c :: r => if isDigit c then S (digitCount r) else digitCount r
  end.

Section Engine.

(** The three places where the component relies on the engine: the decimal
    form of a number, and [Date.parse] outside the standard format and on
    local times. *)
Variable NumberToString : Q → string.
Variable legacyDateParse : string → option Z.
Variable LocalTZA : Z → Z.

(** [String(v)] and [new Date(s).getTime()] *)
Definition StringOf (v : JSVal) : string := ToString NumberToString v.
Definition DateParse (s : string) : option Z :=
  Date.parse legacyDateParse LocalTZA s.

Definition isValidEmail (s : JSVal) : bool :=
  if isNullish s || bool_decide (trim (StringOf s) = "") then true
  else Regex.test EMAIL_REGEX (trim (StringOf s)).

Definition isValidPhone (s : JSVal) : bool :=
  if isNullish s || bool_decide (trim (StringOf s) = "") then true
  else JS.length (digitsOnly (StringOf s)) >=? 10.

(** The part of [normalizedValue] after the wrapper and null cases. *)
Definition normalizedText (val : JSVal) : string :=
  let s := trim (StringOf val) in
  if decide (s = "") then ""
  else match DateParse s with
       | Some t => slice (Date.toISOString t) 0 10
       | None => s
       end.

(** Normalize value for change detection (trim, empty string vs null, date
    to YYYY-MM-DD). *)
Fixpoint normalizedValue (val : JSVal) : string :=
  match val with
  | VUndef | VNull => ""
  | VObj props =>
      (fix own (ps : list (string * JSVal)) : string :=
         match ps with
         | [] => normalizedText val
         | (k, x) :: r => if decide (k = "value") then normalizedValue x else own r
         end) props
  | _ => normalizedText val
  end.

(** *** The component state *)

(** An option of a lookup dropdown: [{value, label}]. *)
Record LookupOption := mkOption { optValue : string; optLabel : string }.

Record Modal := mkModal {
  record : gmap string JSVal;
  objectApiName : string;
  editFields : list FieldDef;
  lookupLabels : gmap string string;
  recordData : gmap string JSVal;
  saveLoading : bool;
  errorMessage : string;
  externalLookupOptionsMap : gmap string (list LookupOption);
  externalLookupSearchTerm : gmap string string;
  externalLookupDisplayMap : gmap string string;
  externalLookupDropdownOpen : gmap string bool;
  _externalSearchTimeouts : gmap string nat;
  _initialRecordValues : gmap string JSVal
}.

Definition setRecordData v (m : Modal) : Modal :=
  mkModal (record m) (objectApiName m) (editFields m) (lookupLabels m) v
    (saveLoading m) (errorMessage m) (externalLookupOptionsMap m)
    (externalLookupSearchTerm m) (externalLookupDisplayMap m)
    (externalLookupDropdownOpen m) (_externalSearchTimeouts m)
    (_initialRecordValues m).

Definition setSaveLoading v (m : Modal) : Modal :=
  mkModal (record m) (objectApiName m) (editFields m) (lookupLabels m)
    (recordData m) v (errorMessage m) (externalLookupOptionsMap m)
    (externalLookupSearchTerm m) (externalLookupDisplayMap m)
    (externalLookupDropdownOpen m) (_externalSearchTimeouts m)
    (_initialRecordValues m).

Definition setErrorMessage v (m : Modal) : Modal :=
  mkModal (record m) (objectApiName m) (editFields m) (lookupLabels m)
    (recordData m) (saveLoading m) v (externalLookupOptionsMap m)
    (externalLookupSearchTerm m) (externalLookupDisplayMap m)
    (externalLookupDropdownOpen m) (_externalSearchTimeouts m)
    (_initialRecordValues m).

Definition setOptionsMap v (m : Modal) : Modal :=
  mkModal (record m) (objectApiName m) (editFields m) (lookupLabels m)
    (recordData m) (saveLoading m) (errorMessage m) v
    (externalLookupSearchTerm m) (externalLookupDisplayMap m)
    (externalLookupDropdownOpen m) (_externalSearchTimeouts m)
    (_initialRecordValues m).

Definition setSearchTerm v (m : Modal) : Modal :=
  mkModal (record m) (objectApiName m) (editFields m) (lookupLabels m)
    (recordData m) (saveLoading m) (errorMessage m)
    (externalLookupOptionsMap m) v (externalLookupDisplayMap m)
    (externalLookupDropdownOpen m) (_externalSearchTimeouts m)
    (_initialRecordValues m).

Definition setDisplayMap v (m : Modal) : Modal :=
  mkModal (record m) (objectApiName m) (editFields m) (lookupLabels m)
    (recordData m) (saveLoading m) (errorMessage m)
    (externalLookupOptionsMap m) (externalLookupSearchTerm m) v
    (externalLookupDropdownOpen m) (_externalSearchTimeouts m)
    (_initialRecordValues m).

Definition setDropdownOpen v (m : Modal) : Modal :=
  mkModal (record m) (objectApiName m) (editFields m) (lookupLabels m)
    (recordData m) (saveLoading m) (errorMessage m)
    (externalLookupOptionsMap m) (externalLookupSearchTerm m)
    (externalLookupDisplayMap m) v (_externalSearchTimeouts m)
    (_initialRecordValues m).

Definition setSearchTimeouts v (m : Modal) : Modal :=
  mkModal (record m) (objectApiName m) (editFields m) (lookupLabels m)
    (recordData m) (saveLoading m) (errorMessage m)
    (externalLookupOptionsMap m) (externalLookupSearchTerm m)
    (externalLookupDisplayMap m) (externalLookupDropdownOpen m) v
    (_initialRecordValues m).

Definition setInitialRecordValues v (m : Modal) : Modal :=
  mkModal (record m) (objectApiName m) (editFields m) (lookupLabels m)
    (recordData m) (saveLoading m) (errorMessage m)
    (externalLookupOptionsMap m) (externalLookupSearchTerm m)
    (externalLookupDisplayMap m) (externalLookupDropdownOpen m)
    (_externalSearchTimeouts m) v.

(** A modal as [CrossOrgRecordModal.open] creates it, before
    [connectedCallback] runs. *)
Definition open (record : gmap string JSVal) (objectApiName : string)
    (editFields : list FieldDef) (lookupLabels : gmap string string) : Modal :=
  mkModal record objectApiName editFields lookupLabels ∅ false "" ∅ ∅ ∅ ∅ ∅ ∅.

Definition connectedCallback (m : Modal) : Modal :=
  let m := setRecordData (record m) m in
  let m :=
    if decide (size (lookupLabels m) = 0%nat) then m
    else setDisplayMap (lookupLabels m ∪ externalLookupDisplayMap m) m in
  setInitialRecordValues (record m) m.

Definition isEditMode (m : Modal) : bool := truthy (getProp (record m) "Id").

Definition handleFieldChange (fieldName : string) (value : JSVal) (m : Modal) : Modal :=
  setRecordData (<[fieldName := value]> (recordData m)) m.

(** *** The form elements of the template

    The template is not part of the sources; what [handleSave] asks of it
    is kept: the [lightning-input] elements in document order, each with
    its [data-field] attribute, the validity of its own constraints and
    its custom validity message, and the validity of each
    [lightning-combobox]. *)
Record InputElem := mkInput {
  dataField : option string;
  nativeValid : bool;
  customValidity : string
}.

Record Template := mkTemplate {
  inputs : list InputElem;
  comboboxes : list bool
}.

(** [input.reportValidity()] *)
Definition reportValidity (e : InputElem) : bool :=
  nativeValid e && bool_decide (customValidity e = "").

(** [template.querySelector('lightning-input[data-field="fn"]')] *)
Definition querySelector (fn : string) (t : Template) : option InputElem :=
  List.find (λ e, bool_decide (dataField e = Some fn)) (inputs t).

(** [input.setCustomValidity(msg)] on the element [querySelector] finds. *)
Fixpoint setCustomValidityL (fn msg : string) (l : list InputElem) : list InputElem :=
  match l with
  | [] => []
  | e :: r =>
      if bool_decide (dataField e = Some fn)
      then mkInput (dataField e) (nativeValid e) msg :: r
      else e :: setCustomValidityL fn msg r
  end.

Definition setCustomValidity (fn msg : string) (t : Template) : Template :=
  mkTemplate (setCustomValidityL fn msg (inputs t)) (comboboxes t).

(** *** Saving *)

Inductive ApexCall :=
| updateRecord (objectType : string) (recordId : JSVal)
    (recordDataJson : gmap string JSVal)
| createRecord (objectType : string) (recordDataJson : gmap string JSVal)
| searchExternalRecords (objectApiName searchTerm : string) (maxResults : Z).

Definition isExternal (f : FieldDef) : bool :=
  isExternalLookup f || IsExternalLookup f.

Definition clearLookupValidity (fields : list FieldDef) (t : Template) : Template :=
  foldl (λ t f, setCustomValidity (fieldKey f) "" t) t
    (List.filter isExternal fields).

(** One round of the [externalRequired.forEach] loop. *)
Definition requireLookup (data : gmap string JSVal)
    (acc : Template * bool) (f : FieldDef) : Template * bool :=
  let '(t, allValid) := acc in
  let fn := fieldKey f in
  if truthy (getProp data fn) then (t, allValid)
  else match querySelector fn t with
       | None => (t, allValid)
       | Some _ =>
           let t' := setCustomValidity fn "This field is required." t in
           match querySelector fn t' with
           | Some input => (t', if reportValidity input then allValid else false)
           | None => (t', allValid)
           end
       end.

Definition rawType (f : FieldDef) : string :=
  toLowerCase (orString (type f) "text").

(** The email and phone loop, which stops at the first bad value; [None]
    when it runs to the end. *)
Fixpoint formatError (data : gmap string JSVal) (fields : list FieldDef)
  : option string :=
  match fields with
  | [] => None
  | f :: rest =>
      let fn := fieldKey f in
      let val := getProp data fn in
      if isNullish val || bool_decide (trim (StringOf val) = "") then
        formatError data rest
      else
        let strVal := VStr (trim (StringOf val)) in
        let label := orString (label f) fn in
        if bool_decide (rawType f = "email") && negb (isValidEmail strVal) then
          Some ("Invalid email format for " +:+ label +:+ ".")
        else if bool_decide (rawType f = "phone") && negb (isValidPhone strVal) then
          Some ("Invalid phone format for " +:+ label +:+ ".")
        else formatError data rest
  end.

(** One round of the payload loop. *)
Definition payloadStep (m : Modal) (payload : gmap string JSVal) (f : FieldDef)
  : gmap string JSVal :=
  let fn := fieldKey f in
  let currentVal := getProp (recordData m) fn in
  if isEditMode m then
    let initialVal := getProp (_initialRecordValues m) fn in
    if decide (normalizedValue currentVal = normalizedValue initialVal) then payload
    else <[fn := if isNullish currentVal then VStr "" else currentVal]> payload
  else
    if negb (isNullish currentVal) && negb (isEmptyString currentVal)
    then <[fn := currentVal]> payload
    else payload.

Definition buildPayload (m : Modal) : gmap string JSVal :=
  foldl (payloadStep m) ∅ (editFields m).

(** The validation part of [handleSave]: the template after the validity
    messages are set, whether everything is valid, and the message of the
    format loop. *)
Definition validate (m : Modal) (t : Template) : Template * bool * option string :=
  let t := clearLookupValidity (editFields m) t in
  let allValid := forallb reportValidity (inputs t) && forallb id (comboboxes t) in
  let '(t, allValid) :=
    foldl (requireLookup (recordData m)) (t, allValid)
      (List.filter (λ f, isExternal f && required f) (editFields m)) in
  match formatError (recordData m) (editFields m) with
  | Some msg => (t, false, Some msg)
  | None => (t, allValid, None)
  end.

(** [handleSave]: the component and the template afterwards, and the call
    it issues, if any. *)
Definition handleSave (m : Modal) (t : Template)
  : Modal * Template * option ApexCall :=
  let m := setErrorMessage "" m in
  if decide (trim (objectApiName m) = "") then
    (setErrorMessage "Object type is required." m, t, None)
  else if isEditMode m &&
          (negb (truthy (getProp (record m) "Id")) ||
           bool_decide (trim (StringOf (getProp (record m) "Id")) = "")) then
    (setErrorMessage "Record Id is required to update." m, t, None)
  else
    let '(t, allValid, msg) := validate m t in
    let m := match msg with Some e => setErrorMessage e m | None => m end in
    if negb allValid then
      (setErrorMessage
         (if decide (errorMessage m = "")
          then "Please fix validation errors before saving."
          else errorMessage m) m, t, None)
    else
      let payload := buildPayload m in
      if isEditMode m && bool_decide (size payload = 0%nat) then
        (setErrorMessage "No fields were changed." m, t, None)
      else
        let m := setErrorMessage "" (setSaveLoading true m) in
        if isEditMode m then
          (m, t, Some (updateRecord (objectApiName m) (getProp (record m) "Id") payload))
        else
          (m, t, Some (createRecord (objectApiName m) payload)).

(** The guards of [handleSave] before the payload is built: an object
    type, a record id in edit mode, and a valid form. *)
Definition passesValidation (m : Modal) (t : Template) : bool :=
  negb (bool_decide (trim (objectApiName m) = "")) &&
  negb (isEditMode m &&
        (negb (truthy (getProp (record m) "Id")) ||
         bool_decide (trim (StringOf (getProp (record m) "Id")) = ""))) &&
  snd (fst (validate m t)).

(** What a save call answers: [{success, errorMessage}], or a rejection
    with [error.body?.message] and [error.message]. *)
Inductive SaveResult :=
| SaveResponse (success : bool) (errorMessage : option string)
| SaveRejected (bodyMessage message : option string).

Inductive UiEffect :=
| Toast (title message : string)
| Close (saved : bool).

(** The [then] and [catch] continuations of the call of [handleSave];
    [failMessage] is 'Failed to save.' or 'Failed to create.'. *)
Definition handleSaveResult (m : Modal) (r : SaveResult)
    (title successMessage failMessage : string) : Modal * list UiEffect :=
  match r with
  | SaveResponse success err =>
      let m := setSaveLoading false m in
      if success then (m, [Toast title successMessage; Close true])
      else (setErrorMessage (orString err failMessage) m, [])
  | SaveRejected bodyMessage message =>
      (setErrorMessage (orString bodyMessage (orString message failMessage))
         (setSaveLoading false m), [])
  end.

(** The continuations [handleSave] attaches to its call. *)
Definition handleSaveDone (m : Modal) (r : SaveResult) : Modal * list UiEffect :=
  if isEditMode m
  then handleSaveResult m r "Saved" "Record updated in external org." "Failed to save."
  else handleSaveResult m r "Created" "Record created in external org." "Failed to create.".

(** *** External lookups: timers and searches

    The component runs on an event loop.  A [World] holds the component
    together with what the loop keeps for it: the clock, the timers set by
    [setTimeout] and not yet fired or cleared, and the searches sent to the
    server and not yet answered.  A timer remembers what its callback
    closes over: the field and, for a search, the trimmed search term. *)

Inductive TimerKind := SearchTimer | BlurTimer.

Record Timer := mkTimer {
  timerId : nat;
  due : Z;
  timerKind : TimerKind;
  timerField : string;
  timerTerm : string
}.

Record Request := mkRequest {
  requestId : nat;
  requestField : string;
  requestCall : ApexCall
}.

Record World := mkWorld {
  modal : Modal;
  now : Z;
  nextTimerId : nat;
  timers : list Timer;
  nextRequestId : nat;
  outstanding : list Request
}.

Definition setModal (m : Modal) (w : World) : World :=
  mkWorld m (now w) (nextTimerId w) (timers w) (nextRequestId w) (outstanding w).

(** [clearTimeout(id)] *)
Definition clearTimeout (id : nat) (ts : list Timer) : list Timer :=
  List.filter (λ t, negb (Nat.eqb (timerId t) id)) ts.

(** [f.fieldName || f.FieldName], possibly undefined. *)
Definition fieldKeyOpt (f : FieldDef) : option string :=
  match fieldName f with
  | Some s => if decide (s = "") then FieldName f else Some s
  | None => FieldName f
  end.

Definition handleExternalLookupInput (fieldName value : string) (w : World) : World :=
  let m := modal w in
  let searchTerm := trim value in
  let m := setSearchTerm (<[fieldName := value]> (externalLookupSearchTerm m)) m in
  let m := setRecordData (<[fieldName := VStr ""]> (recordData m)) m in
  let m := setDisplayMap (<[fieldName := ""]> (externalLookupDisplayMap m)) m in
  let m := setDropdownOpen (<[fieldName := true]> (externalLookupDropdownOpen m)) m in
  let ts :=
    match _externalSearchTimeouts m !! fieldName with
    | Some id => if Nat.eqb id 0 then timers w else clearTimeout id (timers w)
    | None => timers w
    end in
  let id := nextTimerId w in
  let t := mkTimer id (now w + EXTERNAL_LOOKUP_SEARCH_DEBOUNCE_MS) SearchTimer
             fieldName searchTerm in
  let m := setSearchTimeouts (<[fieldName := id]> (_externalSearchTimeouts m)) m in
  mkWorld m (now w) (S id) (ts ++ [t]) (nextRequestId w) (outstanding w).

Definition handleExternalLookupSelect (fieldName value : string)
    (label : option string) (m : Modal) : Modal :=
  let label := orString label value in
  let m := setRecordData (<[fieldName := VStr value]> (recordData m)) m in
  let m := setDisplayMap (<[fieldName := label]> (externalLookupDisplayMap m)) m in
  let m := setSearchTerm (<[fieldName := ""]> (externalLookupSearchTerm m)) m in
  let m := setDropdownOpen (<[fieldName := false]> (externalLookupDropdownOpen m)) m in
  setOptionsMap (<[fieldName := []]> (externalLookupOptionsMap m)) m.

Definition handleExternalLookupBlur (fieldName : string) (w : World) : World :=
  let t := mkTimer (nextTimerId w) (now w + 200) BlurTimer fieldName "" in
  mkWorld (modal w) (now w) (S (nextTimerId w)) (timers w ++ [t])
    (nextRequestId w) (outstanding w).

Definition handleExternalLookupClear (fieldName : string) (m : Modal) : Modal :=
  let m := setRecordData (<[fieldName := VStr ""]> (recordData m)) m in
  let m := setDisplayMap (<[fieldName := ""]> (externalLookupDisplayMap m)) m in
  let m := setSearchTerm (<[fieldName := ""]> (externalLookupSearchTerm m)) m in
  let m := setDropdownOpen (<[fieldName := false]> (externalLookupDropdownOpen m)) m in
  setOptionsMap (<[fieldName := []]> (externalLookupOptionsMap m)) m.

(** The callback of a timer. *)
Definition fire (t : Timer) (w : World) : World :=
  let m := modal w in
  match timerKind t with
  | BlurTimer =>
      setModal (setDropdownOpen
                  (<[timerField t := false]> (externalLookupDropdownOpen m)) m) w
  | SearchTimer =>
      let fieldDef :=
        List.find (λ f, bool_decide (fieldKeyOpt f = Some (timerField t)))
          (editFields m) in
      let objectApiName := getLookupObjectForField fieldDef in
      if decide (objectApiName = "") then
        setModal (setOptionsMap
                    (<[timerField t := []]> (externalLookupOptionsMap m)) m) w
      else
        let r := mkRequest (nextRequestId w) (timerField t)
                   (searchExternalRecords objectApiName (timerTerm t)
                      EXTERNAL_LOOKUP_MAX_RESULTS) in
        mkWorld m (now w) (nextTimerId w) (timers w) (S (nextRequestId w))
          (outstanding w ++ [r])
  end.

Definition isDue (time : Z) (t : Timer) : bool := due t <=? time.

(** Time passes: the clock moves on by [dt] and the timers that are due
    fire, earliest first. *)
Definition advance (dt : Z) (w : World) : World :=
  let time := now w + dt in
  let ready := JS.sort (λ a b, due a - due b) (List.filter (isDue time) (timers w)) in
  let waiting := List.filter (λ t, negb (isDue time t)) (timers w) in
  foldl (λ w t, fire t w)
    (mkWorld (modal w) time (nextTimerId w) waiting (nextRequestId w) (outstanding w))
    ready.

(** The answer to a search: the options (or null), or a rejection. *)
Inductive SearchResult :=
| SearchResolved (options : option (list LookupOption))
| SearchRejected.

Definition removeRequest (id : nat) (rs : list Request) : list Request :=
  List.filter (λ r, negb (Nat.eqb (requestId r) id)) rs.

(** The [then] and [catch] continuations of a search, run when request
    [id] is answered. *)
Definition deliver (id : nat) (res : SearchResult) (w : World) : World :=
  match List.find (λ r, Nat.eqb (requestId r) id) (outstanding w) with
  | None => w
  | Some r =>
      let m := modal w in
      let m :=
        match res with
        | SearchResolved options =>
            setOptionsMap
              (<[requestField r := default [] options]> (externalLookupOptionsMap m)) m
        | SearchRejected => m
        end in
      mkWorld m (now w) (nextTimerId w) (timers w) (nextRequestId w)
        (removeRequest id (outstanding w))
  end.

(** What happens to an open modal, one event at a time: the user types
    in a lookup input, time passes, a search is answered, a lookup input
    loses the focus, the user picks an option, clears a lookup, or changes
    another field. *)
Inductive Event :=
| Input (fieldName value : string)
| Elapse (dt : Z)
| Answer (id : nat) (res : SearchResult)
| Blur (fieldName : string)
| Select (fieldName value : string) (label : option string)
| Clear (fieldName : string)
| Change (fieldName : string) (value : JSVal).

Definition step (w : World) (e : Event) : World :=
  match e with
  | Input f v => handleExternalLookupInput f v w
  | Elapse dt => advance dt w
  | Answer id res => deliver id res w
  | Blur f => handleExternalLookupBlur f w
  | Select f v l => setModal (handleExternalLookupSelect f v l (modal w)) w
  | Clear f => setModal (handleExternalLookupClear f (modal w)) w
  | Change f v => setModal (handleFieldChange f v (modal w)) w
  end.

Definition run (es : list Event) (w : World) : World := foldl step w es.

(** The world of a modal that has just been opened. *)
Definition boot (m : Modal) : World := mkWorld m 0 1 [] 1 [].

Definition isSearchFor (f : string) (t : Timer) : bool :=
  match timerKind t with
  | SearchTimer => bool_decide (timerField t = f)
  | BlurTimer => false
  end.

(** The searches of field [f] that are not answered yet. *)
Definition searchesFor (f : string) (w : World) : list ApexCall :=
  map requestCall
    (List.filter (λ r, bool_decide (requestField r = f)) (outstanding w)).

(** Timer identifiers are positive, and the search timer of a field, when
    one is pending, is the one the component remembers for the field. *)
Definition timersKnown (f : string) (w : World) : bool :=
  negb (Nat.eqb (nextTimerId w) 0) &&
  forallb (λ t, if isSearchFor f t
                then bool_decide (_externalSearchTimeouts (modal w) !! f
                                  = Some (timerId t))
                     && negb (Nat.eqb (timerId t) 0)
                else true) (timers w).

(** The user types [texts] one after the other into the lookup input of
    field [f], each keystroke followed by a pause. *)
Definition typing (f : string) (texts : list (string * Z)) : list Event :=
  flat_map (λ '(text, pause), [Input f text; Elapse pause]) texts.

(** Whether an event writes the working value of field [f] otherwise than
    by clearing it: a selection, or a direct change of the field. *)
Definition writesValue (f : string) (e : Event) : bool :=
  match e with
  | Select g _ _ => bool_decide (g = f)
  | Change g _ => bool_decide (g = f)
  | _ => false
  end.

(** The lookup target of the field named [f] in the form. *)
Definition lookupTargetOf (m : Modal) (f : string) : string :=
  getLookupObjectForField
    (List.find (λ fd, bool_decide (fieldKeyOpt fd = Some f)) (editFields m)).

(** The search a timer of field [f] sends when it fires. *)
Definition searchOf (f : string) (m : Modal) (t : Timer) : list ApexCall :=
  if isSearchFor f t then
    if decide (lookupTargetOf m f = "") then []
    else [searchExternalRecords (lookupTargetOf m f) (timerTerm t)
            EXTERNAL_LOOKUP_MAX_RESULTS]
  else [].

(** Timer identifiers are positive and the pending search timers of [f]
    are remembered by the component. *)
Definition Known (f : string) (w : World) : Prop :=
  nextTimerId w ≠ 0%nat ∧
  ∀ t, t ∈ timers w → isSearchFor f t = true →
       _externalSearchTimeouts (modal w) !! f = Some (timerId t) ∧
       timerId t ≠ 0%nat.

(** Exactly one search timer of [f] is pending: it fires at [deadline]
    and will search for [term]. *)
Definition Armed (f term : string) (deadline : Z) (w : World) : Prop :=
  nextTimerId w ≠ 0%nat ∧
  ∃ id, List.filter (isSearchFor f) (timers w)
          = [mkTimer id deadline SearchTimer f term] ∧
        _externalSearchTimeouts (modal w) !! f = Some id ∧ id ≠ 0%nat.

(** A keystroke followed by a pause shorter than the debounce delay. *)
Definition shortPause (x : string * Z) : bool :=
  (0 <=? snd x) && (snd x <? EXTERNAL_LOOKUP_SEARCH_DEBOUNCE_MS).

End Engine.

End RecordModal.

(** ** The records viewer: table, paging, sort, load and delete *)

Module RecordsViewer.

Import JS.

Definition SEARCH_DEBOUNCE_MS : Z := 400.
Definition FETCH_LIMIT : Z := 200.

(** A row of the table: a record as the controller returns it. *)
Abbreviation Row := (gmap string JSVal).

(** A column as configured, and as [buildTableColumns] hands it to the
    data table. *)
Record RawColumn := mkRawColumn {
  colLabel : option string;
  colFieldName : option string;
  colType : option string;
  colIsLink : bool;
  colSortable : bool;
  colOptions : list (string * string)
}.

Inductive Column :=
| ButtonColumn (label fieldName : option string) (sortable : bool)
| FieldColumn (label fieldName : option string) (type : string)
    (sortable : bool) (options : option (list (string * string)))
| ActionColumn (rowActions : list (string * string)).

Definition buildColumn (col : RawColumn) : Column :=
  if colIsLink col then ButtonColumn (colLabel col) (colFieldName col) (colSortable col)
  else
    let colType :=
      toLowerCase (match colType col with
                   | Some s => if decide (s = "") then "text" else s
                   | None => "text"
                   end) in
    FieldColumn (colLabel col) (colFieldName col) colType (colSortable col)
      (if decide (colType = "picklist") then Some (colOptions col) else None).

Definition buildTableColumns (columns : list RawColumn) : list Column :=
  map buildColumn columns ++ [ActionColumn [("Edit", "edit"); ("Delete", "delete")]].

Record Viewer := mkViewer {
  objectApiName : string;
  tableData : list Row;
  tableColumns : list Column;
  errorMessage : string;
  isLoading : bool;
  hasSearched : bool;
  currentPage : Z;
  pageSize : Z;
  sortedBy : string;
  sortedDirection : string;
  searchTerm : string
}.

(** The component as it is created. *)
Definition create (objectApiName : string) : Viewer :=
  mkViewer objectApiName [] [] "" false false 1 25 "" "asc" "".

Definition setTable rows cols (v : Viewer) : Viewer :=
  mkViewer (objectApiName v) rows cols (errorMessage v) (isLoading v)
    (hasSearched v) (currentPage v) (pageSize v) (sortedBy v)
    (sortedDirection v) (searchTerm v).

Definition setErrorMessage e (v : Viewer) : Viewer :=
  mkViewer (objectApiName v) (tableData v) (tableColumns v) e (isLoading v)
    (hasSearched v) (currentPage v) (pageSize v) (sortedBy v)
    (sortedDirection v) (searchTerm v).

Definition setIsLoading b (v : Viewer) : Viewer :=
  mkViewer (objectApiName v) (tableData v) (tableColumns v) (errorMessage v) b
    (hasSearched v) (currentPage v) (pageSize v) (sortedBy v)
    (sortedDirection v) (searchTerm v).

Definition setHasSearched b (v : Viewer) : Viewer :=
  mkViewer (objectApiName v) (tableData v) (tableColumns v) (errorMessage v)
    (isLoading v) b (currentPage v) (pageSize v) (sortedBy v)
    (sortedDirection v) (searchTerm v).

Definition setCurrentPage p (v : Viewer) : Viewer :=
  mkViewer (objectApiName v) (tableData v) (tableColumns v) (errorMessage v)
    (isLoading v) (hasSearched v) p (pageSize v) (sortedBy v)
    (sortedDirection v) (searchTerm v).

Definition setPageSize n (v : Viewer) : Viewer :=
  mkViewer (objectApiName v) (tableData v) (tableColumns v) (errorMessage v)
    (isLoading v) (hasSearched v) (currentPage v) n (sortedBy v)
    (sortedDirection v) (searchTerm v).

Definition setSort by_ dir (v : Viewer) : Viewer :=
  mkViewer (objectApiName v) (tableData v) (tableColumns v) (errorMessage v)
    (isLoading v) (hasSearched v) (currentPage v) (pageSize v) by_ dir
    (searchTerm v).

Definition setSearchTerm s (v : Viewer) : Viewer :=
  mkViewer (objectApiName v) (tableData v) (tableColumns v) (errorMessage v)
    (isLoading v) (hasSearched v) (currentPage v) (pageSize v) (sortedBy v)
    (sortedDirection v) s.

(** *** Paging *)

Definition totalRecords (v : Viewer) : Z := Z.of_nat (List.length (tableData v)).

Definition totalPages (v : Viewer) : Z :=
  if (totalRecords v =? 0) || (pageSize v <=? 0) then 1
  else ceilDiv (totalRecords v) (pageSize v).

Definition canGoPrev (v : Viewer) : bool := currentPage v >? 1.
Definition canGoNext (v : Viewer) : bool := currentPage v <? totalPages v.

Definition handlePageSizeChange (value : string) (v : Viewer) : Viewer :=
  let newSize :=
    match parseInt value with
    | Some n => if n =? 0 then 25 else n
    | None => 25
    end in
  if newSize =? pageSize v then v
  else
    let v := setPageSize newSize v in
    let maxPage := Z.max 1 (ceilDiv (totalRecords v) (pageSize v)) in
    setCurrentPage (Z.min (currentPage v) maxPage) v.

Definition handleFirstPage (v : Viewer) : Viewer := setCurrentPage 1 v.

Definition handlePrevPage (v : Viewer) : Viewer :=
  if canGoPrev v then setCurrentPage (currentPage v - 1) v else v.

Definition handleNextPage (v : Viewer) : Viewer :=
  if canGoNext v then setCurrentPage (currentPage v + 1) v else v.

Definition handleLastPage (v : Viewer) : Viewer := setCurrentPage (totalPages v) v.

(** [tableData.slice(start, start + pageSize)] with the row numbers. *)
Definition displayTableData (v : Viewer) : list (Row * Z) :=
  let start := (currentPage v - 1) * pageSize v in
  let len := totalRecords v in
  let from := relIndex len start in
  let to := relIndex len (start + pageSize v) in
  imap (λ i row, (row, start + Z.of_nat i + 1))
    (take (Z.to_nat (to - from)) (drop (Z.to_nat from) (tableData v))).

(** *** Loading and deleting *)

Inductive ApexCall :=
| getRecords (objectType : string) (recordLimit : Z) (searchTerm : option string)
| deleteRecord (objectType : string) (recordId : JSVal)
| getRecordForEdit (objectType : string) (recordId : JSVal)
| getCreateFields (objectType : string).

(** [loadRecords], up to the call. *)
Definition loadRecords (v : Viewer) : Viewer * option ApexCall :=
  if decide (objectApiName v = "") then
    (setErrorMessage "SObject API name is required." v, None)
  else
    let v := setHasSearched true (setErrorMessage "" (setIsLoading true v)) in
    (v, Some (getRecords (objectApiName v) FETCH_LIMIT
                (if decide (searchTerm v = "") then None else Some (searchTerm v)))).

(** The answer to [getRecords]: a response, or a rejection with
    [error.body?.message] and [error.message]. *)
Inductive LoadResult :=
| LoadResponse (success : bool) (records : option (list Row))
    (columns : option (list RawColumn)) (errorMessage : option string)
| LoadRejected (bodyMessage message : option string).

Definition orString (a : option string) (b : string) : string :=
  match a with
  | Some s => if decide (s = "") then b else s
  | None => b
  end.

(** The [then] and [catch] continuations of [loadRecords]. *)
Definition loadRecordsDone (r : LoadResult) (v : Viewer) : Viewer :=
  let v := setIsLoading false v in
  match r with
  | LoadResponse true records columns _ =>
      setSort "" "asc"
        (setCurrentPage 1
           (setTable (default [] records)
              (buildTableColumns (default [] columns)) v))
  | LoadResponse false _ _ err =>
      setSort "" "asc"
        (setTable [] [] (setErrorMessage (orString err "An error occurred.") v))
  | LoadRejected bodyMessage message =>
      setSort "" "asc"
        (setTable [] []
           (setErrorMessage
              (orString bodyMessage (orString message "Failed to load records.")) v))
  end.

(** [handleDelete], up to the call; [confirmed] is the answer to the
    confirmation dialog. *)
Definition handleDelete (recordId : JSVal) (confirmed : bool) (v : Viewer)
  : Viewer * option ApexCall :=
  if bool_decide (objectApiName v = "") || negb (truthy recordId) then
    (setErrorMessage "Object type and record Id are required." v, None)
  else if negb confirmed then (v, None)
  else
    (setErrorMessage "" (setIsLoading true v),
     Some (deleteRecord (objectApiName v) recordId)).

Inductive DeleteResult :=
| DeleteResponse (success : bool) (errorMessage : option string)
| DeleteRejected (bodyMessage message : option string).

Inductive UiEffect :=
| Toast (title message : string).

(** The continuations of [handleDelete]: on success a toast and a reload. *)
Definition handleDeleteDone (r : DeleteResult) (v : Viewer)
  : Viewer * list UiEffect * option ApexCall :=
  let v := setIsLoading false v in
  match r with
  | DeleteResponse true _ =>
      let '(v, call) := loadRecords v in
      (v, [Toast "Deleted" "Record deleted in external org."], call)
  | DeleteResponse false err =>
      (setErrorMessage (orString err "Failed to delete.") v, [], None)
  | DeleteRejected bodyMessage message =>
      (setErrorMessage (orString bodyMessage (orString message "Failed to delete.")) v,
       [], None)
  end.

(** Opening a record for edit: [handleRowAction] up to the call. *)
Definition handleRowActionEdit (rowId : JSVal) (v : Viewer)
  : Viewer * option ApexCall :=
  if decide (objectApiName v = "") then
    (setErrorMessage "Object type is required." v, None)
  else if negb (truthy rowId) then
    (setErrorMessage "Record Id is required to edit." v, None)
  else (v, Some (getRecordForEdit (objectApiName v) rowId)).

Definition handleNewRecord (v : Viewer) : Viewer * option ApexCall :=
  if decide (objectApiName v = "") then
    (setErrorMessage "Object type is required." v, None)
  else (v, Some (getCreateFields (objectApiName v))).

(** A rejected [getRecordForEdit] or [getCreateFields] runs the empty
    [catch] handler: nothing changes. *)
Definition openRecordModalRejected (v : Viewer) : Viewer := v.

(** *** Sorting *)

Section Sorting.

Variable StringToNumber : string → Number.

(** [v == null || v === ''] *)
Definition isBlankCell (v : JSVal) : bool := isNullish v || isEmptyString v.

(** [if (typeof v === 'string') v = (v || '').toLowerCase()] *)
Definition lowerIfString (v : JSVal) : JSVal :=
  match v with
  | VStr s => VStr (toLowerCase s)
  | _ => v
  end.

(** The comparison function handed to [sort]. *)
Definition sortCompare (fieldName : string) (isAsc : bool) (a b : Row) : Z :=
  let aVal := getProp a fieldName in
  let bVal := getProp b fieldName in
  let aNull := isBlankCell aVal in
  let bNull := isBlankCell bVal in
  if aNull && bNull then 0
  else if aNull then (if isAsc then 1 else -1)
  else if bNull then (if isAsc then -1 else 1)
  else
    let aVal := lowerIfString aVal in
    let bVal := lowerIfString bVal in
    if lessThan StringToNumber aVal bVal then (if isAsc then -1 else 1)
    else if lessThan StringToNumber bVal aVal then (if isAsc then 1 else -1)
    else 0.

Definition handleSort (fieldName sortDirection : string) (v : Viewer) : Viewer :=
  if bool_decide (fieldName = "") || (totalRecords v =? 0) then v
  else
    let isAsc := bool_decide (sortDirection = "asc") in
    let sorted := JS.sort (sortCompare fieldName isAsc) (tableData v) in
    setSort fieldName sortDirection
      (setTable sorted (tableColumns v) v).

End Sorting.

Definition blankIn (f : string) (row : Row) : bool := isBlankCell (getProp row f).

(** Where blank cells go: last when ascending, first when descending. *)
Definition goesLast (f : string) (isAsc : bool) (row : Row) : bool :=
  if isAsc then blankIn f row else negb (blankIn f row).

(** *** The life of the component *)

Inductive Event :=
| PageSizeChange (value : string)
| FirstPage
| PrevPage
| NextPage
| LastPage
| Sort (fieldName sortDirection : string)
| SearchChange (value : string)
| LoadStart
| LoadDone (r : LoadResult)
| Delete (recordId : JSVal) (confirmed : bool)
| DeleteDone (r : DeleteResult)
| EditRejected.

Definition step (StringToNumber : string → Number) (v : Viewer) (e : Event) : Viewer :=
  match e with
  | PageSizeChange value => handlePageSizeChange value v
  | FirstPage => handleFirstPage v
  | PrevPage => handlePrevPage v
  | NextPage => handleNextPage v
  | LastPage => handleLastPage v
  | Sort f d => handleSort StringToNumber f d v
  | SearchChange value => setSearchTerm value v
  | LoadStart => fst (loadRecords v)
  | LoadDone r => loadRecordsDone r v
  | Delete id c => fst (handleDelete id c v)
  | DeleteDone r => fst (fst (handleDeleteDone r v))
  | EditRejected => openRecordModalRejected v
  end.

Definition run (StringToNumber : string → Number) (es : list Event) (v : Viewer) : Viewer :=
  foldl (step StringToNumber) v es.

(** The events on which the model is exact: the page size chosen is read
    exactly. *)
Definition exactEvent (e : Event) : bool :=
  match e with
  | PageSizeChange value => readsExactly value
  | _ => true
  end.

(** The cells of a column of texts, and of a column of numbers; a cell
    may be blank in both. *)
Definition textCell (v : JSVal) : bool :=
  isBlankCell v || match v with VStr _ => true | _ => false end.

Definition numberCell (v : JSVal) : bool :=
  isBlankCell v || match v with VNum _ => true | _ => false end.

Definition uniformColumn (f : string) (rows : list Row) : bool :=
  forallb (λ r, textCell (getProp r f)) rows ||
  forallb (λ r, numberCell (getProp r f)) rows.

End RecordsViewer.

(** ** Arrays *)

Module JSArray.

Import JS.

(** [a.slice(start, end)] and [a.slice(start)], with the relative indices
    of the language. *)
Definition slice {A} (a : list A) (start stop : Z) : list A :=
  let len := Z.of_nat (List.length a) in
  let from := relIndex len start in
  let to := relIndex len stop in
  take (Z.to_nat (to - from)) (drop (Z.to_nat from) a).

Definition sliceFrom {A} (a : list A) (start : Z) : list A :=
  slice a start (Z.of_nat (List.length a)).

End JSArray.

(** ** The record modal: what the form shows *)

Module ModalView.

Import JS RecordModal.

(** A field of [editFields] with the picklist options, which the change
    detection and the validation never read. *)
Record EditField := mkEditField {
  descriptorOf : FieldDef;
  options : option (list (string * string))
}.

(** An element of [fieldsWithValues]: the descriptor ([...f]) and the
    properties computed for the template. *)
Module View.

Record FieldView := mkFieldView {
  field : EditField;
  fieldName : string;
  value : string;
  isPicklist : bool;
  isExternalLookup : bool;
  inputType : string;
  required : bool;
  externalOptions : list LookupOption;
  externalLookupInputValue : string;
  externalLookupDropdownOpen : bool;
  externalLookupHasSelection : bool;
  externalLookupPlaceholder : string
}.

End View.

(** The time value of [new Date(q)] for a number: [TimeClip], which cuts
    the fraction off; [None] for an invalid date. *)
Definition timeOfNumber (q : Q) : option Z :=
  if Qle_bool (- (8640000000000000 # 1)) q && Qle_bool q (8640000000000000 # 1)
  then Some (Z.quot (Qnum q) (Z.pos (Qden q)))
  else None.

Section Engine.

Variable NumberToString : Q → string.
Variable legacyDateParse : string → option Z.
Variable LocalTZA : Z → Z.

(** [`${v}`] *)
Definition StringOf (v : JSVal) : string := ToString NumberToString v.

(** [new Date(val).getTime()]: a string is parsed, anything else is
    converted to a number ([undefined] to NaN). *)
Definition newDate (val : JSVal) : option Z :=
  match val with
  | VStr s => Date.parse legacyDateParse LocalTZA s
  | VNum q => timeOfNumber q
  | VBool b => Some (if b then 1 else 0)
  | VNull => Some 0
  | VUndef => None
  | VObj _ => Date.parse legacyDateParse LocalTZA "[object Object]"
  end.

(** The callback of [fieldsWithValues], on one field. *)
Definition fieldView (m : Modal) (e : EditField) : View.FieldView :=
  let f := descriptorOf e in
  let fieldName := fieldKey f in
  let val := getProp (recordData m) fieldName in
  let val :=
    match val with
    | VObj props => match getOwn "value" props with
                    | Some x => x
                    | None => val
                    end
    | _ => val
    end in
  let val :=
    if bool_decide (type f = Some "date") && truthy val then
      match newDate val with
      | Some t => VStr (slice (Date.toISOString t) 0 10)
      | None => val
      end
    else val in
  let isPicklist :=
    bool_decide (toLowerCase (orString (type f) "") = "picklist") &&
    match options e with
    | Some (_ :: _) => true
    | _ => false
    end in
  let isExternalLookup := isExternal f in
  let rawType := rawType f in
  let inputType :=
    if decide (rawType = "phone") then "tel"
    else if decide (rawType = "email") then "email" else rawType in
  let required := required f in
  let externalOptions := default [] (externalLookupOptionsMap m !! fieldName) in
  let hasSelection := negb (isNullish val) && negb (isEmptyString val) in
  let displayVal :=
    if hasSelection
       && negb (bool_decide (default "" (externalLookupDisplayMap m !! fieldName) = ""))
    then default "" (externalLookupDisplayMap m !! fieldName)
    else default "" (externalLookupSearchTerm m !! fieldName) in
  let dropdownOpen :=
    bool_decide (externalLookupDropdownOpen m !! fieldName = Some true) in
  let lookupObj := getLookupObjectForField (Some f) in
  let externalLookupPlaceholder :=
    if decide (lookupObj = "") then "Type to search by name..."
    else "Type to search " +:+ lookupObj +:+ " by name..." in
  View.mkFieldView e fieldName
    (if isNullish val then "" else StringOf val)
    isPicklist isExternalLookup inputType required externalOptions
    displayVal dropdownOpen hasSelection externalLookupPlaceholder.

(** [fieldsWithValues], [fields] being [this.editFields]. *)
Definition fieldsWithValues (fields : list EditField) (m : Modal)
  : list View.FieldView :=
  map (fieldView m) fields.

Definition fieldsLeft (fields : list EditField) (m : Modal) : list View.FieldView :=
  let all := fieldsWithValues fields m in
  let mid := ceilDiv (Z.of_nat (List.length all)) 2 in
  JSArray.slice all 0 mid.

Definition fieldsRight (fields : list EditField) (m : Modal) : list View.FieldView :=
  let all := fieldsWithValues fields m in
  let mid := ceilDiv (Z.of_nat (List.length all)) 2 in
  JSArray.sliceFrom all mid.

Definition modalTitle (m : Modal) : string :=
  if isEditMode m then
    let name :=
      if truthy (getProp (recordData m) "Name") then getProp (recordData m) "Name"
      else if truthy (getProp (record m) "Name") then getProp (record m) "Name"
      else VStr "Record" in
    StringOf name
  else
    "New " +:+ (if decide (objectApiName m = "") then "Record" else objectApiName m).

(** Whether the payload loop of [handleSave] writes the field named [k],
    and the value it writes. *)
Definition written (m : Modal) (k : string) : bool :=
  let currentVal := getProp (recordData m) k in
  if isEditMode m then
    negb (bool_decide
            (normalizedValue NumberToString legacyDateParse LocalTZA currentVal
             = normalizedValue NumberToString legacyDateParse LocalTZA
                 (getProp (_initialRecordValues m) k)))
  else negb (isNullish currentVal) && negb (isEmptyString currentVal).

Definition sentValue (m : Modal) (k : string) : JSVal :=
  let currentVal := getProp (recordData m) k in
  if isEditMode m then (if isNullish currentVal then VStr "" else currentVal)
  else currentVal.

End Engine.

(** The validity messages of the inputs of a list of fields, cleared one
    after the other as the first loop of [handleSave] does. *)
Definition clearAll (fs : list FieldDef) (t : Template) : Template :=
  foldl (λ t f, setCustomValidity (fieldKey f) "" t) t fs.

(** A blur timer of field [f] is pending and fires within [dt]. *)
Definition blurDue (f : string) (dt : Z) (w : World) : Prop :=
  ∃ t, t ∈ timers w ∧ timerKind t = BlurTimer ∧ timerField t = f ∧
       due t <= now w + dt.

End ModalView.

(** ** The records viewer: the page shown, row actions, the search box *)

Module ViewerPage.

Import JS RecordsViewer.

(** The page sizes the combobox offers: label and value. *)
Definition LIMIT_OPTIONS : list (string * string) :=
  [("10", "10"); ("25", "25"); ("50", "50"); ("100", "100"); ("200", "200")].

(** An event the user interface can produce without the server failing a
    load: a page size is one of the options offered. *)
Definition regular (e : Event) : bool :=
  match e with
  | PageSizeChange value => bool_decide (value ∈ map snd LIMIT_OPTIONS)
  | LoadDone (LoadResponse success _ _ _) => success
  | LoadDone (LoadRejected _ _) => false
  | _ => true
  end.

(** The page size is positive and the current page is within the page
    count. *)
Definition inRange (v : Viewer) : Prop :=
  0 < pageSize v ∧ 1 <= currentPage v <= totalPages v.

Definition paginatedData (v : Viewer) : list Row :=
  if totalRecords v =? 0 then []
  else
    let start := (currentPage v - 1) * pageSize v in
    JSArray.slice (tableData v) start (start + pageSize v).

Definition pageStart (v : Viewer) : Z :=
  if totalRecords v =? 0 then 0 else (currentPage v - 1) * pageSize v + 1.

Definition pageEnd (v : Viewer) : Z :=
  Z.min (currentPage v * pageSize v) (totalRecords v).

Definition prevDisabled (v : Viewer) : bool := negb (canGoPrev v).
Definition nextDisabled (v : Viewer) : bool := negb (canGoNext v).

(** The page numbers [1 .. n]. *)
Definition pagesUpTo (n : Z) : list Z := map (λ i, Z.of_nat i + 1) (seq 0 (Z.to_nat n)).

(** [handleRowAction]: [rowId] is [row?.Id], and [confirmed] the answer to
    the confirmation dialog, asked for a delete only. *)
Definition handleRowAction (actionName : string) (rowId : JSVal) (confirmed : bool)
    (v : Viewer) : Viewer * option ApexCall :=
  if decide (objectApiName v = "") then
    (setErrorMessage "Object type is required." v, None)
  else if bool_decide (actionName = "viewRecord") || bool_decide (actionName = "edit") then
    if negb (truthy rowId) then
      (setErrorMessage "Record Id is required to edit." v, None)
    else (v, Some (getRecordForEdit (objectApiName v) rowId))
  else if bool_decide (actionName = "delete") then
    if negb (truthy rowId) then
      (setErrorMessage "Record Id is required to delete." v, None)
    else handleDelete rowId confirmed v
  else (v, None).

(** *** The search box

    The component on its event loop: the clock, the timers set and not yet
    fired or cleared, the timer the component remembers, and the calls its
    timers have sent. *)

Record SearchTimer := mkSearchTimer { searchTimerId : nat; searchDue : Z }.

Record Page := mkPage {
  viewer : Viewer;
  _searchTimeout : option nat;
  clock : Z;
  nextTimerId : nat;
  timers : list SearchTimer;
  sent : list ApexCall
}.

Definition clearTimeout (id : nat) (ts : list SearchTimer) : list SearchTimer :=
  List.filter (λ t, negb (Nat.eqb (searchTimerId t) id)) ts.

(** [handleSearchChange]; [value] is [event.detail.value]. *)
Definition handleSearchChange (value : option string) (p : Page) : Page :=
  let v := setSearchTerm (orString value "") (viewer p) in
  let ts :=
    match _searchTimeout p with
    | Some id => if Nat.eqb id 0 then timers p else clearTimeout id (timers p)
    | None => timers p
    end in
  let id := nextTimerId p in
  mkPage v (Some id) (clock p) (S id)
    (ts ++ [mkSearchTimer id (clock p + SEARCH_DEBOUNCE_MS)]) (sent p).

(** The callback of the timer. *)
Definition fire (p : Page) : Page :=
  let '(v, call) := loadRecords (viewer p) in
  mkPage v None (clock p) (nextTimerId p) (timers p)
    (sent p ++ match call with Some c => [c] | None => [] end).

Definition isDue (time : Z) (t : SearchTimer) : bool := searchDue t <=? time.

(** Time passes: the timers that are due fire, earliest first. *)
Definition advance (dt : Z) (p : Page) : Page :=
  let time := clock p + dt in
  let ready :=
    JS.sort (λ a b, searchDue a - searchDue b) (List.filter (isDue time) (timers p)) in
  let waiting := List.filter (λ t, negb (isDue time t)) (timers p) in
  foldl (λ p _, fire p)
    (mkPage (viewer p) (_searchTimeout p) time (nextTimerId p) waiting (sent p))
    ready.

Inductive Keystroke :=
| SearchChange (value : option string)
| Elapse (dt : Z).

Definition step (p : Page) (e : Keystroke) : Page :=
  match e with
  | SearchChange value => handleSearchChange value p
  | Elapse dt => advance dt p
  end.

Definition run (es : list Keystroke) (p : Page) : Page := foldl step p es.

(** The component once connected, before anything is typed. *)
Definition boot (v : Viewer) : Page := mkPage v None 0 1 [] [].

(** The user types [texts] into the search box, each keystroke followed
    by a pause. *)
Definition typing (texts : list (string * Z)) : list Keystroke :=
  flat_map (λ '(text, pause), [SearchChange (Some text); Elapse pause]) texts.

Definition shortPause (x : string * Z) : bool :=
  (0 <=? snd x) && (snd x <? SEARCH_DEBOUNCE_MS).

(** No timer is pending but, possibly, the one the component remembers. *)
Definition Tidy (p : Page) : Prop :=
  nextTimerId p ≠ 0%nat ∧
  (timers p = [] ∨
   ∃ id deadline, timers p = [mkSearchTimer id deadline] ∧
                  _searchTimeout p = Some id ∧ id ≠ 0%nat).

(** Exactly one timer is pending, the one the component remembers; it
    fires at [deadline]. *)
Definition Armed (deadline : Z) (p : Page) : Prop :=
  nextTimerId p ≠ 0%nat ∧
  ∃ id, timers p = [mkSearchTimer id deadline] ∧
        _searchTimeout p = Some id ∧ id ≠ 0%nat.

End ViewerPage.
(** ** The dashboard charts: chart definitions and chart configurations *)

Module DashboardCharts.

Import JS.

(** JSON data as the dashboard controller returns it. *)
#[warnings="-register-all"]
Inductive Json :=
| JUndef
| JNull
| JBool (b : bool)
| JNum (q : Q)
| JStr (s : string)
| JArr (items : list Json)
| JObj (props : list (string * Json)).

(** [!!v] *)
Definition truthy (v : Json) : bool :=
  match v with
  | JUndef | JNull => false
  | JBool b => b
  | JNum q => negb (Qeq_bool q 0)
  | JStr s => if decide (s = "") then false else true
  | JArr _ | JObj _ => true
  end.

Fixpoint getOwn (k : string) (props : list (string * Json)) : Json :=
  match props with
  | [] => JUndef
  | (k', x) :: r => if decide (k' = k) then x else getOwn k r
  end.

(** [v.k] for one of the names the component reads ([id], [type],
    [title], [labels], [datasets], [label], [data]): [None] when the
    access throws, which it does on null and undefined; a value that is
    not an object has none of these properties. *)
Definition get (v : Json) (k : string) : option Json :=
  match v with
  | JUndef | JNull => None
  | JObj props => Some (getOwn k props)
  | _ => Some JUndef
  end.

(** The decimal form of an index. *)
Definition decimal (n : nat) : string := NilEmpty.string_of_uint (Nat.to_uint n).

Definition CHART_COLORS : list string :=
  ["rgba(0, 118, 211, 0.8)"; "rgba(94, 180, 50, 0.8)"; "rgba(237, 139, 0, 0.8)";
   "rgba(176, 0, 32, 0.8)"; "rgba(88, 103, 195, 0.8)"; "rgba(0, 176, 180, 0.8)"].

Definition chartTypes : list string := ["bar"; "line"; "pie"; "doughnut"; "radar"].

(** An element of [modalCharts]. *)
Record ChartDef := mkChartDef {
  id : Json;
  type : string;
  title : Json;
  labels : list Json;
  datasets : list Json
}.

(** [a || b] *)
Definition orElse (a b : Json) : Json := if truthy a then a else b.

(** [Array.isArray(v) ? v : []] *)
Definition arrayOrEmpty (v : Json) : list Json :=
  match v with
  | JArr l => l
  | _ => []
  end.

(** The callback of [chartList.map] in [loadModalChart], on the chart [c]
    at index [i]; [None] when it throws. *)
Definition toChartDef (i : nat) (c : Json) : option ChartDef :=
  match get c "id", get c "type", get c "title", get c "labels", get c "datasets" with
  | Some cid, Some ctype, Some ctitle, Some clabels, Some cdatasets =>
      match orElse ctype (JStr "bar") with
      | JStr s =>
          Some (mkChartDef
                  (orElse cid (JStr ("modal-chart-" +:+ decimal i)))
                  (toLowerCase s)
                  (orElse ctitle (JStr ("Chart " +:+ decimal (i + 1))))
                  (arrayOrEmpty clabels)
                  (arrayOrEmpty cdatasets))
      | _ => None
      end
  | _, _, _, _, _ => None
  end.

(** The colours of a dataset: one colour of the palette (undefined when
    there is none at the index), or a list of colours. *)
Inductive Colour :=
| OneColour (c : option string)
| Colours (cs : list string).

Record DatasetConfig := mkDatasetConfig {
  label : Json;
  data : list Number;
  backgroundColor : Colour;
  borderColor : option string;
  borderWidth : Z;
  fill : bool
}.

Record ChartConfig := mkChartConfig {
  configType : string;
  configLabels : list Json;
  configDatasets : list DatasetConfig;
  responsive : bool;
  maintainAspectRatio : bool;
  legendDisplay : bool;
  scales : bool
}.

Section Engine.

(** [Number(v)] is the engine's. *)
Variable ToNumber : Json → Number.

(** The callback of [datasets.map] in [buildChartConfig]. *)
Definition datasetConfig (type : string) (labels : list Json) (i : nat) (ds : Json)
  : option DatasetConfig :=
  match get ds "label", get ds "data" with
  | Some dlabel, Some ddata =>
      let barOrLine := bool_decide (type = "bar") || bool_decide (type = "line") in
      let isLine := bool_decide (type = "line") in
      Some (mkDatasetConfig
              (orElse dlabel (JStr ("Series " +:+ decimal (i + 1))))
              (match ddata with
               | JArr l => map ToNumber l
               | _ => []
               end)
              (if barOrLine
               then OneColour (CHART_COLORS !! (i mod List.length CHART_COLORS)%nat)
               else Colours (JSArray.slice CHART_COLORS 0 (Z.of_nat (List.length labels))))
              (if isLine then CHART_COLORS !! (i mod List.length CHART_COLORS)%nat
               else None)
              (if isLine then 2 else 1)
              isLine)
  | _, _ => None
  end.

(** [datasets.map(callback)]: the configurations in order, [None] when
    the callback throws on one of them. *)
Fixpoint mapDatasets (type : string) (labels : list Json) (i : nat) (l : list Json)
  : option (list DatasetConfig) :=
  match l with
  | [] => Some []
  | ds :: r =>
      match datasetConfig type labels i ds with
      | None => None
      | Some d =>
          match mapDatasets type labels (S i) r with
          | None => None
          | Some ds' => Some (d :: ds')
          end
      end
  end.

Definition buildChartConfig (chartDef : ChartDef) : option ChartConfig :=
  let type :=
    if bool_decide (type chartDef ∈ chartTypes) then type chartDef else "bar" in
  match mapDatasets type (labels chartDef) 0 (datasets chartDef) with
  | None => None
  | Some datasets =>
      Some (mkChartConfig type (labels chartDef) datasets true true
              (0 <? Z.of_nat (List.length datasets))
              (bool_decide (type = "bar") || bool_decide (type = "line")))
  end.

End Engine.

End DashboardCharts.

(** ** Example data

    The forms, records and event sequences on which the examples below are
    stated. *)

Module ModalExamples.

Import JS RecordModal.

(** An edit session of the examples: record [001] of an account whose
    name can be edited. *)
Definition sampleRecord : gmap string JSVal :=
  <["Id" := VStr "001"]> (<["Name" := VStr "Acme"]> ∅).

Definition sampleSession : Modal :=
  connectedCallback (open sampleRecord "Account" [descriptor "Name"] ∅).

Definition sampleTemplate : Template :=
  mkTemplate [mkInput (Some "Name") true ""] [].

Definition plainNumber (q : Q) : string := "0".
Definition noLegacyDates (s : string) : option Z := None.
Definition utc (t : Z) : Z := 0.

(** An edit of a text field from the first to the second day of the year
    10000. *)
Definition farFutureRecord : gmap string JSVal :=
  <["Id" := VStr "001"]> (<["Due" := VStr "+010000-01-01"]> ∅).

Definition farFutureEdit : Modal :=
  handleFieldChange "Due" (VStr "+010000-01-02")
    (connectedCallback (open farFutureRecord "Task" [descriptor "Due"] ∅)).

Definition blankCreate : Modal :=
  connectedCallback (open ∅ "Account" [descriptor "Name"] ∅).

(** A form with one required lookup, and a template with its input. *)
Definition ownerField : FieldDef :=
  mkFieldDef (Some "OwnerId") None None None (Some "Owner") (Some "text")
    true false true.

Definition ownerForm : World :=
  boot (connectedCallback (open ∅ "Account" [ownerField] ∅)).

Definition ownerTemplate : Template :=
  mkTemplate [mkInput (Some "OwnerId") true ""] [].

(** The owner lookup of the examples, the options the server finds for
    "a" and for "ab", and the events of a slow answer: the search for "a"
    is sent, the user types on, the search for "ab" is sent and answered,
    and then the answer to "a" arrives. *)
Definition optionsForA : list LookupOption :=
  [mkOption "005A" "Aaron"; mkOption "005B" "Abigail"].

Definition optionsForAb : list LookupOption := [mkOption "005B" "Abigail"].

Definition slowAnswer : list Event :=
  [Input "OwnerId" "a"; Elapse 350;
   Input "OwnerId" "ab"; Elapse 350;
   Answer 2 (SearchResolved (Some optionsForAb))].

End ModalExamples.

Module ViewerExamples.

Import JS RecordsViewer.

(** Two hundred and five rows, fifty to a page, the last page shown. *)
Definition manyRows : list Row := replicate 205 ∅.

Definition onLastPage : list Event :=
  [LoadDone (LoadResponse true (Some manyRows) (Some []) None);
   PageSizeChange "50"; LastPage].

(** A table that was loaded, and the same table after a load that fails. *)
Definition loadedTable : RecordsViewer.Viewer :=
  RecordsViewer.run (λ _, NaN) ViewerExamples.onLastPage (RecordsViewer.create "Account").

Definition afterFailedLoad : RecordsViewer.Viewer :=
  RecordsViewer.loadRecordsDone
    (RecordsViewer.LoadRejected None (Some "Read timed out"))
    (fst (RecordsViewer.loadRecords loadedTable)).

Definition row (name : JSVal) : Row := <["Name" := name]> ∅.

Definition threeRows : Viewer :=
  setTable [row (VStr "a"); row VNull; row (VStr "b")] [] (create "Account").

(** The same table on its second page. *)
Definition onSecondPage : list Event :=
  [LoadDone (LoadResponse true (Some manyRows) (Some []) None);
   PageSizeChange "50"; NextPage].

(** Names that differ by case, and one row without a name. *)
Definition mixedCase : Viewer :=
  setTable [row (VStr "b"); row (VStr "B"); row (VStr "a"); row (VStr "C"); row VNull]
    [] (create "Account").

(** A column that holds numbers and a text that is not a number. *)
Definition mixedColumn : list Row :=
  [row (VNum 3); row (VNum 1); row (VStr "x"); row (VNum 2)].

End ViewerExamples.

Module FormExamples.

Import JS RecordModal ModalView ModalExamples.

(** A contact form with a name, an email and a phone, where the email
    typed is not an address. *)
Definition emailField : FieldDef :=
  mkFieldDef (Some "Email") None None None (Some "Work email") (Some "Email")
    false false false.

Definition phoneField : FieldDef :=
  mkFieldDef (Some "Phone") None None None None (Some "phone") false false false.

Definition contactForm : Modal :=
  handleFieldChange "Email" (VStr "not-an-email")
    (handleFieldChange "Name" (VStr "Ann")
       (connectedCallback
          (open ∅ "Contact" [descriptor "Name"; emailField; phoneField] ∅))).

Definition contactTemplate : Template :=
  mkTemplate [mkInput (Some "Name") true ""; mkInput (Some "Email") true "";
              mkInput (Some "Phone") true ""] [].

(** A create form with a name typed in. *)
Definition namedCreate : Modal := handleFieldChange "Name" (VStr "Acme") blankCreate.

(** The owner lookup with its options, and a record with an owner. *)
Definition ownerEdit : EditField := mkEditField ownerField None.

Definition ownedRecord : gmap string JSVal :=
  <["Id" := VStr "001"]> (<["OwnerId" := VStr "005A"]> ∅).

Definition ownerLabels : gmap string string := <["OwnerId" := "Aaron"]> ∅.

Definition nameEdit : EditField := mkEditField (descriptor "Name") None.

End FormExamples.

Module ChartExamples.

Import JS DashboardCharts.

(** A pie chart of three labels as the server sends it, the type in
    capitals. *)
Definition rawPie : Json :=
  JObj [("id", JStr "c1"); ("type", JStr "PIE");
        ("labels", JArr [JStr "New"; JStr "Open"; JStr "Won"]);
        ("datasets", JArr [JObj [("data", JArr [JNum 3; JNum 5; JNum 8])]])].

Definition pieDef : ChartDef :=
  mkChartDef (JStr "c1") "pie" (JStr "Chart 1")
    [JStr "New"; JStr "Open"; JStr "Won"]
    [JObj [("data", JArr [JNum 3; JNum 5; JNum 8])]].

Definition numberOf (v : Json) : Number :=
  match v with
  | JNum q => Finite q
  | _ => NaN
  end.

Definition pieDataset : DatasetConfig :=
  mkDatasetConfig (JStr "Series 1") [Finite 3; Finite 5; Finite 8]
    (Colours ["rgba(0, 118, 211, 0.8)"; "rgba(94, 180, 50, 0.8)";
              "rgba(237, 139, 0, 0.8)"])
    None 1 false.

Definition pieConfig : ChartConfig :=
  mkChartConfig "pie" [JStr "New"; JStr "Open"; JStr "Won"] [pieDataset]
    true true true false.

End ChartExamples.

(** ** Facts about the string primitives *)

Module JSFacts.

Import JS.

Lemma chars_str l : chars (str l) = l.
Proof. apply String.list_ascii_of_string_of_list_ascii. Qed.

Lemma str_chars s : str (chars s) = s.
Proof. apply String.string_of_list_ascii_of_string. Qed.

Lemma str_inj l1 l2 : str l1 = str l2 → l1 = l2.
Proof. intros H. rewrite <- (chars_str l1), <- (chars_str l2). by rewrite H. Qed.

Lemma chars_inj s1 s2 : chars s1 = chars s2 → s1 = s2.
Proof. intros H. rewrite <- (str_chars s1), <- (str_chars s2). by rewrite H. Qed.

Lemma includes_spec s c : includes s c = true ↔ c ∈ chars s.
Proof.
  unfold includes. rewrite existsb_exists. split.
  - intros (x & Hin & Hx). apply Ascii.eqb_eq in Hx. subst x.
    by apply list_elem_of_In.
  - intros Hin. exists c. split; [by apply list_elem_of_In|apply Ascii.eqb_refl].
Qed.

Lemma lastIndexOfL_absent c l i found :
  c ∉ l → lastIndexOfL c l i found = found.
Proof.
  revert i found. induction l as [|x r IH]; intros i found Hc; simpl; [done|].
  apply not_elem_of_cons in Hc as [Hne Hr].
  rewrite IH by done.
  destruct (Ascii.eqb x c) eqn:E; [|done].
  apply Ascii.eqb_eq in E. congruence.
Qed.

Lemma lastIndexOfL_split c p t i found :
  c ∉ t →
  lastIndexOfL c (p ++ c :: t) i found = i + Z.of_nat (List.length p).
Proof.
  revert i found. induction p as [|x p IH]; intros i found Hc; simpl.
  - rewrite Ascii.eqb_refl. rewrite lastIndexOfL_absent by done. lia.
  - rewrite IH by done. lia.
Qed.

Lemma last_split_unique (c : ascii) p t p' t' :
  p ++ c :: t = p' ++ c :: t' → c ∉ t → c ∉ t' → p = p' ∧ t = t'.
Proof.
  intros Heq Ht Ht'. revert p' Heq.
  induction p as [|x p IHp]; intros p' Heq; destruct p' as [|x' p'];
    simpl in Heq.
  - by inversion Heq.
  - inversion Heq; subst. exfalso. apply Ht.
    apply elem_of_app. right. apply elem_of_cons. by left.
  - inversion Heq; subst. exfalso. apply Ht'.
    apply elem_of_app. right. apply elem_of_cons. by left.
  - inversion Heq as [[Hx Hp]]; subst x'.
    pose proof (IHp p' Hp) as [E1 E2]. by subst.
Qed.

Lemma length_str l : JS.length (str l) = Z.of_nat (List.length l).
Proof. unfold JS.length. by rewrite chars_str. Qed.

Lemma sliceFrom_split s p c t :
  chars s = p ++ c :: t →
  sliceFrom s (Z.of_nat (List.length p) + 1) = str t.
Proof.
  intros Hs. unfold sliceFrom, slice, relIndex, JS.length. rewrite Hs.
  rewrite length_app. simpl List.length.
  destruct (Z.ltb_spec (Z.of_nat (List.length p) + 1) 0) as [?|_]; [lia|].
  destruct (Z.ltb_spec (Z.of_nat (List.length p + S (List.length t))) 0) as [?|_]; [lia|].
  rewrite !Z.min_l by lia.
  replace (Z.to_nat (Z.of_nat (List.length p) + 1)) with (List.length p + 1)%nat by lia.
  rewrite <- drop_drop, drop_app_length. simpl drop.
  f_equal. apply take_ge. lia.
Qed.

Lemma slice_strip2 s b i d :
  chars s = b ++ [i; d] → slice s 0 (-2) = str b.
Proof.
  intros Hs. unfold slice, JS.length. rewrite Hs.
  rewrite length_app. simpl List.length.
  assert (relIndex (Z.of_nat (List.length b + 2)) 0 = 0) as ->.
  { unfold relIndex. simpl. lia. }
  assert (relIndex (Z.of_nat (List.length b + 2)) (-2)
          = Z.of_nat (List.length b)) as ->.
  { unfold relIndex. simpl. lia. }
  change (Z.to_nat 0) with 0%nat. rewrite drop_0. f_equal.
  replace (Z.to_nat (Z.of_nat (List.length b) - 0)) with (List.length b) by lia.
  by rewrite take_app_length.
Qed.

Lemma isSuffixL_spec k l n :
  (n ≤ List.length l)%nat → isSuffixL k l n = true ↔ drop n l = k.
Proof.
  revert l. induction n as [|n IH]; intros l Hn.
  - cbn [isSuffixL]. rewrite drop_0.
    destruct (decide (k = l)) as [->|Hne]; split; intros H;
      first [done | by subst].
  - destruct l as [|x r]; simpl in *; [lia|]. apply IH. lia.
Qed.

Lemma endsWith_spec s suf :
  endsWith s suf = true ↔ ∃ b, chars s = b ++ chars suf.
Proof.
  unfold endsWith.
  destruct (Nat.leb_spec (List.length (chars suf)) (List.length (chars s))) as [Hle|Hlt].
  - rewrite isSuffixL_spec by lia. split.
    + remember (List.length (chars s) - List.length (chars suf))%nat as n.
      intros Hd. exists (take n (chars s)).
      rewrite <- Hd. by rewrite take_drop.
    + intros [b Hb]. rewrite Hb. rewrite length_app.
      replace (List.length b + List.length (chars suf) - List.length (chars suf))%nat
        with (List.length b) by lia.
      by rewrite drop_app_length.
  - split; [done|]. intros [b Hb]. rewrite Hb, length_app in Hlt. lia.
Qed.

Lemma chars_toLowerCase s : chars (toLowerCase s) = map lowerChar (chars s).
Proof. unfold toLowerCase. by rewrite chars_str. Qed.

Lemma endsWith_lower_id s :
  endsWith (toLowerCase s) "id" = true ↔
  ∃ b i d, chars s = b ++ [i; d] ∧ lowerChar i = lower_i ∧ lowerChar d = lower_d.
Proof.
  rewrite endsWith_spec, chars_toLowerCase. split.
  - intros [b Hb]. change (chars "id") with [lower_i; lower_d] in Hb.
    apply fmap_app_inv in Hb as (b0 & t & -> & Ht & Hs).
    destruct t as [|i [|d [|? ?]]]; simplify_eq/=.
    exists b0, i, d. done.
  - intros (b & i & d & Hs & Hi & Hd). exists (map lowerChar b).
    rewrite Hs, map_app. simpl. by rewrite Hi, Hd.
Qed.

Lemma trimStartL_noLead l : noLeadWs (trimStartL l).
Proof.
  induction l as [|c r IH]; simpl; [done|].
  destruct (isWhiteSpace c) eqn:E; [done|]. simpl. done.
Qed.

Lemma trimStartL_id l : noLeadWs l → trimStartL l = l.
Proof. destruct l as [|c r]; simpl; [done|]. by intros ->. Qed.

Lemma trimStartL_suffix l :
  ∃ ws, l = ws ++ trimStartL l ∧ Forall (λ c, isWhiteSpace c = true) ws.
Proof.
  induction l as [|c r (ws & Hr & Hws)]; simpl.
  - by exists [].
  - destruct (isWhiteSpace c) eqn:E.
    + exists (c :: ws). split; [simpl; by f_equal|by constructor].
    + by exists [].
Qed.

Lemma noLeadWs_app l k : l ≠ [] → noLeadWs (l ++ k) → noLeadWs l.
Proof. by destruct l. Qed.

Lemma trimL_trimmed l : noLeadWs (trimL l) ∧ noLeadWs (rev (trimL l)).
Proof.
  unfold trimL, trimEndL. rewrite rev_involutive.
  split; [|apply trimStartL_noLead].
  destruct (trimStartL_suffix (rev (trimStartL l))) as (ws & Hr & _).
  set (r := trimStartL (rev (trimStartL l))) in *.
  destruct (decide (rev r = [])) as [->|Hne]; [done|].
  apply (noLeadWs_app _ (rev ws)); [done|].
  rewrite <- rev_app_distr, <- Hr, rev_involutive. apply trimStartL_noLead.
Qed.

Lemma trimL_id l : noLeadWs l → noLeadWs (rev l) → trimL l = l.
Proof.
  intros H1 H2. unfold trimL, trimEndL.
  rewrite (trimStartL_id l) by done. rewrite trimStartL_id by done.
  apply rev_involutive.
Qed.

Lemma trim_idemp s : trim (trim s) = trim s.
Proof.
  unfold trim. rewrite chars_str. f_equal.
  destruct (trimL_trimmed (chars s)). by apply trimL_id.
Qed.

End JSFacts.

(** ** The derivative matcher decides the language of a pattern *)

Module RegexFacts.

Import Regex.

Lemma nullable_spec r : nullable r = true ↔ Matches r [].
Proof.
  induction r as [| |p|a IHa b IHb|a IHa b IHb|a IHa]; simpl.
  - split; [done|]. inversion 1.
  - split; [constructor|done].
  - split; [done|]. inversion 1.
  - rewrite andb_true_iff, IHa, IHb. split.
    + intros [Ha Hb]. by apply (M_cat a b [] []).
    + intros H. inversion H as [| |a' b' u v Hu Hv Ha' Heq| | | |]; subst.
      apply app_eq_nil in Heq as [-> ->]. done.
  - rewrite orb_true_iff, IHa, IHb. split.
    + intros [H|H]; [by apply M_alt_l|by apply M_alt_r].
    + inversion 1; subst; auto.
  - split; [constructor|done].
Qed.

Lemma star_cons_inv a c w :
  Matches (Star a) (c :: w) →
  ∃ u v, w = u ++ v ∧ Matches a (c :: u) ∧ Matches (Star a) v.
Proof.
  intros H. remember (Star a) as r eqn:Hr. remember (c :: w) as l eqn:Hl.
  revert w Hl. induction H as [| | | | | |a' u v Hu _ Hv IHv];
    intros w Hl; try discriminate.
  injection Hr as ->. destruct u as [|x u]; simpl in Hl.
  - by apply IHv.
  - injection Hl as Hx Hw. subst x w. by exists u, v.
Qed.

Lemma deriv_spec c r w : Matches (deriv c r) w ↔ Matches r (c :: w).
Proof.
  revert w. induction r as [| |p|a IHa b IHb|a IHa b IHb|a IHa]; intros w; simpl.
  - split; inversion 1.
  - split; inversion 1.
  - destruct (p c) eqn:E; split; inversion 1; subst.
    + by constructor.
    + constructor.
    + congruence.
  - assert (Hcat : Matches (Cat (deriv c a) b) w →
                   Matches (Cat a b) (c :: w)).
    { inversion 1 as [| |a' b' u v Hu Hv| | | |]; subst.
      apply IHa in Hu. by apply (M_cat a b (c :: u) v). }
    assert (Hinv : Matches (Cat a b) (c :: w) →
                   Matches (Cat (deriv c a) b) w ∨
                   (Matches a [] ∧ Matches (deriv c b) w)).
    { intros H. inversion H as [| |a' b' u v Hu Hv Ha' Heq| | | |]; subst.
      destruct u as [|x u]; simpl in Heq; subst.
      - right. split; [done|]. by apply IHb.
      - injection Heq as Hx Hw. subst x w. left.
        constructor; [by apply IHa|done]. }
    destruct (nullable a) eqn:Hn.
    + split.
      * inversion 1; subst; [by apply Hcat|].
        apply (M_cat a b [] (c :: w)); [by apply nullable_spec|by apply IHb].
      * intros H. destruct (Hinv H) as [?|[_ ?]];
          [by apply M_alt_l|by apply M_alt_r].
    + split; [apply Hcat|].
      intros H. destruct (Hinv H) as [?|[Ha _]]; [done|].
      apply nullable_spec in Ha. congruence.
  - split.
    + inversion 1; subst; [apply M_alt_l|apply M_alt_r]; by apply IHa || by apply IHb.
    + inversion 1; subst; [apply M_alt_l|apply M_alt_r]; by apply IHa || by apply IHb.
  - split.
    + inversion 1 as [| |a' b' u v Hu Hv| | | |]; subst.
      apply IHa in Hu. by apply (M_star_more a (c :: u) v).
    + intros H. apply star_cons_inv in H as (u & v & -> & Hu & Hv).
      constructor; [by apply IHa|done].
Qed.

Lemma testL_spec r l : testL r l = true ↔ Matches r l.
Proof.
  revert r. induction l as [|c w IH]; intros r; simpl.
  - apply nullable_spec.
  - rewrite IH. apply deriv_spec.
Qed.

End RegexFacts.

(** ** The stable sort *)

Module SortFacts.

Import JS.

Section Generic.

Context {A : Type} (compare : A → A → Z).

Lemma sortInsert_perm x l : sortInsert compare x l ≡ₚ x :: l.
Proof.
  induction l as [|y r IH]; simpl; [done|].
  destruct (compare x y <=? 0); [done|].
  rewrite IH. apply Permutation_swap.
Qed.

Lemma sort_perm l : sort compare l ≡ₚ l.
Proof.
  induction l as [|x r IH]; simpl; [done|].
  rewrite sortInsert_perm. by constructor.
Qed.

Lemma Before_cons (x y z : A) (l : list A) :
  Before x y l → Before x y (z :: l).
Proof. intros (l1 & l2 & l3 & ->). by exists (z :: l1), l2, l3. Qed.

Lemma Before_head (x y : A) (l : list A) : y ∈ l → Before x y (x :: l).
Proof.
  intros H. apply list_elem_of_split in H as (l2 & l3 & ->).
  by exists [], l2, l3.
Qed.

Lemma sortInsert_keeps x y z l :
  Before x y l → Before x y (sortInsert compare z l).
Proof.
  intros H. induction l as [|w r IH] in H |- *; simpl.
  - destruct H as (l1 & l2 & l3 & H). by destruct l1.
  - destruct (compare z w <=? 0); [by apply Before_cons|].
    destruct H as (l1 & l2 & l3 & H). destruct l1 as [|w' l1]; simplify_eq/=.
    + apply Before_head. rewrite sortInsert_perm.
      apply elem_of_cons. right. apply elem_of_app. right. by left.
    + apply Before_cons, IH. by exists l1, l2, l3.
Qed.

(** An inserted element lands before every element it does not have to
    follow. *)
Lemma sortInsert_before x y l :
  y ∈ l → compare x y <= 0 → Before x y (sortInsert compare x l).
Proof.
  intros Hy Hc. induction l as [|w r IH]; simpl; [by apply elem_of_nil in Hy|].
  destruct (Z.leb_spec (compare x w) 0) as [_|Hgt].
  - by apply Before_head.
  - apply elem_of_cons in Hy as [->|Hy]; [lia|].
    by apply Before_cons, IH.
Qed.

(** Stability: an element that stood before another which it does not
    have to follow still stands before it. *)
Lemma sort_keeps_order x y l :
  Before x y l → compare x y <= 0 → Before x y (sort compare l).
Proof.
  intros H Hc. induction l as [|z r IH] in H |- *.
  - destruct H as (l1 & l2 & l3 & H). by destruct l1.
  - simpl. destruct H as (l1 & l2 & l3 & H). destruct l1 as [|z' l1]; simplify_eq/=.
    + apply sortInsert_before; [|done]. rewrite sort_perm.
      apply elem_of_app. right. by left.
    + apply sortInsert_keeps, IH. by exists l1, l2, l3.
Qed.

Lemma sortInsert_partitioned (last : A → bool) x l :
  (∀ a b, last a = true → last b = false → 0 < compare a b) →
  (∀ a b, last a = false → last b = true → compare a b <= 0) →
  Partitioned last l → Partitioned last (sortInsert compare x l).
Proof.
  intros Hgt Hle (l1 & l2 & -> & H1 & H2).
  induction H1 as [|w l1 Hw H1 IH]; simpl.
  - destruct (last x) eqn:Hx.
    + exists [], (sortInsert compare x l2). split; [done|]. split; [done|].
      apply Forall_forall. intros a Ha.
      rewrite sortInsert_perm in Ha. apply elem_of_cons in Ha as [->|Ha]; [done|].
      by eapply Forall_forall in H2.
    + destruct l2 as [|w r]; simpl.
      * exists [x], []. by repeat constructor.
      * apply Forall_cons in H2 as [Hw H2].
        rewrite (proj2 (Z.leb_le _ _) (Hle x w Hx Hw)).
        exists [x], (w :: r). split; [done|]. split; by repeat constructor.
  - destruct (Z.leb_spec (compare x w) 0) as [Hxw|Hxw].
    + destruct (last x) eqn:Hx.
      * specialize (Hgt x w Hx Hw). lia.
      * exists (x :: w :: l1), l2. split; [done|]. split; [|done].
        by repeat constructor.
    + destruct IH as (k1 & k2 & Hk & Hk1 & Hk2).
      exists (w :: k1), k2. split; [simpl; by rewrite Hk|].
      split; [by constructor|done].
Qed.

Lemma sort_partitioned (last : A → bool) l :
  (∀ a b, last a = true → last b = false → 0 < compare a b) →
  (∀ a b, last a = false → last b = true → compare a b <= 0) →
  Partitioned last (sort compare l).
Proof.
  intros Hgt Hle. induction l as [|x r IH]; simpl.
  - exists [], []. by repeat constructor.
  - by apply sortInsert_partitioned.
Qed.

End Generic.

(** Sorting does not look at what the comparison does not look at: rows
    tagged with their position sort as the rows do. *)
Lemma sort_map {A B} (g : B → A) (compare : A → A → Z) (l : list B) :
  sort compare (map g l) = map g (sort (λ x y, compare (g x) (g y)) l).
Proof.
  induction l as [|x r IH]; simpl; [done|]. rewrite IH.
  generalize (sort (λ x y, compare (g x) (g y)) r). intros s.
  induction s as [|y s IHs]; simpl; [done|].
  destruct (compare (g x) (g y) <=? 0); simpl; [done|]. by rewrite IHs.
Qed.

(** *** Consistent comparison functions *)

Section Consistent.

Context {A : Type} (compare : A → A → Z) (l0 : list A).

Hypothesis Hcons : consistent compare l0 = true.

Lemma consistent_sign a b :
  a ∈ l0 → b ∈ l0 → Z.sgn (compare b a) = - Z.sgn (compare a b).
Proof.
  intros Ha Hb. unfold consistent in Hcons.
  rewrite forallb_forall in Hcons.
  specialize (Hcons a (proj1 (list_elem_of_In _ _) Ha)).
  rewrite forallb_forall in Hcons.
  specialize (Hcons b (proj1 (list_elem_of_In _ _) Hb)).
  apply andb_true_iff in Hcons as [H _]. by apply Z.eqb_eq in H.
Qed.

Lemma consistent_trans a b c :
  a ∈ l0 → b ∈ l0 → c ∈ l0 →
  compare a b <= 0 → compare b c <= 0 → compare a c <= 0.
Proof.
  intros Ha Hb Hc Hab Hbc. unfold consistent in Hcons.
  rewrite forallb_forall in Hcons.
  specialize (Hcons a (proj1 (list_elem_of_In _ _) Ha)).
  rewrite forallb_forall in Hcons.
  specialize (Hcons b (proj1 (list_elem_of_In _ _) Hb)).
  apply andb_true_iff in Hcons as [_ H].
  rewrite forallb_forall in H.
  specialize (H c (proj1 (list_elem_of_In _ _) Hc)).
  apply Z.leb_le in Hab, Hbc. rewrite Hab, Hbc in H. simpl in H.
  by apply Z.leb_le.
Qed.

Local Abbreviation byRow := (λ p q : nat * A, compare (snd p) (snd q)).

Lemma sortInsert_sorted (x : nat * A) (l : list (nat * A)) :
  snd x ∈ l0 → Forall (λ p, snd p ∈ l0) l → Forall (λ p, (fst x < fst p)%nat) l →
  StronglySorted (earlier compare) l →
  StronglySorted (earlier compare) (sortInsert byRow x l).
Proof.
  intros Hx Hdom Htag Hs.
  induction Hs as [|y r Hr IH Hy]; simpl.
  - by repeat constructor.
  - apply Forall_cons in Hdom as [Hyd Hdom]. apply Forall_cons in Htag as [Hyt Htag].
    destruct (Z.leb_spec (compare (snd x) (snd y)) 0) as [Hle|Hgt].
    + constructor; [by constructor|]. constructor.
      * unfold earlier. lia.
      * rewrite Forall_forall in Hy, Hdom, Htag. apply Forall_forall. intros z Hz.
        assert (compare (snd y) (snd z) <= 0)
          by (destruct (Hy z Hz) as [?|[? _]]; lia).
        assert (compare (snd x) (snd z) <= 0)
          by (apply (consistent_trans _ (snd y)); auto).
        specialize (Htag z Hz). unfold earlier. lia.
    + constructor; [by apply IH|].
      rewrite sortInsert_perm. constructor; [|done].
      left. pose proof (consistent_sign (snd x) (snd y) Hx Hyd) as Hsgn.
      rewrite (Z.sgn_pos _ Hgt) in Hsgn. by apply Z.sgn_neg_iff.
Qed.

Lemma tagFrom_bounds n (l : list A) p :
  p ∈ tagFrom n l → (n <= fst p)%nat ∧ snd p ∈ l.
Proof.
  revert n. induction l as [|x r IH]; intros n Hp; simpl in *.
  - by apply elem_of_nil in Hp.
  - apply elem_of_cons in Hp as [->|Hp]; simpl.
    + split; [lia|by left].
    + destruct (IH _ Hp). split; [lia|by right].
Qed.

(** The rows tagged with their positions come out in the one order a
    stable sort can give. *)
Lemma sort_tagged_sorted n (l : list A) :
  l ⊆ l0 → StronglySorted (earlier compare) (sort byRow (tagFrom n l)).
Proof.
  revert n. induction l as [|x r IH]; intros n Hsub; simpl; [constructor|].
  apply sortInsert_sorted; simpl.
  - apply Hsub. by left.
  - apply Forall_forall. intros p Hp. rewrite sort_perm in Hp.
    apply tagFrom_bounds in Hp as [_ Hp]. apply Hsub. by right.
  - apply Forall_forall. intros p Hp. rewrite sort_perm in Hp.
    apply tagFrom_bounds in Hp as [Hp _]. lia.
  - apply IH. intros y Hy. apply Hsub. by right.
Qed.

Lemma earlier_asym (p q : nat * A) :
  snd p ∈ l0 → snd q ∈ l0 → earlier compare p q → earlier compare q p → False.
Proof.
  intros Hp Hq H1 H2. pose proof (consistent_sign (snd p) (snd q) Hp Hq) as Hsgn.
  unfold earlier in *.
  destruct (Z.sgn_spec (compare (snd p) (snd q))) as [[? E1]|[[? E1]|[? E1]]],
           (Z.sgn_spec (compare (snd q) (snd p))) as [[? E2]|[[? E2]|[? E2]]];
    lia.
Qed.

(** A stable, ordered arrangement of the rows is the one [sort] gives. *)
Lemma sort_tagged_unique (l : list A) (l' : list (nat * A)) :
  l ⊆ l0 → l' ≡ₚ tagFrom 0 l → StronglySorted (earlier compare) l' →
  l' = sort byRow (tagFrom 0 l).
Proof.
  intros Hsub Hperm Hs.
  apply (StronglySorted_unique_strong (earlier compare)); [|done| |].
  - intros p q Hp Hq H1 H2. exfalso.
    rewrite Hperm in Hp. rewrite sort_perm in Hq.
    apply tagFrom_bounds in Hp as [_ Hp]. apply tagFrom_bounds in Hq as [_ Hq].
    apply (earlier_asym p q); auto.
  - by apply sort_tagged_sorted.
  - by rewrite sort_perm.
Qed.

End Consistent.

Lemma StronglySorted_lookup {A} (R : relation A) (l : list A) i j x y :
  StronglySorted R l → (i < j)%nat → l !! i = Some x → l !! j = Some y → R x y.
Proof.
  intros Hs. revert i j. induction Hs as [|z r Hr IH Hz]; intros i j Hij Hi Hj; [done|].
  destruct j as [|j]; [lia|]. destruct i as [|i]; simpl in *.
  - injection Hi as ->. rewrite Forall_forall in Hz. apply Hz.
    by eapply list_elem_of_lookup_2.
  - apply (IH i j); [lia|done..].
Qed.

(** With a consistent comparison no element comes out before one it has
    to follow. *)
Lemma sort_ordered {A} (compare : A → A → Z) (l : list A) i j a b :
  consistent compare l = true → (i < j)%nat →
  sort compare l !! i = Some a → sort compare l !! j = Some b →
  compare a b <= 0.
Proof.
  intros Hcons Hij Hi Hj.
  pose proof (sort_tagged_sorted compare l Hcons 0 l (λ _ H, H)) as Hs.
  pose proof (sort_map snd compare (tagFrom 0 l)) as Hmap.
  assert (Hsnd : ∀ n (k : list A), map snd (tagFrom n k) = k).
  { intros n k. revert n. induction k as [|x r IH]; intros n; simpl; [done|].
    by rewrite IH. }
  rewrite Hsnd in Hmap. clear Hsnd.
  revert Hi Hj. rewrite Hmap.
  change (map snd ?l) with (snd <$> l). rewrite !list_lookup_fmap.
  intros Hi Hj.
  destruct (sort _ (tagFrom 0 l) !! i) as [p|] eqn:Ep; [|done].
  destruct (sort _ (tagFrom 0 l) !! j) as [q|] eqn:Eq; [|done].
  simpl in *. injection Hi as <-. injection Hj as <-.
  destruct (StronglySorted_lookup _ _ i j p q Hs Hij Ep Eq) as [?|[? _]]; lia.
Qed.

End SortFacts.

(** ** The calendar arithmetic on known dates *)

Module DateFacts.

Import JS Date.

(** Day numbers and dates agree both ways on every day from 1888 to 2052,
    with months and days of the month in range. *)
Definition agreesOn (z : Z) : bool :=
  let '(y, m, d) := civilFromDays z in
  (daysFromCivil y m d =? z) &&
  (1 <=? m) && (m <=? 12) && (1 <=? d) && (d <=? 31).

Definition agreeFrom (start : Z) (count : positive) : bool :=
  snd (Pos.iter (λ '(z, ok), (z + 1, ok && agreesOn z)) (start, true) count).

Lemma calendar_round_trip : agreeFrom (-30000) 60000 = true.
Proof. by vm_compute. Qed.

Lemma calendar_known_days :
  civilFromDays 0 = (1970, 1, 1) ∧
  civilFromDays (-1) = (1969, 12, 31) ∧
  daysFromCivil 2000 2 29 = 11016 ∧
  civilFromDays 11017 = (2000, 3, 1) ∧
  civilFromDays (daysFromCivil 1900 2 28 + 1) = (1900, 3, 1) ∧
  daysFromCivil 2024 1 5 * msPerDay = 1704412800000 ∧
  civilFromDays (Day 253402300800000) = (10000, 1, 1).
Proof. by vm_compute. Qed.

Lemma toISOString_known :
  toISOString 0 = "1970-01-01T00:00:00.000Z" ∧
  toISOString 1704412800000 = "2024-01-05T00:00:00.000Z" ∧
  toISOString 1709210096789 = "2024-02-29T12:34:56.789Z" ∧
  toISOString (-1) = "1969-12-31T23:59:59.999Z" ∧
  toISOString 253402300799999 = "9999-12-31T23:59:59.999Z" ∧
  toISOString 253402300800000 = "+010000-01-01T00:00:00.000Z" ∧
  toISOString (-62167219200001) = "-000001-12-31T23:59:59.999Z" ∧
  toISOString 8640000000000000 = "+275760-09-13T00:00:00.000Z".
Proof. by vm_compute. Qed.

(** [Date.parse] on the standard format, for any engine: date-only forms
    are UTC, an offset is honoured, elements out of bounds give NaN; a
    time without offset is local time, and any other text is the
    engine's. *)
Lemma parse_known (legacy : string → option Z) (LocalTZA : Z → Z) :
  parse legacy LocalTZA "2024-01-05" = Some 1704412800000 ∧
  parse legacy LocalTZA "2024-01-05T00:00:00.000Z" = Some 1704412800000 ∧
  parse legacy LocalTZA "2024-01-05T02:30+02:30" = Some 1704412800000 ∧
  parse legacy LocalTZA "2024" = Some 1704067200000 ∧
  parse legacy LocalTZA "2024-02" = Some 1706745600000 ∧
  parse legacy LocalTZA "2024-13-01" = None ∧
  parse legacy LocalTZA "-000000-01-01" = None ∧
  parse legacy LocalTZA "+275760-09-14" = None ∧
  parse legacy LocalTZA "2024-01-05T00:00:00"
    = TimeClip (1704412800000 - LocalTZA 1704412800000) ∧
  parse legacy LocalTZA "Jan 5, 2024"
    = match legacy "Jan 5, 2024" with Some t => TimeClip t | None => None end.
Proof. repeat split; vm_compute; reflexivity. Qed.

End DateFacts.

(** ** Lookup-target resolution: the code meets the rule *)

Module LookupResolver.

Import JS JSFacts RecordModal.

Lemma lastSegment_total name : ∃ seg, lastSegment name seg.
Proof.
  destruct (decide (dot ∈ chars name)) as [Hin|Hout].
  - apply list_elem_of_split_r in Hin as (p & t & Hs & Ht).
    exists (str t). right. exists p. by rewrite chars_str.
  - exists name. by left.
Qed.

Lemma lastSegment_unique name seg seg' :
  lastSegment name seg → lastSegment name seg' → seg = seg'.
Proof.
  intros [[Hn ->]|(p & Hs & Hd)] [[Hn' ->]|(p' & Hs' & Hd')].
  - done.
  - exfalso. apply Hn. rewrite Hs'. apply elem_of_app. right.
    apply elem_of_cons. by left.
  - exfalso. apply Hn'. rewrite Hs. apply elem_of_app. right.
    apply elem_of_cons. by left.
  - rewrite Hs in Hs'.
    destruct (last_split_unique _ _ _ _ _ Hs' Hd Hd') as [_ E].
    by apply chars_inj.
Qed.

Lemma codeSegment_lastSegment name : lastSegment name (codeSegment name).
Proof.
  unfold codeSegment. destruct (includes name dot) eqn:E.
  - apply includes_spec in E.
    apply list_elem_of_split_r in E as (p & t & Hs & Ht).
    unfold lastIndexOf. rewrite Hs, lastIndexOfL_split by done.
    rewrite Z.add_0_l, (sliceFrom_split _ _ _ _ Hs).
    right. exists p. by rewrite chars_str.
  - left. split; [|done]. intros Hin. apply includes_spec in Hin. congruence.
Qed.

Lemma endsWithId_unique name base base' :
  endsWithId name base → endsWithId name base' → base = base'.
Proof.
  intros (i & d & Hs & _) (i' & d' & Hs' & _). rewrite Hs in Hs'.
  apply chars_inj.
  change [i; d] with ([i] ++ [d]) in Hs'. change [i'; d'] with ([i'] ++ [d']) in Hs'.
  rewrite !app_assoc in Hs'.
  apply app_inj_tail in Hs' as [Hs' _]. by apply app_inj_tail in Hs' as [Hs' _].
Qed.

Lemma endsWithId_length name base :
  endsWithId name base → (JS.length name >? 2) = true ↔ base ≠ "".
Proof.
  intros (i & d & Hs & _). unfold JS.length. rewrite Hs, length_app. simpl.
  split.
  - intros H ->. simpl in H. done.
  - intros Hb. destruct base as [|c b]; [done|].
    change (chars (String c b)) with (c :: chars b). simpl List.length.
    apply Z.gtb_lt. lia.
Qed.

Lemma getLookupObjectForField_unfold fd :
  getLookupObjectForField (Some fd) =
  match configuredTarget fd with
  | Some t =>
      if decide (trim t = "") then
        let name := trim (codeSegment (trim (fieldKey fd))) in
        if (JS.length name >? 2) && endsWith (toLowerCase name) "id" then
          let base := slice name 0 (-2) in
          if decide (toLowerCase base = "owner") then "User" else base
        else ""
      else trim t
  | None =>
      let name := trim (codeSegment (trim (fieldKey fd))) in
      if (JS.length name >? 2) && endsWith (toLowerCase name) "id" then
        let base := slice name 0 (-2) in
        if decide (toLowerCase base = "owner") then "User" else base
      else ""
  end.
Proof.
  assert (Hname :
    (if includes (trim (fieldKey fd)) dot
     then trim (sliceFrom (trim (fieldKey fd))
                  (lastIndexOf (trim (fieldKey fd)) dot + 1))
     else trim (fieldKey fd)) = trim (codeSegment (trim (fieldKey fd)))).
  { unfold codeSegment. destruct (includes _ dot); [done|].
    by rewrite trim_idemp. }
  unfold getLookupObjectForField, configuredTarget. cbv zeta. rewrite Hname.
  destruct (lookupObjectApiName fd) as [t|]; [done|].
  destruct (LookupObjectApiName fd) as [t|]; done.
Qed.

Lemma derived_target fd :
  (∀ t, configuredTarget fd = Some t → trim t = "") →
  LookupTarget fd
    (let name := trim (codeSegment (trim (fieldKey fd))) in
     if (JS.length name >? 2) && endsWith (toLowerCase name) "id" then
       let base := slice name 0 (-2) in
       if decide (toLowerCase base = "owner") then "User" else base
     else "").
Proof.
  intros Hcfg. cbv zeta.
  pose proof (codeSegment_lastSegment (trim (fieldKey fd))) as Hseg.
  set (seg := codeSegment (trim (fieldKey fd))) in *.
  destruct (endsWith (toLowerCase (trim seg)) "id") eqn:Hends.
  - apply endsWith_lower_id in Hends as (b & i & d & Hs & Hi & Hd).
    assert (Hbase : endsWithId (trim seg) (str b)).
    { exists i, d. by rewrite chars_str. }
    rewrite (slice_strip2 _ _ _ _ Hs).
    destruct (JS.length (trim seg) >? 2) eqn:Hlen; simpl.
    + apply (endsWithId_length _ _ Hbase) in Hlen.
      case_decide.
      * by eapply LT_owner.
      * by eapply LT_strip.
    + eapply LT_none; [done..|].
      intros base Hb. destruct (decide (base = "")) as [|Hne]; [done|].
      apply (endsWithId_length _ _ Hb) in Hne. congruence.
  - rewrite andb_false_r. eapply LT_none; [done..|].
    intros base (i & d & Hs & Hi & Hd).
    assert (endsWith (toLowerCase (trim seg)) "id" = true); [|congruence].
    apply endsWith_lower_id. by exists (chars base), i, d.
Qed.

Lemma getLookupObjectForField_sound fd :
  LookupTarget fd (getLookupObjectForField (Some fd)).
Proof.
  rewrite getLookupObjectForField_unfold.
  destruct (configuredTarget fd) as [t|] eqn:Hc.
  - case_decide as Ht.
    + apply derived_target. intros t' Ht'. congruence.
    + by apply LT_configured.
  - apply derived_target. intros t' Ht'. congruence.
Qed.

Lemma LookupTarget_functional fd r r' :
  LookupTarget fd r → LookupTarget fd r' → r = r'.
Proof.
  intros H H'.
  destruct H as [t Hc Ht|seg base Hc Hseg Hb Hne Ho|seg base Hc Hseg Hb Hne Ho
                 |seg Hc Hseg Hb];
  destruct H' as [t' Hc' Ht'|seg' base' Hc' Hseg' Hb' Hne' Ho'
                  |seg' base' Hc' Hseg' Hb' Hne' Ho'|seg' Hc' Hseg' Hb'];
  try (rewrite Hc in Hc'; by simplify_eq);
  try (by apply Hc' in Hc);
  try (by apply Hc in Hc');
  try done;
  pose proof (lastSegment_unique _ _ _ Hseg Hseg'); subst seg';
  try (pose proof (endsWithId_unique _ _ _ Hb Hb'); subst base'; done);
  try (by apply Hb' in Hb);
  try (by apply Hb in Hb').
Qed.

(** Claim C3.  For every field descriptor, [getLookupObjectForField]
    returns exactly the target the resolution rule names: the configured
    lookup target, trimmed, when one is supplied (its trimmed text is not
    empty); otherwise, on the segment after the last ['.'] of the field
    name, the name without its trailing "id" when the name is longer than
    two characters and ends with "id" whatever the case, except that a base
    equal to "owner" whatever the case gives "User"; otherwise the empty
    string.  "OwnerId" resolves to "User", "Account.ParentId" to "Parent"
    and "Name" to the empty string. *)
Theorem getLookupObjectForField_resolution :
  (∀ fd r, LookupTarget fd r ↔ getLookupObjectForField (Some fd) = r) ∧
  getLookupObjectForField None = "" ∧
  getLookupObjectForField (Some (descriptor "OwnerId")) = "User" ∧
  getLookupObjectForField (Some (descriptor "Account.ParentId")) = "Parent" ∧
  getLookupObjectForField (Some (descriptor "Name")) = "".
Proof.
  split; [|by vm_compute].
  intros fd r. split.
  - intros H. symmetry.
    eapply LookupTarget_functional; [exact H|apply getLookupObjectForField_sound].
  - intros <-. apply getLookupObjectForField_sound.
Qed.

End LookupResolver.

(** ** Validation: the email pattern and the phone rule *)

Module Validation.

Import JS JSFacts Regex RegexFacts RecordModal.

Lemma cat_inv a b w :
  Matches (Cat a b) w ↔ ∃ u v, w = u ++ v ∧ Matches a u ∧ Matches b v.
Proof.
  split.
  - intros H. inversion H as [| |a' b' u v Hu Hv| | | |]; subst. by exists u, v.
  - intros (u & v & -> & Hu & Hv). by constructor.
Qed.

Lemma class_inv p w : Matches (Class p) w ↔ ∃ c, w = [c] ∧ p c = true.
Proof.
  split.
  - intros H. inversion H; subst. eauto.
  - intros (c & -> & Hc). by constructor.
Qed.

Lemma lit_inv c w : Matches (Lit c) w ↔ w = [c].
Proof.
  unfold Lit. rewrite class_inv. split.
  - intros (x & -> & Hx). apply Ascii.eqb_eq in Hx. by subst.
  - intros ->. exists c. split; [done|]. apply Ascii.eqb_refl.
Qed.

Lemma star_class_inv p w :
  Matches (Star (Class p)) w ↔ Forall (λ c, p c = true) w.
Proof.
  split.
  - intros H. remember (Star (Class p)) as r eqn:Hr.
    induction H as [| | | | | |a u v Hu _ Hv IHv]; try discriminate.
    + constructor.
    + injection Hr as ->. apply class_inv in Hu as (c & -> & Hc).
      constructor; [done|]. by apply IHv.
  - induction 1 as [|c w Hc _ IH].
    + constructor.
    + apply (M_star_more (Class p) [c] w); [by constructor|done].
Qed.

Lemma plus_class_inv p w :
  Matches (Plus (Class p)) w ↔ w ≠ [] ∧ Forall (λ c, p c = true) w.
Proof.
  unfold Plus. rewrite cat_inv. split.
  - intros (u & v & -> & Hu & Hv).
    apply class_inv in Hu as (c & -> & Hc). apply star_class_inv in Hv.
    split; [done|]. by constructor.
  - intros [Hne Hall]. destruct Hall as [|c w Hc Hw]; [done|].
    exists [c], w. split; [done|]. split; [by constructor|by apply star_class_inv].
Qed.

Lemma atLeast2_class_inv p w :
  Matches (AtLeast2 (Class p)) w ↔
  (2 ≤ List.length w)%nat ∧ Forall (λ c, p c = true) w.
Proof.
  unfold AtLeast2. rewrite cat_inv. split.
  - intros (u & v & -> & Hu & Hv).
    apply class_inv in Hu as (c & -> & Hc).
    apply (plus_class_inv p v) in Hv as [Hne Hall].
    split; [|by constructor]. destruct v; [done|]. simpl. lia.
  - intros [Hlen Hall]. destruct Hall as [|c w Hc Hw]; [simpl in Hlen; lia|].
    exists [c], w. split; [done|]. split; [by constructor|].
    apply (plus_class_inv p w). split; [|done].
    intros ->. simpl in Hlen. lia.
Qed.

Lemma EMAIL_REGEX_language s : test EMAIL_REGEX s = true ↔ emailShape s.
Proof.
  unfold test, EMAIL_REGEX, emailShape. rewrite testL_spec, cat_inv.
  split.
  - intros (loc & r1 & Hs & Hloc & H1).
    apply plus_class_inv in Hloc as [Hne Hloc].
    apply cat_inv in H1 as (at_ & r2 & -> & Hat & H2).
    apply lit_inv in Hat as ->.
    apply cat_inv in H2 as (dom & r3 & -> & Hdom & H3).
    apply plus_class_inv in Hdom as [Hdne Hdom].
    apply cat_inv in H3 as (dot_ & tld & -> & Hdot & Htld).
    apply lit_inv in Hdot as ->.
    apply atLeast2_class_inv in Htld as [Hlen Htld].
    exists loc, dom, tld. by rewrite Hs.
  - intros (loc & dom & tld & Hs & Hne & Hloc & Hdne & Hdom & Hlen & Htld).
    exists loc, ("@"%char :: dom ++ "."%char :: tld).
    split; [done|]. split; [by apply plus_class_inv|].
    apply cat_inv. exists ["@"%char], (dom ++ "."%char :: tld).
    split; [done|]. split; [by apply lit_inv|].
    apply cat_inv. exists dom, ("."%char :: tld).
    split; [done|]. split; [by apply plus_class_inv|].
    apply cat_inv. exists ["."%char], tld.
    split; [done|]. split; [by apply lit_inv|by apply atLeast2_class_inv].
Qed.

Lemma digitsOnly_length s :
  JS.length (digitsOnly s) = Z.of_nat (digitCount (chars s)).
Proof.
  unfold digitsOnly. rewrite length_str. f_equal.
  induction (chars s) as [|c r IH]; [done|].
  rewrite filter_cons. simpl. destruct (isDigit c) eqn:E.
  - rewrite decide_True by done. simpl. by rewrite IH.
  - rewrite decide_False by congruence. done.
Qed.

Lemma Forall_class_excludes (p : ascii → bool) c l :
  p c = false → Forall (λ x, p x = true) l → count_occ ascii_dec l c = 0%nat.
Proof.
  intros Hc. induction 1 as [|x r Hx _ IH]; [done|]. simpl.
  destruct (ascii_dec x c) as [->|_]; [congruence|done].
Qed.

Lemma emailShape_one_at s :
  emailShape s → count_occ ascii_dec (chars s) "@"%char = 1%nat.
Proof.
  intros (loc & dom & tld & Hs & _ & Hloc & _ & Hdom & _ & Htld).
  rewrite Hs, count_occ_app. simpl count_occ at 2.
  rewrite count_occ_app. simpl count_occ at 3.
  rewrite (Forall_class_excludes isLocalChar) by done.
  rewrite (Forall_class_excludes isDomainChar) by done.
  rewrite (Forall_class_excludes isAlpha) by done.
  destruct (ascii_dec "@" "@") as [_|?]; [|done].
  destruct (ascii_dec "." "@") as [?|_]; done.
Qed.

(** Claim C6.  [isValidEmail] and [isValidPhone] are true on a null or
    empty input (empty once trimmed).  On any other input [isValidEmail] is
    true exactly when the trimmed text has the shape local@domain.tld: a
    local part, a single ['@'], a domain part followed by a dot, and a
    top-level name of at least two letters; [isValidPhone] is true exactly
    when the text holds at least ten digits once every other character is
    stripped.  The examples of the specification evaluate as it says. *)
Theorem validators_rule (NumberToString : Q → string) :
  let String := ToString NumberToString in
  let isValidEmail := isValidEmail NumberToString in
  let isValidPhone := isValidPhone NumberToString in
  (∀ s, isNullish s = true ∨ trim (String s) = "" →
        isValidEmail s = true ∧ isValidPhone s = true) ∧
  (∀ s, isNullish s = false ∧ trim (String s) ≠ "" →
        (isValidEmail s = true ↔ emailShape (trim (String s))) ∧
        (isValidPhone s = true ↔ (10 ≤ digitCount (chars (String s)))%nat)) ∧
  (∀ s, emailShape s → count_occ ascii_dec (chars s) "@"%char = 1%nat) ∧
  isValidEmail (VStr "a@b.co") = true ∧
  isValidEmail (VStr "not-an-email") = false ∧
  isValidEmail (VStr "") = true ∧
  isValidEmail VNull = true ∧
  isValidPhone (VStr "415-555-0100") = true ∧
  isValidPhone (VStr "12345") = false ∧
  isValidPhone (VStr "") = true ∧
  isValidPhone VNull = true.
Proof.
  cbv zeta. split; [|split; [|split; [|by vm_compute]]].
  - intros s Hs. unfold isValidEmail, isValidPhone, StringOf.
    destruct Hs as [-> | ->]; [done|].
    rewrite bool_decide_eq_true_2 by done. by rewrite orb_true_r.
  - intros s [Hn Hne]. unfold isValidEmail, isValidPhone, StringOf.
    rewrite Hn, bool_decide_eq_false_2 by done. simpl. split.
    + apply EMAIL_REGEX_language.
    + rewrite digitsOnly_length. rewrite Z.geb_le. lia.
  - apply emailShape_one_at.
Qed.

End Validation.

(** ** Change detection and the payload of a save *)

Module ChangeSet.

Import JS JSFacts RecordModal ModalExamples.

Section Engine.

Variable NumberToString : Q → string.
Variable legacyDateParse : string → option Z.
Variable LocalTZA : Z → Z.

Local Abbreviation normalizedValue := (normalizedValue NumberToString legacyDateParse LocalTZA).
Local Abbreviation normalizedText := (normalizedText NumberToString legacyDateParse LocalTZA).
Local Abbreviation payloadStep := (payloadStep NumberToString legacyDateParse LocalTZA).
Local Abbreviation buildPayload := (buildPayload NumberToString legacyDateParse LocalTZA).
Local Abbreviation validate := (validate NumberToString).
Local Abbreviation passesValidation := (passesValidation NumberToString).
Local Abbreviation handleSave := (handleSave NumberToString legacyDateParse LocalTZA).

(** The wrapper and null cases of [normalizedValue]. *)
Lemma normalizedValue_nullish v : isNullish v = true → normalizedValue v = "".
Proof. by destruct v. Qed.

Lemma normalizedValue_empty : normalizedValue (VStr "") = "".
Proof. reflexivity. Qed.

Lemma normalizedValue_blank s : trim s = "" → normalizedValue (VStr s) = "".
Proof.
  intros H. simpl. unfold RecordModal.normalizedText, StringOf. simpl.
  by rewrite H.
Qed.

Lemma normalizedValue_wrapper x rest :
  normalizedValue (VObj (("value", x) :: rest)) = normalizedValue x.
Proof. reflexivity. Qed.

Lemma normalizedValue_object props :
  normalizedValue (VObj props) =
  match getOwn "value" props with
  | Some x => normalizedValue x
  | None => normalizedText (VObj props)
  end.
Proof.
  change (normalizedText (VObj props)) with (normalizedText (VObj [])).
  simpl. induction props as [|[k x] r IH]; simpl; [done|].
  case_decide; [done|]. apply IH.
Qed.

Lemma normalizedValue_not_date s :
  trim s ≠ "" → DateParse legacyDateParse LocalTZA (trim s) = None →
  normalizedValue (VStr s) = trim s.
Proof.
  intros Hne Hd. simpl. unfold RecordModal.normalizedText, StringOf. simpl.
  rewrite decide_False by done. by rewrite Hd.
Qed.

Lemma normalizedValue_date s t :
  trim s ≠ "" → DateParse legacyDateParse LocalTZA (trim s) = Some t →
  normalizedValue (VStr s) = slice (Date.toISOString t) 0 10.
Proof.
  intros Hne Hd. simpl. unfold RecordModal.normalizedText, StringOf. simpl.
  rewrite decide_False by done. by rewrite Hd.
Qed.

Lemma padDigits_length n z : List.length (Date.padDigits n z) = n.
Proof.
  revert z. induction n as [|n IH]; intros z; simpl; [done|].
  rewrite length_app, IH. simpl. lia.
Qed.

Lemma slice_prefix (p w : list ascii) :
  (10 ≤ List.length p)%nat → slice (str (p ++ w)) 0 10 = str (take 10 p).
Proof.
  intros Hp. unfold slice. rewrite length_str, chars_str.
  assert (relIndex (Z.of_nat (List.length (p ++ w))) 0 = 0) as ->.
  { unfold relIndex. simpl. lia. }
  assert (relIndex (Z.of_nat (List.length (p ++ w))) 10 = 10) as ->.
  { unfold relIndex. simpl. rewrite length_app. lia. }
  change (Z.to_nat 0) with 0%nat.
  rewrite drop_0. change (Z.to_nat (10 - 0)) with 10%nat.
  rewrite take_app_le by lia. done.
Qed.

(** The first ten characters of [toISOString] depend on the day only. *)
Lemma isoDate_same_day t1 t2 :
  Date.Day t1 = Date.Day t2 →
  slice (Date.toISOString t1) 0 10 = slice (Date.toISOString t2) 0 10.
Proof.
  intros Hd. unfold Date.toISOString. rewrite Hd.
  destruct (Date.civilFromDays (Date.Day t2)) as [[y m] d].
  set (p := Date.isoDatePart y m d).
  assert (Hp : (10 ≤ List.length p)%nat).
  { unfold p, Date.isoDatePart, Date.yearDigits.
    destruct ((0 <=? y) && (y <=? 9999));
      repeat (rewrite ?length_app, ?length_cons, ?padDigits_length).
    all: simpl; lia. }
  by rewrite !slice_prefix.
Qed.

Lemma digitChar_isDigit z : isDigit (Date.digitChar (z `mod` 10)) = true.
Proof.
  pose proof (Z.mod_pos_bound z 10 ltac:(lia)) as H.
  assert (Hc : z `mod` 10 = 0 ∨ z `mod` 10 = 1 ∨ z `mod` 10 = 2 ∨ z `mod` 10 = 3 ∨
               z `mod` 10 = 4 ∨ z `mod` 10 = 5 ∨ z `mod` 10 = 6 ∨ z `mod` 10 = 7 ∨
               z `mod` 10 = 8 ∨ z `mod` 10 = 9) by lia.
  destruct Hc as [-> | [-> | [-> | [-> | [-> | [-> | [-> | [-> | [-> | ->]]]]]]]]];
    reflexivity.
Qed.

Lemma padDigits_digits n z : Forall (λ c, isDigit c = true) (Date.padDigits n z).
Proof.
  revert z. induction n as [|n IH]; intros z; simpl; [done|].
  apply Forall_app. split; [apply IH|].
  constructor; [apply digitChar_isDigit|done].
Qed.

(** For a year of four digits the ten characters are YYYY-MM-DD. *)
Lemma isoDate_four_digits t y m d :
  Date.civilFromDays (Date.Day t) = (y, m, d) → 0 <= y <= 9999 →
  slice (Date.toISOString t) 0 10
    = str (Date.padDigits 4 y ++ "-"%char :: Date.padDigits 2 m
           ++ "-"%char :: Date.padDigits 2 d).
Proof.
  intros Hc Hy. unfold Date.toISOString. rewrite Hc.
  unfold Date.isoDatePart, Date.yearDigits.
  destruct (Z.leb_spec 0 y) as [_|?]; [|lia].
  destruct (Z.leb_spec y 9999) as [_|?]; [|lia]. simpl andb. cbv iota.
  set (p := Date.padDigits 4 y ++ "-"%char :: Date.padDigits 2 m
            ++ "-"%char :: Date.padDigits 2 d).
  assert (Hp : List.length p = 10%nat).
  { unfold p. repeat (rewrite ?length_app, ?length_cons, ?padDigits_length).
    done. }
  rewrite slice_prefix by lia. by rewrite take_ge by lia.
Qed.

(** Two texts that denote moments of the same calendar day (UTC)
    normalize to the same string. *)
Lemma normalizedValue_same_day s1 s2 t1 t2 :
  trim s1 ≠ "" → trim s2 ≠ "" →
  DateParse legacyDateParse LocalTZA (trim s1) = Some t1 →
  DateParse legacyDateParse LocalTZA (trim s2) = Some t2 →
  Date.Day t1 = Date.Day t2 →
  normalizedValue (VStr s1) = normalizedValue (VStr s2).
Proof.
  intros H1 H2 P1 P2 Hd.
  rewrite (normalizedValue_date s1 t1), (normalizedValue_date s2 t2) by done.
  by apply isoDate_same_day.
Qed.

(** What [normalizedValue] does, for dates of the years 0000 to 9999: a
    [{value: x}] wrapper is unwrapped; null, undefined and blank text all
    give the empty string; a text that parses as a date gives the
    YYYY-MM-DD form of its UTC calendar day; any other text gives the
    trimmed text. *)
Lemma normalizedValue_rule :
  (∀ props x, getOwn "value" props = Some x →
              normalizedValue (VObj props) = normalizedValue x) ∧
  normalizedValue VNull = "" ∧ normalizedValue VUndef = "" ∧
  (∀ s, trim s = "" → normalizedValue (VStr s) = "") ∧
  (∀ s t y m d,
     trim s ≠ "" → DateParse legacyDateParse LocalTZA (trim s) = Some t →
     Date.civilFromDays (Date.Day t) = (y, m, d) → 0 <= y <= 9999 →
     normalizedValue (VStr s)
       = str (Date.padDigits 4 y ++ "-"%char :: Date.padDigits 2 m
              ++ "-"%char :: Date.padDigits 2 d)) ∧
  (∀ s, trim s ≠ "" → DateParse legacyDateParse LocalTZA (trim s) = None →
        normalizedValue (VStr s) = trim s).
Proof.
  split; [|split; [done|split; [done|split; [|split]]]].
  - intros props x Hx. by rewrite normalizedValue_object, Hx.
  - apply normalizedValue_blank.
  - intros s t y m d Hs Ht Hc Hy.
    rewrite (normalizedValue_date s t) by done. by apply isoDate_four_digits.
  - apply normalizedValue_not_date.
Qed.

(** *** The payload loop *)

Lemma payloadStep_same m p f :
  isEditMode m = true →
  getProp (recordData m) (fieldKey f) = getProp (_initialRecordValues m) (fieldKey f) →
  payloadStep m p f = p.
Proof.
  intros He Hv. unfold RecordModal.payloadStep. rewrite He, Hv.
  by rewrite decide_True.
Qed.

Lemma payloadStep_equal m p f :
  isEditMode m = true →
  normalizedValue (getProp (recordData m) (fieldKey f))
    = normalizedValue (getProp (_initialRecordValues m) (fieldKey f)) →
  payloadStep m p f = p.
Proof.
  intros He Hv. unfold RecordModal.payloadStep. rewrite He.
  by rewrite decide_True.
Qed.

Lemma foldl_fixed {A B} (g : A → B → A) (a : A) (l : list B) :
  (∀ x, x ∈ l → g a x = a) → foldl g a l = a.
Proof.
  induction l as [|x r IH]; intros H; simpl; [done|].
  rewrite H by (by left). apply IH. intros y Hy. apply H. by right.
Qed.

Lemma buildPayload_unchanged m :
  isEditMode m = true → recordData m = _initialRecordValues m →
  buildPayload m = ∅.
Proof.
  intros He Hd. unfold RecordModal.buildPayload. apply foldl_fixed.
  intros f _. apply payloadStep_same; [done|]. by rewrite Hd.
Qed.

Lemma payloadStep_create_empty m p f :
  isEditMode m = false →
  isNullish (getProp (recordData m) (fieldKey f)) = true ∨
  isEmptyString (getProp (recordData m) (fieldKey f)) = true →
  payloadStep m p f = p.
Proof.
  intros He Hv. unfold RecordModal.payloadStep. rewrite He.
  destruct Hv as [-> | ->]; [done|]. by rewrite andb_false_r.
Qed.

Lemma connectedCallback_seeds m0 :
  recordData (connectedCallback m0) = _initialRecordValues (connectedCallback m0) ∧
  isEditMode (connectedCallback m0) = isEditMode m0.
Proof. unfold connectedCallback. simpl. by case_decide. Qed.

Lemma validate_message m t t' e :
  validate m t = (t', true, e) → e = None.
Proof.
  unfold RecordModal.validate. intros H.
  destruct (foldl _ _ _) as [t1 v1].
  destruct (formatError _ _ _); by simplify_eq.
Qed.

(** [handleSave] when the guards pass. *)
Lemma handleSave_passed m t :
  passesValidation m t = true →
  handleSave m t =
    let t' := fst (fst (validate m t)) in
    let payload := buildPayload m in
    if isEditMode m && bool_decide (size payload = 0%nat) then
      (setErrorMessage "No fields were changed." (setErrorMessage "" m), t', None)
    else
      let m' := setErrorMessage "" (setSaveLoading true (setErrorMessage "" m)) in
      (m', t',
       Some (if isEditMode m
             then updateRecord (objectApiName m) (getProp (record m) "Id") payload
             else createRecord (objectApiName m) payload)).
Proof.
  unfold RecordModal.passesValidation, RecordModal.handleSave.
  intros H. apply andb_true_iff in H as [H Hv].
  apply andb_true_iff in H as [Ho Hi].
  apply negb_true_iff, bool_decide_eq_false in Ho.
  apply negb_true_iff in Hi.
  cbn [objectApiName record setErrorMessage]. rewrite decide_False by done.
  change (isEditMode (setErrorMessage "" m)) with (isEditMode m). rewrite Hi.
  change (RecordModal.validate NumberToString (setErrorMessage "" m) t)
    with (validate m t).
  destruct (validate m t) as [[t' v] e] eqn:Hval. simpl in Hv. subst v.
  apply validate_message in Hval as ->. cbv zeta. cbn [negb fst].
  change (RecordModal.buildPayload NumberToString legacyDateParse LocalTZA
            (setErrorMessage "" m)) with (buildPayload m).
  change (isEditMode (setErrorMessage "" m)) with (isEditMode m).
  change (isEditMode (setErrorMessage "" (setSaveLoading true (setErrorMessage "" m))))
    with (isEditMode m).
  cbn [objectApiName record setErrorMessage setSaveLoading].
  destruct (isEditMode m); simpl; [|done].
  by destruct (bool_decide (size (buildPayload m) = 0%nat)).
Qed.

(** [handleSave] issues no call unless the guards pass. *)
Lemma handleSave_blocked m t :
  passesValidation m t = false →
  snd (handleSave m t) = None ∧
  errorMessage (fst (fst (handleSave m t))) ≠ "".
Proof.
  unfold RecordModal.passesValidation, RecordModal.handleSave.
  cbn [objectApiName record setErrorMessage].
  change (isEditMode (setErrorMessage "" m)) with (isEditMode m).
  change (RecordModal.validate NumberToString (setErrorMessage "" m) t)
    with (validate m t).
  intros H. case_decide as Ho; [done|].
  rewrite bool_decide_eq_false_2 in H by done. simpl in H.
  destruct (isEditMode m && _); [done|]. simpl in H.
  unfold RecordModal.validate in *.
  destruct (foldl _ _ _) as [t1 v1].
  destruct (formatError _ _ _) as [e|] eqn:He; simpl in *.
  - assert (e ≠ "") as Hne.
    { clear -He. revert He. generalize (recordData m).
      induction (editFields m) as [|f r IH]; intros d He; simpl in He; [done|].
      repeat case_match; simplify_eq; eauto; by destruct (orString _ _). }
    split; [done|]. by rewrite decide_False.
  - subst v1. simpl. done.
Qed.

End Engine.

(** Claim C1.  In an edit session whose working values are those of the
    snapshot taken when the record was loaded, the payload loop of
    [handleSave] builds the empty payload.  Whenever the payload of an edit
    is empty, [handleSave] issues no call, and when the form passes
    validation it ends with the message 'No fields were changed.' and
    leaves [saveLoading] as it was. *)
Theorem unchanged_edit_is_rejected
    (NumberToString : Q → string) (legacyDateParse : string → option Z)
    (LocalTZA : Z → Z) (m : Modal) (t : Template) :
  isEditMode m = true →
  (recordData m = _initialRecordValues m →
   buildPayload NumberToString legacyDateParse LocalTZA m = ∅) ∧
  (buildPayload NumberToString legacyDateParse LocalTZA m = ∅ →
   snd (handleSave NumberToString legacyDateParse LocalTZA m t) = None ∧
   (passesValidation NumberToString m t = true →
    errorMessage (fst (fst (handleSave NumberToString legacyDateParse LocalTZA m t)))
      = "No fields were changed." ∧
    saveLoading (fst (fst (handleSave NumberToString legacyDateParse LocalTZA m t)))
      = saveLoading m)).
Proof.
  intros He. split.
  - intros Hd. by apply buildPayload_unchanged.
  - intros Hp. destruct (passesValidation NumberToString m t) eqn:Hv.
    + rewrite handleSave_passed by done. cbv zeta.
      rewrite He, Hp. simpl. done.
    + split; [|done].
      by apply handleSave_blocked.
Qed.

(** The theorem at the sample session. *)
Lemma unchanged_edit_is_rejected_witness :
  isEditMode sampleSession = true ∧
  recordData sampleSession = _initialRecordValues sampleSession ∧
  passesValidation plainNumber sampleSession sampleTemplate = true ∧
  buildPayload plainNumber noLegacyDates utc sampleSession = ∅ ∧
  snd (handleSave plainNumber noLegacyDates utc sampleSession sampleTemplate) = None ∧
  errorMessage (fst (fst (handleSave plainNumber noLegacyDates utc
                            sampleSession sampleTemplate)))
    = "No fields were changed.".
Proof.
  assert (He : isEditMode sampleSession = true) by reflexivity.
  assert (Hd : recordData sampleSession = _initialRecordValues sampleSession)
    by reflexivity.
  assert (Hv : passesValidation plainNumber sampleSession sampleTemplate = true)
    by reflexivity.
  destruct (unchanged_edit_is_rejected plainNumber noLegacyDates utc
              sampleSession sampleTemplate He) as [Hsame Hempty].
  destruct (Hempty (Hsame Hd)) as [Hc Hm].
  destruct (Hm Hv) as [Hmsg _].
  repeat split; assumption.
Defined.

(** The example of the specification: a date and the timestamp of
    midnight UTC on that date normalize to the same string, whatever the
    engine does outside the standard format. *)
Lemma normalizedValue_midnight_utc
    (NumberToString : Q → string) (legacyDateParse : string → option Z)
    (LocalTZA : Z → Z) :
  normalizedValue NumberToString legacyDateParse LocalTZA (VStr "2024-01-05")
    = "2024-01-05" ∧
  normalizedValue NumberToString legacyDateParse LocalTZA
    (VStr "2024-01-05T00:00:00.000Z") = "2024-01-05" ∧
  normalizedValue NumberToString legacyDateParse LocalTZA
    (VObj [("value", VStr " 2024-01-05T00:00:00Z ")]) = "2024-01-05".
Proof. by vm_compute. Qed.

(** Claim C5, at the input where the code departs from it.  A date of the
    year 10000, which [Date.parse] reads and [toISOString] prints with an
    expanded year, is cut after ten characters to "+010000-01": the
    result is not of the form YYYY-MM-DD, two different days of that month
    normalize to the same string, and the edit from one to the other is
    left out of the payload. *)
Theorem normalizedValue_expanded_year
    (NumberToString : Q → string) (legacyDateParse : string → option Z)
    (LocalTZA : Z → Z) :
  Date.parse legacyDateParse LocalTZA "+010000-01-01" = Some 253402300800000 ∧
  Date.parse legacyDateParse LocalTZA "+010000-01-02" = Some 253402387200000 ∧
  Date.toISOString 253402387200000 = "+010000-01-02T00:00:00.000Z" ∧
  normalizedValue NumberToString legacyDateParse LocalTZA (VStr "+010000-01-01")
    = "+010000-01" ∧
  normalizedValue NumberToString legacyDateParse LocalTZA (VStr "+010000-01-02")
    = "+010000-01" ∧
  isEditMode farFutureEdit = true ∧
  buildPayload NumberToString legacyDateParse LocalTZA farFutureEdit = ∅.
Proof. by vm_compute. Qed.

(** Claim C10.  In create mode the 'No fields were changed.' guard does
    not apply: when every field's working value is null or empty and the
    form passes validation, the payload is empty and [handleSave] issues
    [createRecord] with that empty payload. *)
Theorem create_sends_empty_payload
    (NumberToString : Q → string) (legacyDateParse : string → option Z)
    (LocalTZA : Z → Z) (m : Modal) (t : Template) :
  isEditMode m = false →
  (∀ f, f ∈ editFields m →
        isNullish (getProp (recordData m) (fieldKey f)) = true ∨
        isEmptyString (getProp (recordData m) (fieldKey f)) = true) →
  passesValidation NumberToString m t = true →
  buildPayload NumberToString legacyDateParse LocalTZA m = ∅ ∧
  snd (handleSave NumberToString legacyDateParse LocalTZA m t)
    = Some (createRecord (objectApiName m) ∅) ∧
  saveLoading (fst (fst (handleSave NumberToString legacyDateParse LocalTZA m t)))
    = true.
Proof.
  intros He Hempty Hv.
  assert (Hp : buildPayload NumberToString legacyDateParse LocalTZA m = ∅).
  { unfold buildPayload. apply foldl_fixed. intros f Hf.
    apply payloadStep_create_empty; [done|]. by apply Hempty. }
  split; [done|].
  rewrite handleSave_passed by done. cbv zeta. rewrite He, Hp. simpl. done.
Qed.

(** The theorem at a blank create form. *)
Lemma create_sends_empty_payload_witness :
  isEditMode blankCreate = false ∧
  passesValidation plainNumber blankCreate sampleTemplate = true ∧
  snd (handleSave plainNumber noLegacyDates utc blankCreate sampleTemplate)
    = Some (createRecord "Account" ∅).
Proof.
  assert (He : isEditMode blankCreate = false) by reflexivity.
  assert (Hv : passesValidation plainNumber blankCreate sampleTemplate = true)
    by reflexivity.
  assert (Hempty : ∀ f, f ∈ editFields blankCreate →
            isNullish (getProp (recordData blankCreate) (fieldKey f)) = true ∨
            isEmptyString (getProp (recordData blankCreate) (fieldKey f)) = true).
  { intros f Hf. apply list_elem_of_singleton in Hf. subst f. left. reflexivity. }
  destruct (create_sends_empty_payload plainNumber noLegacyDates utc
              blankCreate sampleTemplate He Hempty Hv) as (_ & Hc & _).
  repeat split; assumption.
Defined.

End ChangeSet.

(** ** Required lookups and the form elements *)

Module RequiredLookup.

Import JS JSFacts RecordModal ModalExamples.

Lemma query_setCustomValidity_same fn msg t e :
  querySelector fn t = Some e →
  querySelector fn (setCustomValidity fn msg t)
    = Some (mkInput (dataField e) (nativeValid e) msg).
Proof.
  unfold querySelector, setCustomValidity. simpl.
  induction (inputs t) as [|x r IH]; simpl; [done|].
  destruct (bool_decide (dataField x = Some fn)) eqn:E; simpl.
  - intros [= ->]. by rewrite E.
  - rewrite E. apply IH.
Qed.

Lemma query_setCustomValidity_present fn fn' msg t :
  is_Some (querySelector fn (setCustomValidity fn' msg t)) ↔
  is_Some (querySelector fn t).
Proof.
  unfold querySelector, setCustomValidity. simpl.
  induction (inputs t) as [|x r IH]; simpl; [done|].
  destruct (bool_decide (dataField x = Some fn')) eqn:E'; simpl.
  - destruct (bool_decide (dataField x = Some fn)); [|done].
    split; intros _; eauto.
  - destruct (bool_decide (dataField x = Some fn)); [|done].
    split; intros _; eauto.
Qed.

Lemma query_clearLookupValidity fields fn t :
  is_Some (querySelector fn (clearLookupValidity fields t)) ↔
  is_Some (querySelector fn t).
Proof.
  unfold clearLookupValidity. revert t.
  induction (List.filter isExternal fields) as [|f r IH]; intros t; simpl; [done|].
  rewrite IH. apply query_setCustomValidity_present.
Qed.

Lemma requireLookup_present data t v f fn :
  is_Some (querySelector fn (fst (requireLookup data (t, v) f))) ↔
  is_Some (querySelector fn t).
Proof.
  unfold requireLookup.
  destruct (truthy _); [done|].
  destruct (querySelector (fieldKey f) t) as [e|] eqn:E; [|done].
  rewrite (query_setCustomValidity_same _ _ _ _ E). simpl.
  apply query_setCustomValidity_present.
Qed.

Lemma requireLookup_stays_invalid data t f :
  snd (requireLookup data (t, false) f) = false.
Proof.
  unfold requireLookup.
  destruct (truthy _); [done|].
  destruct (querySelector (fieldKey f) t) as [e|] eqn:E; [|done].
  rewrite (query_setCustomValidity_same _ _ _ _ E). simpl.
  by destruct (reportValidity _).
Qed.

Lemma requireLookup_missing data t v f :
  truthy (getProp data (fieldKey f)) = false →
  is_Some (querySelector (fieldKey f) t) →
  snd (requireLookup data (t, v) f) = false.
Proof.
  intros Hv [e He]. unfold requireLookup. rewrite Hv, He.
  rewrite (query_setCustomValidity_same _ _ _ _ He).
  unfold reportValidity. simpl. by rewrite andb_false_r.
Qed.

Lemma requireLookup_fold_invalid data fields t :
  snd (foldl (requireLookup data) (t, false) fields) = false.
Proof.
  revert t. induction fields as [|f r IH]; intros t; cbn [foldl]; [done|].
  pose proof (requireLookup_stays_invalid data t f) as H.
  destruct (requireLookup data (t, false) f) as [t' v']. simpl in H. subst v'.
  apply IH.
Qed.

Lemma requireLookup_fold_missing data fields t v f :
  f ∈ fields →
  truthy (getProp data (fieldKey f)) = false →
  is_Some (querySelector (fieldKey f) t) →
  snd (foldl (requireLookup data) (t, v) fields) = false.
Proof.
  intros Hin Hv. revert t v.
  induction fields as [|g r IH]; intros t v Hq; [by apply elem_of_nil in Hin|].
  cbn [foldl]. apply elem_of_cons in Hin as [<-|Hin].
  - pose proof (requireLookup_missing data t v f Hv Hq) as H.
    destruct (requireLookup data (t, v) f) as [t' v']. simpl in H. subst v'.
    apply requireLookup_fold_invalid.
  - pose proof (requireLookup_present data t v g (fieldKey f)) as H.
    destruct (requireLookup data (t, v) g) as [t' v']. simpl in H.
    apply IH; [done|]. by apply H.
Qed.

Section Engine.

Variable NumberToString : Q → string.

Lemma validate_required_lookup m t f :
  f ∈ editFields m → isExternal f = true → required f = true →
  truthy (getProp (recordData m) (fieldKey f)) = false →
  is_Some (querySelector (fieldKey f) t) →
  snd (fst (validate NumberToString m t)) = false.
Proof.
  intros Hin Hx Hr Hv Hq. unfold validate.
  assert (Hfold : ∀ t0 v0, is_Some (querySelector (fieldKey f) t0) →
    snd (foldl (requireLookup (recordData m)) (t0, v0)
           (List.filter (λ f, isExternal f && required f) (editFields m))) = false).
  { intros t0 v0 Hq0. apply (requireLookup_fold_missing _ _ _ _ f); [|done..].
    apply list_elem_of_In, filter_In. split; [by apply list_elem_of_In|].
    by rewrite Hx, Hr. }
  specialize (Hfold (clearLookupValidity (editFields m) t)
                (forallb reportValidity (inputs (clearLookupValidity (editFields m) t))
                 && forallb id (comboboxes (clearLookupValidity (editFields m) t)))).
  destruct (foldl _ _ _) as [t1 v1]. simpl in Hfold.
  rewrite Hfold by (by apply query_clearLookupValidity).
  by destruct (formatError _ _ _).
Qed.

End Engine.

Lemma fire_recordData t w : recordData (modal (fire t w)) = recordData (modal w).
Proof.
  unfold fire. destruct (timerKind t); [|done]. by case_decide.
Qed.

Lemma foldl_fire_recordData ts w :
  recordData (modal (foldl (λ w t, fire t w) w ts)) = recordData (modal w).
Proof.
  revert w. induction ts as [|t r IH]; intros w; simpl; [done|].
  by rewrite IH, fire_recordData.
Qed.

Lemma step_keeps_cleared f e w :
  writesValue f e = false →
  recordData (modal w) !! f = Some (VStr "") →
  recordData (modal (step w e)) !! f = Some (VStr "").
Proof.
  intros He Hw. destruct e as [g v|dt|id res|g|g v l|g|g v]; simpl in *.
  - destruct (decide (g = f)) as [->|Hne].
    + by rewrite lookup_insert_eq.
    + by rewrite lookup_insert_ne.
  - unfold advance. by rewrite foldl_fire_recordData.
  - unfold deliver. destruct (List.find _ _); [|done]. by destruct res.
  - done.
  - apply bool_decide_eq_false in He. by rewrite lookup_insert_ne.
  - destruct (decide (g = f)) as [->|Hne].
    + by rewrite lookup_insert_eq.
    + by rewrite lookup_insert_ne.
  - apply bool_decide_eq_false in He. by rewrite lookup_insert_ne.
Qed.

Lemma run_keeps_cleared f es w :
  forallb (λ e, negb (writesValue f e)) es = true →
  recordData (modal w) !! f = Some (VStr "") →
  recordData (modal (run es w)) !! f = Some (VStr "").
Proof.
  unfold run. revert w. induction es as [|e r IH]; intros w Hes Hw; simpl; [done|].
  simpl in Hes. apply andb_true_iff in Hes as [He Hr].
  apply IH; [done|]. apply step_keeps_cleared; [|done].
  by apply negb_true_iff.
Qed.

Lemma fire_editFields t w : editFields (modal (fire t w)) = editFields (modal w).
Proof.
  unfold fire. destruct (timerKind t); [|done]. by case_decide.
Qed.

Lemma foldl_fire_editFields ts w :
  editFields (modal (foldl (λ w t, fire t w) w ts)) = editFields (modal w).
Proof.
  revert w. induction ts as [|t r IH]; intros w; simpl; [done|].
  by rewrite IH, fire_editFields.
Qed.

Lemma step_editFields e w : editFields (modal (step w e)) = editFields (modal w).
Proof.
  destruct e as [g v|dt|id res|g|g v l|g|g v]; simpl; try done.
  - unfold advance. by rewrite foldl_fire_editFields.
  - unfold deliver. destruct (List.find _ _); [|done]. by destruct res.
Qed.

Lemma run_editFields es w : editFields (modal (run es w)) = editFields (modal w).
Proof.
  unfold run. revert w. induction es as [|e r IH]; intros w; simpl; [done|].
  by rewrite IH, step_editFields.
Qed.

Lemma save_blocked_by_required_lookup
    (NumberToString : Q → string) (legacyDateParse : string → option Z)
    (LocalTZA : Z → Z) m t f :
  f ∈ editFields m → isExternal f = true → required f = true →
  truthy (getProp (recordData m) (fieldKey f)) = false →
  is_Some (querySelector (fieldKey f) t) →
  snd (handleSave NumberToString legacyDateParse LocalTZA m t) = None ∧
  errorMessage (fst (fst (handleSave NumberToString legacyDateParse LocalTZA m t)))
    ≠ "".
Proof.
  intros Hin Hx Hr Hv Hq. apply ChangeSet.handleSave_blocked.
  unfold passesValidation.
  rewrite (validate_required_lookup NumberToString m t f) by done.
  apply andb_false_r.
Qed.

(** Claim C9.  For a required external-lookup field whose input is in the
    template: a keystroke in the lookup input clears the working value and
    the selected label of the field; whatever follows short of a selection
    (or a direct change of the field) leaves the value cleared; saving then
    is refused before any call, with an error message; and saving is
    refused in any state where the working value of the field is empty.
    Selecting an option writes its value. *)
Theorem required_lookup_needs_selection
    (NumberToString : Q → string) (legacyDateParse : string → option Z)
    (LocalTZA : Z → Z)
    (w : World) (t : Template) (f : FieldDef) (text : string) (es : list Event) :
  f ∈ editFields (modal w) →
  isExternal f = true → required f = true →
  is_Some (querySelector (fieldKey f) t) →
  forallb (λ e, negb (writesValue (fieldKey f) e)) es = true →
  let typed := handleExternalLookupInput (fieldKey f) text w in
  let later := run es typed in
  recordData (modal typed) !! fieldKey f = Some (VStr "") ∧
  externalLookupDisplayMap (modal typed) !! fieldKey f = Some "" ∧
  recordData (modal later) !! fieldKey f = Some (VStr "") ∧
  snd (handleSave NumberToString legacyDateParse LocalTZA (modal later) t) = None ∧
  errorMessage
    (fst (fst (handleSave NumberToString legacyDateParse LocalTZA (modal later) t)))
    ≠ "" ∧
  (∀ m, editFields m = editFields (modal w) →
        truthy (getProp (recordData m) (fieldKey f)) = false →
        snd (handleSave NumberToString legacyDateParse LocalTZA m t) = None) ∧
  (∀ v l, recordData (handleExternalLookupSelect (fieldKey f) v l (modal later))
            !! fieldKey f = Some (VStr v)).
Proof.
  intros Hin Hx Hr Hq Hes typed later.
  assert (Htyped : recordData (modal typed) !! fieldKey f = Some (VStr "")).
  { simpl. by rewrite lookup_insert_eq. }
  assert (Hlater : recordData (modal later) !! fieldKey f = Some (VStr "")).
  { by apply run_keeps_cleared. }
  assert (Hfields : editFields (modal later) = editFields (modal w)).
  { unfold later. by rewrite run_editFields. }
  split; [done|]. split; [simpl; by rewrite lookup_insert_eq|].
  split; [done|].
  assert (Hsave := save_blocked_by_required_lookup NumberToString
                     legacyDateParse LocalTZA (modal later) t f).
  rewrite Hfields in Hsave. unfold getProp in Hsave. rewrite Hlater in Hsave.
  specialize (Hsave Hin Hx Hr eq_refl Hq) as [Hcall Hmsg].
  split; [done|]. split; [done|]. split.
  - intros m Hm Hv.
    apply (save_blocked_by_required_lookup NumberToString legacyDateParse
             LocalTZA m t f); try done. by rewrite Hm.
  - intros v l. simpl. by rewrite lookup_insert_eq.
Qed.

(** The theorem at the owner form: the user types, waits and leaves the
    input without selecting. *)
Lemma required_lookup_needs_selection_witness :
  ownerField ∈ editFields (modal ownerForm) ∧
  is_Some (querySelector "OwnerId" ownerTemplate) ∧
  recordData (modal (run [Elapse 350; Blur "OwnerId"; Elapse 200]
                       (handleExternalLookupInput "OwnerId" "ali" ownerForm)))
    !! "OwnerId" = Some (VStr "") ∧
  snd (handleSave plainNumber noLegacyDates utc
         (modal (run [Elapse 350; Blur "OwnerId"; Elapse 200]
                   (handleExternalLookupInput "OwnerId" "ali" ownerForm)))
         ownerTemplate) = None.
Proof.
  assert (Hin : ownerField ∈ editFields (modal ownerForm)).
  { apply list_elem_of_singleton. reflexivity. }
  assert (Hq : is_Some (querySelector (fieldKey ownerField) ownerTemplate)).
  { eexists. reflexivity. }
  destruct (required_lookup_needs_selection plainNumber noLegacyDates utc
              ownerForm ownerTemplate ownerField "ali"
              [Elapse 350; Blur "OwnerId"; Elapse 200]
              Hin eq_refl eq_refl Hq eq_refl)
    as (_ & _ & Hlater & Hcall & _).
  split; [exact Hin|]. split; [exact Hq|]. split; [exact Hlater|exact Hcall].
Defined.

End RequiredLookup.


(** ** Paging: the current page after a change of page size *)

Module Paging.

Import JS RecordsViewer ViewerExamples.

Lemma ceilDiv_bounds a b :
  0 < b → (ceilDiv a b - 1) * b < a ∧ a <= ceilDiv a b * b.
Proof.
  intros Hb. unfold ceilDiv.
  pose proof (Z.div_mod (- a) b ltac:(lia)) as Hdm.
  pose proof (Z.mod_pos_bound (- a) b Hb) as Hm.
  set (q := - a / b) in *. set (r := - a `mod` b) in *. nia.
Qed.

Lemma ceilDiv_pos a b : 0 < a → 0 < b → 1 <= ceilDiv a b.
Proof.
  intros Ha Hb. destruct (ceilDiv_bounds a b Hb) as [_ H]. nia.
Qed.

Lemma ceilDiv_nonpos a b : 0 <= a → b < 0 → ceilDiv a b <= 0.
Proof.
  intros Ha Hb. unfold ceilDiv.
  pose proof (Z.div_mod (- a) b ltac:(lia)) as Hdm.
  pose proof (Z.mod_neg_bound (- a) b Hb) as Hm.
  set (q := - a / b) in *. set (r := - a `mod` b) in *. nia.
Qed.

Lemma totalPages_pos v : 1 <= totalPages v.
Proof.
  unfold totalPages.
  destruct (Z.eqb_spec (totalRecords v) 0) as [|Hn]; simpl; [lia|].
  destruct (Z.leb_spec (pageSize v) 0) as [|Hp]; [lia|].
  apply ceilDiv_pos; [|done]. unfold totalRecords in *. lia.
Qed.

(** The bound [handlePageSizeChange] clamps to is the page count. *)
Lemma maxPage_totalPages v :
  pageSize v ≠ 0 →
  Z.max 1 (ceilDiv (totalRecords v) (pageSize v)) = totalPages v.
Proof.
  intros Hp. unfold totalPages.
  assert (Hn : 0 <= totalRecords v) by (unfold totalRecords; lia).
  destruct (Z.eqb_spec (totalRecords v) 0) as [H0|Hne]; simpl.
  - rewrite H0. unfold ceilDiv. simpl. rewrite Z.div_0_l by done. lia.
  - destruct (Z.leb_spec (pageSize v) 0) as [Hle|Hgt].
    + pose proof (ceilDiv_nonpos (totalRecords v) (pageSize v)). lia.
    + pose proof (ceilDiv_pos (totalRecords v) (pageSize v)). lia.
Qed.

Lemma step_currentPage S v e :
  1 <= currentPage v → 1 <= currentPage (step S v e).
Proof.
  intros H. destruct e; simpl; try done.
  - unfold handlePageSizeChange.
    destruct (_ =? pageSize v); [done|]. simpl. lia.
  - unfold handlePrevPage, canGoPrev.
    destruct (Z.gtb_spec (currentPage v) 1); simpl; lia.
  - unfold handleNextPage, canGoNext.
    destruct (Z.ltb_spec (currentPage v) (totalPages v)); simpl; lia.
  - apply totalPages_pos.
  - unfold handleSort. by destruct (_ || _).
  - unfold loadRecords. by case_decide.
  - unfold loadRecordsDone. destruct r as [[] ? ? ?|? ?]; simpl; lia.
  - unfold handleDelete. destruct (_ || _); [done|]. by destruct confirmed.
  - unfold handleDeleteDone. destruct r as [[] ?|? ?]; simpl; try done.
    unfold loadRecords. simpl. by case_decide.
Qed.

Lemma run_currentPage S es v :
  1 <= currentPage v → 1 <= currentPage (run S es v).
Proof.
  unfold run. revert v. induction es as [|e r IH]; intros v H; simpl; [done|].
  by apply IH, step_currentPage.
Qed.

(** Claim C7.  In every state the component can reach, a change of page
    size clamps the current page to the page count: a page that still
    exists is kept, a page past the end becomes the last page, and the
    page lies between 1 and the page count; the rows are left alone.  When
    there are rows the page count is ceil(rowCount / pageSize) and the
    current page starts on a row that exists.  With 205 rows and 50 rows a
    page there are 5 pages; going to a page size of 100 puts page 5 at 3
    and leaves page 2 where it is.  The page sizes are those the model
    reads exactly, among them every option of the combobox. *)
Theorem page_size_change_clamps
    (StringToNumber : string → Number) (es : list Event) (obj value : string) :
  let v := run StringToNumber es (create obj) in
  let v' := handlePageSizeChange value v in
  forallb exactEvent es = true → readsExactly value = true →
  pageSize v' ≠ pageSize v →
  1 <= currentPage v' <= totalPages v' ∧
  currentPage v' = Z.min (currentPage v) (totalPages v') ∧
  (currentPage v <= totalPages v' → currentPage v' = currentPage v) ∧
  (totalPages v' < currentPage v → currentPage v' = totalPages v') ∧
  tableData v' = tableData v ∧
  (0 < totalRecords v' → 0 < pageSize v' →
   totalPages v' = ceilDiv (totalRecords v') (pageSize v') ∧
   (currentPage v' - 1) * pageSize v' < totalRecords v') ∧
  totalPages (run StringToNumber onLastPage (create obj)) = 5 ∧
  currentPage (run StringToNumber onLastPage (create obj)) = 5 ∧
  currentPage (handlePageSizeChange "100"
                 (run StringToNumber onLastPage (create obj))) = 3 ∧
  currentPage (run StringToNumber onSecondPage (create obj)) = 2 ∧
  currentPage (handlePageSizeChange "100"
                 (run StringToNumber onSecondPage (create obj))) = 2 ∧
  totalPages (handlePageSizeChange "100"
                (run StringToNumber onSecondPage (create obj))) = 3.
Proof.
  intros v v' _ _ Hchange.
  assert (Hcp : 1 <= currentPage v) by (by apply run_currentPage).
  assert (Hmin : currentPage v' = Z.min (currentPage v) (totalPages v') ∧
                 tableData v' = tableData v).
  { revert Hchange. unfold v', handlePageSizeChange.
    destruct (_ =? pageSize v) eqn:E; [done|]. intros _.
    set (n := match parseInt value with
              | Some n => if n =? 0 then 25 else n
              | None => 25
              end) in *.
    assert (Hn : n ≠ 0).
    { unfold n. destruct (parseInt value) as [k|]; [|done].
      destruct (Z.eqb_spec k 0); done. }
    pose proof (maxPage_totalPages (setPageSize n v) Hn) as Hmax.
    cbn [currentPage setCurrentPage setPageSize pageSize tableData] in *.
    change (totalPages (setCurrentPage _ (setPageSize n v)))
      with (totalPages (setPageSize n v)).
    change (totalRecords (setPageSize n v)) with (totalRecords v) in *.
    by rewrite Hmax. }
  destruct Hmin as [Hmin Hrows].
  pose proof (totalPages_pos v') as Hpos.
  split; [lia|]. split; [done|]. split; [lia|]. split; [lia|]. split; [done|].
  split; [|repeat split; vm_compute; reflexivity].
  intros Hn Hsize. unfold totalPages in *.
  destruct (Z.eqb_spec (totalRecords v') 0) as [|_]; [lia|].
  destruct (Z.leb_spec (pageSize v') 0) as [|_]; [lia|]. simpl in *.
  split; [done|].
  pose proof (ceilDiv_bounds (totalRecords v') (pageSize v') Hsize). nia.
Qed.

(** The theorem on the table of 205 rows. *)
Lemma page_size_change_clamps_witness :
  forallb exactEvent onLastPage = true ∧ readsExactly "100" = true ∧
  pageSize (handlePageSizeChange "100"
              (run (λ _, NaN) onLastPage (create "Account"))) = 100 ∧
  pageSize (run (λ _, NaN) onLastPage (create "Account")) = 50 ∧
  1 <= currentPage (handlePageSizeChange "100"
                      (run (λ _, NaN) onLastPage (create "Account")))
    <= totalPages (handlePageSizeChange "100"
                     (run (λ _, NaN) onLastPage (create "Account"))).
Proof.
  assert (He : forallb exactEvent onLastPage = true) by reflexivity.
  assert (Hv : readsExactly "100" = true) by reflexivity.
  split; [exact He|]. split; [exact Hv|].
  split; [reflexivity|]. split; [reflexivity|].
  apply (page_size_change_clamps (λ _, NaN) onLastPage "Account" "100" He Hv).
  vm_compute. discriminate.
Defined.

End Paging.

(** ** Failed calls *)

Module Failures.

Import JS ViewerExamples.

Lemma modal_orString_nonempty a b : b ≠ "" → RecordModal.orString a b ≠ "".
Proof.
  intros Hb. unfold RecordModal.orString. destruct a as [s|]; [|done].
  by case_decide.
Qed.

Lemma viewer_orString_nonempty a b : b ≠ "" → RecordsViewer.orString a b ≠ "".
Proof.
  intros Hb. unfold RecordsViewer.orString. destruct a as [s|]; [|done].
  by case_decide.
Qed.

(** Claim C8 as stated fails on a load: the rows and columns that were
    loaded are gone after a rejected (or unsuccessful) [getRecords], and
    the current page is left beyond the single page of the empty table. *)
Lemma failed_load_clears_table :
  List.length (RecordsViewer.tableData loadedTable) = 205%nat ∧
  List.length (RecordsViewer.tableColumns loadedTable) = 1%nat ∧
  RecordsViewer.tableData afterFailedLoad = [] ∧
  RecordsViewer.tableColumns afterFailedLoad = [] ∧
  RecordsViewer.errorMessage afterFailedLoad = "Read timed out" ∧
  RecordsViewer.tableData
    (RecordsViewer.loadRecordsDone
       (RecordsViewer.LoadResponse false None None (Some "Session expired"))
       (fst (RecordsViewer.loadRecords loadedTable))) = [] ∧
  RecordsViewer.currentPage afterFailedLoad = 5 ∧
  RecordsViewer.totalPages afterFailedLoad = 1.
Proof. by vm_compute. Qed.

(** Claim C8, amended.  Every failed load, delete or save ends with a
    non-empty error message and the loading flag off.  A failed delete
    leaves the rows, the columns, the sort and the page as they were, and
    a failed save leaves the working values, the snapshot and the lookup
    state of the edit session as they were, so the user can retry.  A
    failed load empties the rows and the columns and resets the sort, and
    leaves the page index and the page size as they were.  A rejected
    [getRecordForEdit] or [getCreateFields] changes nothing and shows no
    message. *)
Theorem failed_calls_keep_or_clear :
  (∀ v r,
     (∃ recs cols err, r = RecordsViewer.LoadResponse false recs cols err) ∨
     (∃ b m, r = RecordsViewer.LoadRejected b m) →
     let v' := RecordsViewer.loadRecordsDone r v in
     RecordsViewer.errorMessage v' ≠ "" ∧
     RecordsViewer.isLoading v' = false ∧
     RecordsViewer.tableData v' = [] ∧
     RecordsViewer.tableColumns v' = [] ∧
     RecordsViewer.sortedBy v' = "" ∧
     RecordsViewer.sortedDirection v' = "asc" ∧
     RecordsViewer.currentPage v' = RecordsViewer.currentPage v ∧
     RecordsViewer.pageSize v' = RecordsViewer.pageSize v ∧
     RecordsViewer.searchTerm v' = RecordsViewer.searchTerm v) ∧
  (∀ v r,
     (∃ err, r = RecordsViewer.DeleteResponse false err) ∨
     (∃ b m, r = RecordsViewer.DeleteRejected b m) →
     let '(v', effects, call) := RecordsViewer.handleDeleteDone r v in
     RecordsViewer.errorMessage v' ≠ "" ∧
     RecordsViewer.isLoading v' = false ∧
     effects = [] ∧ call = None ∧
     RecordsViewer.tableData v' = RecordsViewer.tableData v ∧
     RecordsViewer.tableColumns v' = RecordsViewer.tableColumns v ∧
     RecordsViewer.sortedBy v' = RecordsViewer.sortedBy v ∧
     RecordsViewer.sortedDirection v' = RecordsViewer.sortedDirection v ∧
     RecordsViewer.currentPage v' = RecordsViewer.currentPage v ∧
     RecordsViewer.pageSize v' = RecordsViewer.pageSize v) ∧
  (∀ m r,
     (∃ err, r = RecordModal.SaveResponse false err) ∨
     (∃ b e, r = RecordModal.SaveRejected b e) →
     let '(m', effects) := RecordModal.handleSaveDone m r in
     RecordModal.errorMessage m' ≠ "" ∧
     RecordModal.saveLoading m' = false ∧
     effects = [] ∧
     RecordModal.recordData m' = RecordModal.recordData m ∧
     RecordModal._initialRecordValues m' = RecordModal._initialRecordValues m ∧
     RecordModal.record m' = RecordModal.record m ∧
     RecordModal.editFields m' = RecordModal.editFields m ∧
     RecordModal.externalLookupOptionsMap m' = RecordModal.externalLookupOptionsMap m ∧
     RecordModal.externalLookupDisplayMap m' = RecordModal.externalLookupDisplayMap m ∧
     RecordModal.externalLookupSearchTerm m' = RecordModal.externalLookupSearchTerm m) ∧
  (∀ v, RecordsViewer.openRecordModalRejected v = v).
Proof.
  split; [|split; [|split; [|done]]].
  - intros v r [(recs & cols & err & ->)|(b & m & ->)]; simpl;
      (split; [|done]); by repeat apply viewer_orString_nonempty.
  - intros v r [(err & ->)|(b & m & ->)]; simpl;
      (split; [|done]); by repeat apply viewer_orString_nonempty.
  - intros m r [(err & ->)|(b & e & ->)]; unfold RecordModal.handleSaveDone;
      destruct (RecordModal.isEditMode m); simpl;
      (split; [|done]); by repeat apply modal_orString_nonempty.
Qed.

End Failures.


(** ** The client-side sort of the table *)

Module Sorting.

Import JS RecordsViewer ViewerExamples SortFacts.

Lemma tagFrom_snd {A} n (l : list A) : map snd (tagFrom n l) = l.
Proof. revert n. induction l as [|x r IH]; intros n; simpl; [done|]. by rewrite IH. Qed.

Lemma tagFrom_elem {A} n (l : list A) j b :
  l !! j = Some b → (n + j, b)%nat ∈ tagFrom n l.
Proof.
  revert n j. induction l as [|x r IH]; intros n j H; [done|].
  destruct j as [|j]; simpl in *.
  - injection H as ->. rewrite Nat.add_0_r. by left.
  - right. replace (n + S j)%nat with (S n + j)%nat by lia. by apply IH.
Qed.

Lemma tagFrom_before {A} n (l : list A) i j a b :
  (i < j)%nat → l !! i = Some a → l !! j = Some b →
  Before (n + i, a)%nat (n + j, b)%nat (tagFrom n l).
Proof.
  revert n i j. induction l as [|x r IH]; intros n i j Hij Hi Hj; [done|].
  destruct j as [|j]; [lia|]. destruct i as [|i]; simpl in *.
  - injection Hi as ->. rewrite Nat.add_0_r. apply Before_head.
    replace (n + S j)%nat with (S n + j)%nat by lia. by apply tagFrom_elem.
  - apply Before_cons.
    replace (n + S i)%nat with (S n + i)%nat by lia.
    replace (n + S j)%nat with (S n + j)%nat by lia.
    apply IH; [lia|done..].
Qed.

Lemma stringLt_irrefl s : stringLt s s = false.
Proof.
  unfold stringLt, String.ltb.
  assert (String.compare s s = Eq) as ->; [|done].
  induction s as [|c s IH]; simpl; [done|].
  unfold Ascii.compare. by rewrite N.compare_refl.
Qed.

Section Engine.

Variable StringToNumber : string → Number.

Local Abbreviation sortCompare := (sortCompare StringToNumber).
Local Abbreviation handleSort := (handleSort StringToNumber).

Lemma sortCompare_last_after f isAsc a b :
  goesLast f isAsc a = true → goesLast f isAsc b = false →
  0 < sortCompare f isAsc a b.
Proof.
  unfold goesLast, blankIn, RecordsViewer.sortCompare. cbv zeta.
  destruct isAsc; intros Ha Hb.
  - rewrite Ha, Hb. simpl. lia.
  - apply negb_true_iff in Ha. apply negb_false_iff in Hb.
    rewrite Ha, Hb. simpl. lia.
Qed.

Lemma sortCompare_first_before f isAsc a b :
  goesLast f isAsc a = false → goesLast f isAsc b = true →
  sortCompare f isAsc a b <= 0.
Proof.
  unfold goesLast, blankIn, RecordsViewer.sortCompare. cbv zeta.
  destruct isAsc; intros Ha Hb.
  - rewrite Ha, Hb. simpl. lia.
  - apply negb_false_iff in Ha. apply negb_true_iff in Hb.
    rewrite Ha, Hb. simpl. lia.
Qed.

(** Two texts that differ by case only compare as equal. *)
Lemma sortCompare_ignores_case f isAsc a b s t :
  getProp a f = VStr s → getProp b f = VStr t →
  toLowerCase s = toLowerCase t →
  sortCompare f isAsc a b = 0 ∨
  (s = "" ∧ t ≠ "") ∨ (s ≠ "" ∧ t = "").
Proof.
  intros Ha Hb Hst. unfold RecordsViewer.sortCompare. cbv zeta. rewrite Ha, Hb.
  unfold isBlankCell. simpl.
  destruct (decide (s = "")) as [->|Hs], (decide (t = "")) as [->|Ht]; simpl; auto.
  left. rewrite Hst. unfold lessThan. simpl. by rewrite stringLt_irrefl.
Qed.

(** The comparison sees a text through its lower-case form only. *)
Lemma sortCompare_lowercase f isAsc a b a' b' :
  lowerIfString (getProp a' f) = lowerIfString (getProp a f) →
  isBlankCell (getProp a' f) = isBlankCell (getProp a f) →
  lowerIfString (getProp b' f) = lowerIfString (getProp b f) →
  isBlankCell (getProp b' f) = isBlankCell (getProp b f) →
  sortCompare f isAsc a' b' = sortCompare f isAsc a b.
Proof.
  intros Ha Ha' Hb Hb'. unfold RecordsViewer.sortCompare. cbv zeta.
  by rewrite Ha, Ha', Hb, Hb'.
Qed.

End Engine.

(** *** The order of texts and of numbers *)

Lemma string_compare_refl s : String.compare s s = Eq.
Proof.
  induction s as [|c s IH]; simpl; [done|].
  unfold Ascii.compare. by rewrite N.compare_refl.
Qed.

Lemma string_compare_lt_trans a b c :
  String.compare a b = Lt → String.compare b c = Lt → String.compare a c = Lt.
Proof.
  revert b c. induction a as [|x a IH]; intros [|y b] [|z c]; simpl; try done.
  unfold Ascii.compare.
  destruct (N.compare_spec (N_of_ascii x) (N_of_ascii y)) as [Exy|Lxy|Gxy];
    destruct (N.compare_spec (N_of_ascii y) (N_of_ascii z)) as [Eyz|Lyz|Gyz];
    try done; intros Hab Hbc.
  - rewrite Exy, Eyz, N.compare_refl. by apply (IH b).
  - rewrite Exy. by apply N.compare_lt_iff in Lyz as ->.
  - rewrite <- Eyz. by apply N.compare_lt_iff in Lxy as ->.
  - assert (N_of_ascii x < N_of_ascii z)%N as H by lia.
    by apply N.compare_lt_iff in H as ->.
Qed.

Lemma string_compare_le_trans a b c :
  String.compare a b ≠ Gt → String.compare b c ≠ Gt → String.compare a c ≠ Gt.
Proof.
  intros Hab Hbc.
  destruct (String.compare a b) eqn:Eab; [| |done].
  - apply String.compare_eq_iff in Eab as ->. done.
  - destruct (String.compare b c) eqn:Ebc; [| |done].
    + apply String.compare_eq_iff in Ebc as <-. by rewrite Eab.
    + by rewrite (string_compare_lt_trans a b c).
Qed.

Lemma Qcompare_le_trans (x y z : Q) :
  (x ?= y)%Q ≠ Gt → (y ?= z)%Q ≠ Gt → (x ?= z)%Q ≠ Gt.
Proof. rewrite <- !Qle_alt. apply Qle_trans. Qed.

Lemma stringLt_compare s t :
  stringLt s t = match String.compare s t with Lt => true | _ => false end.
Proof. done. Qed.

Lemma numberLt_compare (x y : Q) :
  numberLt (Finite x) (Finite y)
    = match (x ?= y)%Q with Lt => true | _ => false end.
Proof.
  simpl. destruct (Qle_bool y x) eqn:E; simpl.
  - apply Qle_bool_iff, Qge_alt in E. by destruct (x ?= y)%Q.
  - destruct (x ?= y)%Q eqn:Ec; [| done |].
    + assert (Qle_bool y x = true); [|congruence].
      apply Qle_bool_iff, Qge_alt. by rewrite Ec.
    + assert (Qle_bool y x = true); [|congruence].
      apply Qle_bool_iff, Qge_alt. by rewrite Ec.
Qed.

(** The value a comparison by keys gives: rows without a key are blank. *)
Local Abbreviation byKey cmp isAsc ka kb :=
  (match ka, kb with
   | None, None => 0
   | None, Some _ => if isAsc then 1 else -1
   | Some _, None => if isAsc then -1 else 1
   | Some x, Some y =>
       match cmp x y with
       | Lt => if isAsc then -1 else 1
       | Gt => if isAsc then 1 else -1
       | Eq => 0
       end
   end : Z).

(** A comparison by the keys of a total order is consistent. *)
Lemma byKey_consistent {A K} (cmp : K → K → comparison) (key : A → option K)
    (isAsc : bool) (compare : A → A → Z) (l : list A) :
  (∀ x y, cmp y x = CompOpp (cmp x y)) →
  (∀ x y z, cmp x y ≠ Gt → cmp y z ≠ Gt → cmp x z ≠ Gt) →
  (∀ a b, a ∈ l → b ∈ l → compare a b = byKey cmp isAsc (key a) (key b)) →
  consistent compare l = true.
Proof.
  intros Hanti Htrans Hcompare. unfold consistent.
  apply forallb_forall. intros a Ha%list_elem_of_In.
  apply forallb_forall. intros b Hb%list_elem_of_In.
  apply andb_true_iff. split.
  - apply Z.eqb_eq. rewrite !Hcompare by done.
    destruct (key a) as [x|], (key b) as [y|], isAsc; try done;
      rewrite (Hanti x y); by destruct (cmp x y).
  - apply forallb_forall. intros c Hc%list_elem_of_In.
    rewrite !Hcompare by done.
    destruct (key a) as [x|], (key b) as [y|], (key c) as [z|];
      try (by destruct isAsc);
      try (by destruct isAsc, (cmp _ _)).
    pose proof (Htrans x y z) as H1. pose proof (Htrans z y x) as H2.
    rewrite (Hanti y z), (Hanti x y), (Hanti x z) in H2.
    destruct isAsc, (cmp x y), (cmp y z), (cmp x z); simpl in *; try done;
      try (by exfalso; apply H1); try (by exfalso; apply H2).
Qed.

Section Engine.

Variable StringToNumber : string → Number.

Local Abbreviation sortCompare := (sortCompare StringToNumber).

(** Two texts compare as their lower-case forms do. *)
Lemma sortCompare_text f isAsc a b s t :
  getProp a f = VStr s → getProp b f = VStr t → s ≠ "" → t ≠ "" →
  sortCompare f isAsc a b
    = match String.compare (toLowerCase s) (toLowerCase t) with
      | Lt => if isAsc then -1 else 1
      | Gt => if isAsc then 1 else -1
      | Eq => 0
      end.
Proof.
  intros Ha Hb Hs Ht. unfold RecordsViewer.sortCompare. cbv zeta. rewrite Ha, Hb.
  unfold isBlankCell. cbn [isNullish isEmptyString orb lowerIfString].
  rewrite !decide_False by done. cbn [andb].
  unfold lessThan. cbn [ToPrimitive]. rewrite !stringLt_compare.
  rewrite (String.compare_antisym (toLowerCase s) (toLowerCase t)).
  by destruct (String.compare (toLowerCase t) (toLowerCase s)).
Qed.

(** Two numbers compare as numbers. *)
Lemma sortCompare_number f isAsc a b x y :
  getProp a f = VNum x → getProp b f = VNum y →
  sortCompare f isAsc a b
    = match (x ?= y)%Q with
      | Lt => if isAsc then -1 else 1
      | Gt => if isAsc then 1 else -1
      | Eq => 0
      end.
Proof.
  intros Ha Hb. unfold RecordsViewer.sortCompare. cbv zeta. rewrite Ha, Hb.
  unfold isBlankCell. cbn [isNullish isEmptyString orb andb lowerIfString].
  unfold lessThan. cbn [ToPrimitive ToNumber]. rewrite !numberLt_compare.
  rewrite <- (Qcompare_antisym x y).
  by destruct (x ?= y)%Q.
Qed.

Lemma sortCompare_blank f isAsc a b :
  sortCompare f isAsc a b
    = if blankIn f a && blankIn f b then 0
      else if blankIn f a then (if isAsc then 1 else -1)
      else if blankIn f b then (if isAsc then -1 else 1)
      else sortCompare f isAsc a b.
Proof.
  unfold RecordsViewer.sortCompare, blankIn. cbv zeta.
  by destruct (isBlankCell (getProp a f)), (isBlankCell (getProp b f)).
Qed.

(** On a column of texts, and on a column of numbers, the comparison is
    consistent, whatever the direction. *)
Lemma uniform_column_is_consistent f isAsc rows :
  uniformColumn f rows = true → consistent (sortCompare f isAsc) rows = true.
Proof.
  unfold uniformColumn. intros [H|H]%orb_true_iff.
  - rewrite forallb_forall in H.
    apply (byKey_consistent String.compare
             (λ r, match getProp r f with
                   | VStr s => if decide (s = "") then None else Some (toLowerCase s)
                   | _ => None
                   end) isAsc).
    + intros x y. apply String.compare_antisym.
    + apply string_compare_le_trans.
    + intros a b Ha%list_elem_of_In%H Hb%list_elem_of_In%H.
      unfold textCell, isBlankCell in Ha, Hb.
      destruct (getProp a f) as [| | | |s|] eqn:Ea; try done;
        destruct (getProp b f) as [| | | |t|] eqn:Eb; try done;
        try (rewrite sortCompare_blank; unfold blankIn, isBlankCell;
             rewrite Ea, Eb; cbn [isNullish isEmptyString orb andb];
             repeat case_decide; done).
      destruct (decide (s = "")) as [->|Hs], (decide (t = "")) as [->|Ht];
        try (rewrite sortCompare_blank; unfold blankIn, isBlankCell;
             rewrite Ea, Eb; cbn [isNullish isEmptyString orb andb];
             rewrite ?decide_True, ?decide_False by done; done).
      by apply sortCompare_text.
  - rewrite forallb_forall in H.
    apply (byKey_consistent Qcompare
             (λ r, match getProp r f with
                   | VNum x => Some x
                   | _ => None
                   end) isAsc).
    + intros x y. symmetry. apply Qcompare_antisym.
    + apply Qcompare_le_trans.
    + intros a b Ha%list_elem_of_In%H Hb%list_elem_of_In%H.
      unfold numberCell, isBlankCell in Ha, Hb.
      destruct (getProp a f) as [| | |x| |] eqn:Ea; try done;
        destruct (getProp b f) as [| | |y| |] eqn:Eb; try done;
        try (rewrite sortCompare_blank; unfold blankIn, isBlankCell;
             rewrite Ea, Eb; cbn [isNullish isEmptyString orb andb] in *;
             repeat case_decide; done).
      by apply sortCompare_number.
Qed.

End Engine.

(** On a column that mixes numbers with a text that is no number the
    comparison is not consistent: the text ties with every number. *)
Lemma mixed_column_is_not_consistent :
  consistent (RecordsViewer.sortCompare (λ _, NaN) "Name" true) mixedColumn = false ∧
  uniformColumn "Name" mixedColumn = false.
Proof. split; vm_compute; reflexivity. Qed.

(** Claim C4 as stated fails in descending order: the row without a name
    comes first, not last. *)
Lemma descending_puts_blank_first :
  tableData (handleSort (λ _, NaN) "Name" "desc" threeRows)
    = [row VNull; row (VStr "b"); row (VStr "a")] ∧
  tableData (handleSort (λ _, NaN) "Name" "asc" threeRows)
    = [row (VStr "a"); row (VStr "b"); row VNull].
Proof. split; vm_compute; reflexivity. Qed.

(** Claim C4, amended.  On a column whose values compare consistently, as
    the texts of a column of texts and the numbers of a column of numbers
    do, the sort rearranges the rows so that no row stands before one it
    has to follow: texts come out in the order of their lower-case forms
    and numbers in the order of numbers, ascending or descending as the
    direction says.  It is stable: a row that stood before another with
    which it ties still stands before it (also when rows are told apart by
    their position), and the rows come out in the only arrangement that is
    ordered and stable.  Rows whose value is null or empty come last when
    the direction is ascending and first when it is descending.  Texts are
    compared in lower case: texts that differ by case only tie, and others
    compare as their lower-case forms do.  So b, B, a, C and a row without
    a name come out as a, b, B, C, none when ascending and as none, C, b,
    B, a when descending. *)
Theorem sort_is_stable_blank_by_direction
    (StringToNumber : string → Number) (f dir : string) (v : Viewer) :
  f ≠ "" → tableData v ≠ [] →
  consistent (sortCompare StringToNumber f (bool_decide (dir = "asc")))
    (tableData v) = true →
  let isAsc := bool_decide (dir = "asc") in
  let compare := sortCompare StringToNumber f isAsc in
  let sorted := tableData (handleSort StringToNumber f dir v) in
  let tagged :=
    sort (λ p q, compare (snd p) (snd q)) (tagFrom 0 (tableData v)) in
  sorted ≡ₚ tableData v ∧
  sortedBy (handleSort StringToNumber f dir v) = f ∧
  sortedDirection (handleSort StringToNumber f dir v) = dir ∧
  (∀ i j a b, (i < j)%nat → sorted !! i = Some a → sorted !! j = Some b →
     compare a b <= 0 ∧
     (∀ s t, getProp a f = VStr s → getProp b f = VStr t → s ≠ "" → t ≠ "" →
        (if isAsc then stringLt (toLowerCase t) (toLowerCase s)
         else stringLt (toLowerCase s) (toLowerCase t)) = false) ∧
     (∀ x y, getProp a f = VNum x → getProp b f = VNum y →
        if isAsc then (x <= y)%Q else (y <= x)%Q)) ∧
  (∀ a b, Before a b (tableData v) → compare a b = 0 → Before a b sorted) ∧
  (map snd tagged = sorted ∧
   ∀ i j a b, (i < j)%nat →
     tableData v !! i = Some a → tableData v !! j = Some b →
     compare a b = 0 →
     Before (i, a) (j, b) tagged) ∧
  (StronglySorted (earlier compare) tagged ∧
   ∀ l, l ≡ₚ tagFrom 0 (tableData v) → StronglySorted (earlier compare) l →
        map snd l = sorted) ∧
  Partitioned (goesLast f isAsc) sorted ∧
  (∀ a b s t, getProp a f = VStr s → getProp b f = VStr t →
              s ≠ "" → t ≠ "" →
     (toLowerCase s = toLowerCase t → compare a b = 0) ∧
     (stringLt (toLowerCase s) (toLowerCase t) = true →
      compare a b = if isAsc then -1 else 1) ∧
     (stringLt (toLowerCase t) (toLowerCase s) = true →
      compare a b = if isAsc then 1 else -1)) ∧
  tableData (handleSort StringToNumber "Name" "asc" mixedCase)
    = [row (VStr "a"); row (VStr "b"); row (VStr "B"); row (VStr "C"); row VNull] ∧
  tableData (handleSort StringToNumber "Name" "desc" mixedCase)
    = [row VNull; row (VStr "C"); row (VStr "b"); row (VStr "B"); row (VStr "a")].
Proof.
  intros Hf Hrows Hcons isAsc compare sorted tagged.
  assert (Hsorted : sorted = sort compare (tableData v)).
  { unfold sorted, handleSort, totalRecords.
    rewrite bool_decide_eq_false_2 by done.
    destruct (tableData v) as [|x r] eqn:E; [done|].
    replace (Z.of_nat (List.length (x :: r)) =? 0) with false
      by (symmetry; apply Z.eqb_neq; simpl; lia).
    simpl. done. }
  assert (Hmeta : sortedBy (handleSort StringToNumber f dir v) = f ∧
                  sortedDirection (handleSort StringToNumber f dir v) = dir).
  { unfold handleSort, totalRecords.
    rewrite bool_decide_eq_false_2 by done.
    destruct (tableData v) as [|x r] eqn:E; [done|].
    replace (Z.of_nat (List.length (x :: r)) =? 0) with false
      by (symmetry; apply Z.eqb_neq; simpl; lia).
    simpl. done. }
  destruct Hmeta as [Hby Hdir].
  assert (Htagged : map snd tagged = sort compare (tableData v)).
  { unfold tagged. by rewrite <- (sort_map snd compare), tagFrom_snd. }
  rewrite Hsorted. split; [apply sort_perm|]. split; [done|]. split; [done|].
  split; [|split; [|split; [split|split; [split|split; [|split]]]]].
  - intros i j a b Hij Hi Hj.
    assert (Hle : compare a b <= 0) by (by apply (sort_ordered compare (tableData v) i j)).
    split; [done|]. split.
    + intros s t Ha Hb Hs Ht. rewrite !stringLt_compare.
      unfold compare in Hle.
      rewrite (sortCompare_text StringToNumber f isAsc a b s t Ha Hb Hs Ht) in Hle.
      rewrite (String.compare_antisym (toLowerCase t) (toLowerCase s)).
      destruct isAsc, (String.compare (toLowerCase s) (toLowerCase t));
        simpl in *; done || lia.
    + intros x y Ha Hb. unfold compare in Hle.
      rewrite (sortCompare_number StringToNumber f isAsc a b x y Ha Hb) in Hle.
      destruct isAsc.
      * apply Qle_alt. destruct (x ?= y)%Q; done || lia.
      * apply Qge_alt. destruct (x ?= y)%Q; done || lia.
  - intros a b Hab Hc. apply sort_keeps_order; [done|lia].
  - done.
  - intros i j a b Hij Hi Hj Hc. apply sort_keeps_order.
    + by apply (tagFrom_before 0 (tableData v) i j a b).
    + simpl. lia.
  - by apply (sort_tagged_sorted compare (tableData v)).
  - intros l Hperm Hs. rewrite <- Htagged. f_equal.
    by apply (sort_tagged_unique compare (tableData v)).
  - apply sort_partitioned.
    + apply sortCompare_last_after.
    + apply sortCompare_first_before.
  - intros a b s t Ha Hb Hs Ht. unfold compare.
    rewrite (sortCompare_text StringToNumber f isAsc a b s t Ha Hb Hs Ht).
    rewrite !stringLt_compare.
    rewrite (String.compare_antisym (toLowerCase t) (toLowerCase s)).
    split; [|split].
    + intros ->. by rewrite string_compare_refl.
    + by destruct (String.compare (toLowerCase s) (toLowerCase t)).
    + by destruct (String.compare (toLowerCase s) (toLowerCase t)).
  - split; vm_compute; reflexivity.
Qed.

(** The theorem on the three rows, sorted in descending order. *)
Lemma sort_is_stable_blank_by_direction_witness :
  tableData threeRows ≠ [] ∧
  consistent (sortCompare (λ _, NaN) "Name" false) (tableData threeRows) = true ∧
  Partitioned (goesLast "Name" false)
    (tableData (handleSort (λ _, NaN) "Name" "desc" threeRows)).
Proof.
  assert (Hf : "Name" ≠ "") by discriminate.
  assert (Hrows : tableData threeRows ≠ []) by discriminate.
  assert (Hcons : consistent (sortCompare (λ _, NaN) "Name" (bool_decide ("desc" = "asc")))
                    (tableData threeRows) = true) by (vm_compute; reflexivity).
  split; [exact Hrows|]. split; [exact Hcons|].
  apply (sort_is_stable_blank_by_direction (λ _, NaN) "Name" "desc" threeRows
           Hf Hrows Hcons).
Defined.

End Sorting.

(** ** The debounce of lookup searches *)

Module Debounce.

Import JS RecordModal ModalExamples SortFacts.

Lemma filter_perm {A} (p : A → bool) (l k : list A) :
  l ≡ₚ k → List.filter p l ≡ₚ List.filter p k.
Proof.
  induction 1 as [|x l k _ IH|x y l|l k j _ IH1 _ IH2]; simpl.
  - done.
  - destruct (p x); [by constructor|done].
  - destruct (p x), (p y); try done. apply Permutation_swap.
  - by etrans.
Qed.

Lemma filter_comm {A} (p q : A → bool) (l : list A) :
  List.filter p (List.filter q l) = List.filter q (List.filter p l).
Proof.
  induction l as [|x r IH]; simpl; [done|].
  destruct (p x) eqn:Hp, (q x) eqn:Hq; simpl; rewrite ?Hp, ?Hq, IH; done.
Qed.

Lemma filter_none {A} (p : A → bool) (l : list A) :
  (∀ x, x ∈ l → p x = false) → List.filter p l = [].
Proof.
  induction l as [|x r IH]; intros H; simpl; [done|].
  rewrite H by (by left). apply IH. intros y Hy. apply H. by right.
Qed.

Lemma filter_all {A} (p : A → bool) (l : list A) :
  (∀ x, x ∈ l → p x = true) → List.filter p l = l.
Proof.
  induction l as [|x r IH]; intros H; simpl; [done|].
  rewrite H by (by left). f_equal. apply IH. intros y Hy. apply H. by right.
Qed.

Lemma isSearchFor_field f t : isSearchFor f t = true → timerField t = f.
Proof.
  unfold isSearchFor. destruct (timerKind t); [|done]. apply bool_decide_eq_true.
Qed.

Lemma fire_frame f t w :
  timers (fire t w) = timers w ∧
  nextTimerId (fire t w) = nextTimerId w ∧
  now (fire t w) = now w ∧
  editFields (modal (fire t w)) = editFields (modal w) ∧
  _externalSearchTimeouts (modal (fire t w)) = _externalSearchTimeouts (modal w) ∧
  searchesFor f (fire t w) = searchesFor f w ++ searchOf f (modal w) t.
Proof.
  unfold fire, searchOf, isSearchFor, lookupTargetOf.
  destruct (timerKind t) eqn:Hk; [|by rewrite app_nil_r].
  destruct (decide (getLookupObjectForField _ = "")) as [Hempty|Htarget].
  - simpl. repeat split; try done.
    destruct (bool_decide (timerField t = f)) eqn:Hf; [|by rewrite app_nil_r].
    apply bool_decide_eq_true in Hf. rewrite <- Hf.
    rewrite decide_True by done. by rewrite app_nil_r.
  - simpl. repeat split; try done.
    unfold searchesFor. simpl. rewrite List.filter_app, map_app. f_equal.
    simpl. destruct (bool_decide (timerField t = f)) eqn:Hf; [|done].
    apply bool_decide_eq_true in Hf. rewrite <- Hf.
    by rewrite decide_False by done.
Qed.

Lemma searchOf_fields f m m' t :
  editFields m' = editFields m → searchOf f m' t = searchOf f m t.
Proof. intros H. unfold searchOf, lookupTargetOf. by rewrite H. Qed.

Lemma fires_frame f ts w :
  let w' := foldl (λ w t, fire t w) w ts in
  timers w' = timers w ∧
  nextTimerId w' = nextTimerId w ∧
  now w' = now w ∧
  editFields (modal w') = editFields (modal w) ∧
  _externalSearchTimeouts (modal w') = _externalSearchTimeouts (modal w) ∧
  searchesFor f w' = searchesFor f w ++ flat_map (searchOf f (modal w)) ts.
Proof.
  revert w. induction ts as [|t r IH]; intros w; simpl.
  - by rewrite app_nil_r.
  - destruct (fire_frame f t w) as (H1 & H2 & H3 & H4 & H5 & H6).
    destruct (IH (fire t w)) as (I1 & I2 & I3 & I4 & I5 & I6).
    rewrite I1, I2, I3, I4, I5, I6, H1, H2, H3, H5, H6.
    repeat split; try done.
    rewrite <- app_assoc. do 2 f_equal.
    apply flat_map_ext. intros a. by apply searchOf_fields.
Qed.

Lemma searchOf_flat f m ts :
  flat_map (searchOf f m) ts
    = flat_map (searchOf f m) (List.filter (isSearchFor f) ts).
Proof.
  induction ts as [|t r IH]; simpl; [done|].
  unfold searchOf at 1. destruct (isSearchFor f t) eqn:E; simpl.
  - unfold searchOf at 2. rewrite E. by rewrite IH.
  - done.
Qed.

Lemma advance_frame f dt w :
  let w' := advance dt w in
  now w' = now w + dt ∧
  nextTimerId w' = nextTimerId w ∧
  editFields (modal w') = editFields (modal w) ∧
  _externalSearchTimeouts (modal w') = _externalSearchTimeouts (modal w) ∧
  List.filter (isSearchFor f) (timers w')
    = List.filter (λ t, negb (isDue (now w + dt) t))
        (List.filter (isSearchFor f) (timers w)) ∧
  ∃ fired,
    fired ≡ₚ List.filter (isDue (now w + dt))
               (List.filter (isSearchFor f) (timers w)) ∧
    searchesFor f w' = searchesFor f w ++ flat_map (searchOf f (modal w)) fired.
Proof.
  unfold advance.
  set (ready := sort _ _).
  set (w0 := mkWorld _ _ _ _ _ _).
  destruct (fires_frame f ready w0) as (H1 & H2 & H3 & H4 & H5 & H6).
  cbv zeta. rewrite H1, H2, H3, H4, H5, H6. simpl.
  repeat split; try done.
  - apply filter_comm.
  - exists (List.filter (isSearchFor f) ready). split.
    + unfold ready. rewrite filter_comm. apply filter_perm, sort_perm.
    + f_equal. rewrite searchOf_flat. done.
Qed.

Lemma timersKnown_Known f w : timersKnown f w = true → Known f w.
Proof.
  unfold timersKnown, Known. intros H. apply andb_true_iff in H as [Hn Hts].
  split.
  - apply negb_true_iff, Nat.eqb_neq in Hn. done.
  - intros t Ht Hs. rewrite forallb_forall in Hts.
    specialize (Hts t (proj1 (list_elem_of_In _ _) Ht)). rewrite Hs in Hts.
    apply andb_true_iff in Hts as [H1 H2].
    apply bool_decide_eq_true in H1. apply negb_true_iff, Nat.eqb_neq in H2.
    done.
Qed.

Lemma Armed_Known f term deadline w : Armed f term deadline w → Known f w.
Proof.
  intros (Hn & id & Hts & Hreg & Hid). split; [done|].
  intros t Ht Hs.
  assert (Hin : t ∈ List.filter (isSearchFor f) (timers w)).
  { apply list_elem_of_In, filter_In. split; [by apply list_elem_of_In|done]. }
  rewrite Hts in Hin. apply list_elem_of_singleton in Hin. subst t. done.
Qed.

(** A keystroke leaves exactly one search timer for the field. *)
Lemma input_arms f text w :
  Known f w →
  let w' := handleExternalLookupInput f text w in
  Armed f (trim text) (now w' + EXTERNAL_LOOKUP_SEARCH_DEBOUNCE_MS) w' ∧
  searchesFor f w' = searchesFor f w ∧
  editFields (modal w') = editFields (modal w).
Proof.
  intros [Hn Hknown]. unfold handleExternalLookupInput. cbv zeta. simpl.
  split; [|done]. split; [done|].
  exists (nextTimerId w).
  cbn [timers modal _externalSearchTimeouts setSearchTimeouts].
  rewrite lookup_insert_eq. split; [|done].
  rewrite List.filter_app. simpl.
  unfold isSearchFor at 2. simpl. rewrite bool_decide_eq_true_2 by done.
  rewrite filter_none; [done|].
  intros t Ht. destruct (isSearchFor f t) eqn:Hs; [|done]. exfalso.
  assert (Hin : t ∈ timers w).
  { destruct (_externalSearchTimeouts (modal w) !! f) as [id|]; [|done].
    destruct (id =? 0)%nat; [done|].
    apply list_elem_of_In, filter_In in Ht as [Ht _]. by apply list_elem_of_In. }
  destruct (Hknown t Hin Hs) as [Hreg Hid]. rewrite Hreg in Ht.
  rewrite (proj2 (Nat.eqb_neq _ _) Hid) in Ht.
  apply list_elem_of_In, filter_In in Ht as [_ Ht].
  by rewrite Nat.eqb_refl in Ht.
Qed.

(** Before the deadline nothing is sent for the field. *)
Lemma advance_early f term deadline dt w :
  Armed f term deadline w → now w + dt < deadline →
  Armed f term deadline (advance dt w) ∧
  searchesFor f (advance dt w) = searchesFor f w ∧
  editFields (modal (advance dt w)) = editFields (modal w).
Proof.
  intros (Hn & id & Hts & Hreg & Hid) Hdt.
  destruct (advance_frame f dt w) as (_ & H2 & H3 & H4 & H5 & fired & Hf & H6).
  rewrite Hts in H5, Hf. simpl in H5, Hf. unfold isDue in H5, Hf. simpl in H5, Hf.
  destruct (Z.leb_spec deadline (now w + dt)) as [?|_]; [lia|]. simpl in *.
  apply Permutation_nil_r in Hf. subst fired. simpl in H6.
  rewrite app_nil_r in H6.
  split; [|done]. split; [by rewrite H2|].
  exists id. by rewrite H4.
Qed.

(** At the deadline the one search of the field is sent. *)
Lemma advance_late f term deadline dt w :
  Armed f term deadline w → deadline <= now w + dt →
  lookupTargetOf (modal w) f ≠ "" →
  searchesFor f (advance dt w)
    = searchesFor f w ++ [searchExternalRecords (lookupTargetOf (modal w) f) term
                            EXTERNAL_LOOKUP_MAX_RESULTS] ∧
  List.filter (isSearchFor f) (timers (advance dt w)) = [].
Proof.
  intros (Hn & id & Hts & Hreg & Hid) Hdt Htarget.
  destruct (advance_frame f dt w) as (_ & H2 & H3 & H4 & H5 & fired & Hf & H6).
  rewrite Hts in H5, Hf. simpl in H5, Hf. unfold isDue in H5, Hf. simpl in H5, Hf.
  destruct (Z.leb_spec deadline (now w + dt)) as [_|?]; [|lia]. simpl in *.
  apply Permutation_singleton_r in Hf. subst fired. simpl in H6.
  split; [|done]. rewrite H6. f_equal.
  unfold searchOf, isSearchFor. simpl. rewrite bool_decide_eq_true_2 by done.
  rewrite decide_False by done. by rewrite app_nil_r.
Qed.

Lemma lookupTargetOf_fields m m' f :
  editFields m' = editFields m → lookupTargetOf m' f = lookupTargetOf m f.
Proof. intros H. unfold lookupTargetOf. by rewrite H. Qed.

(** Keystrokes that follow one another within the debounce window send
    nothing. *)
Lemma typing_sends_nothing f texts w :
  Known f w → forallb shortPause texts = true →
  Known f (run (typing f texts) w) ∧
  searchesFor f (run (typing f texts) w) = searchesFor f w ∧
  editFields (modal (run (typing f texts) w)) = editFields (modal w).
Proof.
  revert w. induction texts as [|[text pause] r IH]; intros w Hk Hp; [done|].
  simpl in Hp. apply andb_true_iff in Hp as [Hp Hr].
  unfold shortPause in Hp. simpl in Hp. apply andb_true_iff in Hp as [Hp0 Hp1].
  apply Z.leb_le in Hp0. apply Z.ltb_lt in Hp1.
  destruct (input_arms f text w Hk) as (Ha & Hs & He).
  set (w1 := handleExternalLookupInput f text w) in *.
  destruct (advance_early f (trim text) _ pause w1 Ha ltac:(lia))
    as (Ha2 & Hs2 & He2).
  destruct (IH (advance pause w1) (Armed_Known _ _ _ _ Ha2) Hr) as (Hk3 & Hs3 & He3).
  change (run (typing f ((text, pause) :: r)) w)
    with (run (typing f r) (advance pause w1)).
  rewrite Hs3, Hs2, Hs, He3, He2, He. done.
Qed.

Lemma run_app es1 es2 w : run (es1 ++ es2) w = run es2 (run es1 w).
Proof. unfold run. apply foldl_app. Qed.

(** Claim C2 as stated fails on its second half: the answer to the
    superseded search for "a", arriving after the answer to the search
    for "ab", replaces the option list of the field. *)
Lemma stale_answer_overwrites :
  searchesFor "OwnerId" (run slowAnswer ownerForm)
    = [searchExternalRecords "User" "a" 50] ∧
  externalLookupSearchTerm (modal (run slowAnswer ownerForm))
    !! "OwnerId" = Some "ab" ∧
  externalLookupOptionsMap (modal (run slowAnswer ownerForm))
    !! "OwnerId" = Some optionsForAb ∧
  externalLookupOptionsMap
    (modal (run (slowAnswer ++ [Answer 1 (SearchResolved (Some optionsForA))])
              ownerForm))
    !! "OwnerId" = Some optionsForA.
Proof. by vm_compute. Qed.

(** Claim C2, amended.  For a lookup field with a resolvable target,
    keystrokes that follow one another within the debounce window,
    followed by a pause of at least the window, send exactly one search,
    for the last term typed (trimmed), and leave no search timer pending
    for the field.  There is no supersession check: when the answer to an
    outstanding search arrives, its options become the option list of the
    field, whatever was typed or sent since; a rejected search changes
    nothing. *)
Theorem debounce_sends_one_search
    (w : World) (f : string) (texts : list (string * Z)) (last : string)
    (wait : Z) :
  timersKnown f w = true →
  forallb shortPause texts = true →
  EXTERNAL_LOOKUP_SEARCH_DEBOUNCE_MS <= wait →
  lookupTargetOf (modal w) f ≠ "" →
  let w' := run (typing f texts ++ [Input f last; Elapse wait]) w in
  searchesFor f w'
    = searchesFor f w ++ [searchExternalRecords (lookupTargetOf (modal w) f)
                            (trim last) EXTERNAL_LOOKUP_MAX_RESULTS] ∧
  List.filter (isSearchFor f) (timers w') = [] ∧
  (∀ w0 id r options,
     List.find (λ r, Nat.eqb (requestId r) id) (outstanding w0) = Some r →
     externalLookupOptionsMap (modal (deliver id (SearchResolved options) w0))
       !! requestField r = Some (default [] options) ∧
     modal (deliver id SearchRejected w0) = modal w0).
Proof.
  intros Hk Hp Hwait Htarget w'.
  apply timersKnown_Known in Hk.
  destruct (typing_sends_nothing f texts w Hk Hp) as (Hk1 & Hs1 & He1).
  unfold w'. rewrite run_app.
  set (w1 := run (typing f texts) w) in *.
  change (run [Input f last; Elapse wait] w1)
    with (advance wait (handleExternalLookupInput f last w1)).
  destruct (input_arms f last w1 Hk1) as (Ha & Hs & He).
  set (w2 := handleExternalLookupInput f last w1) in *.
  assert (Ht2 : lookupTargetOf (modal w2) f = lookupTargetOf (modal w) f).
  { apply lookupTargetOf_fields. by rewrite He, He1. }
  destruct (advance_late f (trim last) _ wait w2 Ha ltac:(lia)
              ltac:(by rewrite Ht2)) as [Hs3 Ht3].
  rewrite Hs3, Ht2, Hs, Hs1. split; [done|]. split; [done|].
  intros w0 id r options Hr. unfold deliver. rewrite Hr. simpl.
  by rewrite lookup_insert_eq.
Qed.

(** The theorem on the keystrokes "a", "ab", "abc", a tenth of a second
    apart. *)
Lemma debounce_sends_one_search_witness :
  timersKnown "OwnerId" ownerForm = true ∧
  lookupTargetOf (modal ownerForm) "OwnerId" = "User" ∧
  searchesFor "OwnerId"
    (run (typing "OwnerId" [("a", 100); ("ab", 100)]
          ++ [Input "OwnerId" "abc"; Elapse 350]) ownerForm)
    = [searchExternalRecords "User" "abc" 50].
Proof.
  assert (Ht : lookupTargetOf (modal ownerForm) "OwnerId" ≠ "")
    by (vm_compute; discriminate).
  assert (Hw : EXTERNAL_LOOKUP_SEARCH_DEBOUNCE_MS <= 350) by (vm_compute; discriminate).
  split; [reflexivity|]. split; [reflexivity|].
  apply (debounce_sends_one_search ownerForm "OwnerId"
           [("a", 100); ("ab", 100)] "abc" 350 eq_refl eq_refl Hw Ht).
Defined.

End Debounce.

(** ** What a save sends *)

Module Payload.

Import JS JSFacts RecordModal ModalExamples FormExamples.

Section Engine.

Variable NumberToString : Q → string.
Variable legacyDateParse : string → option Z.
Variable LocalTZA : Z → Z.

Local Abbreviation normalizedValue := (normalizedValue NumberToString legacyDateParse LocalTZA).
Local Abbreviation payloadStep := (payloadStep NumberToString legacyDateParse LocalTZA).
Local Abbreviation buildPayload := (buildPayload NumberToString legacyDateParse LocalTZA).
Local Abbreviation handleSave := (handleSave NumberToString legacyDateParse LocalTZA).
Local Abbreviation isValidEmail := (isValidEmail NumberToString).
Local Abbreviation isValidPhone := (isValidPhone NumberToString).
Local Abbreviation written := (ModalView.written NumberToString legacyDateParse LocalTZA).
Local Abbreviation sentValue := (ModalView.sentValue).

Lemma payloadStep_written m p f :
  payloadStep m p f =
    if written m (fieldKey f) then <[fieldKey f := sentValue m (fieldKey f)]> p else p.
Proof.
  unfold RecordModal.payloadStep, ModalView.written, ModalView.sentValue. cbv zeta.
  destruct (isEditMode m); [|done].
  case_decide as H.
  - by rewrite bool_decide_eq_true_2.
  - by rewrite bool_decide_eq_false_2.
Qed.

Lemma payload_lookup m fs p k :
  foldl (payloadStep m) p fs !! k =
    if existsb (λ f, bool_decide (fieldKey f = k)) fs && written m k
    then Some (sentValue m k) else p !! k.
Proof.
  revert p. induction fs as [|f r IH]; intros p; simpl; [done|].
  rewrite IH, payloadStep_written.
  destruct (bool_decide (fieldKey f = k)) eqn:Hk; simpl.
  - apply bool_decide_eq_true in Hk. rewrite Hk.
    destruct (written m k) eqn:Hw.
    + rewrite lookup_insert_eq. by destruct (existsb _ r).
    + by rewrite andb_false_r.
  - apply bool_decide_eq_false in Hk.
    destruct (written m (fieldKey f)); [|done].
    by rewrite lookup_insert_ne.
Qed.

Lemma buildPayload_lookup m k :
  buildPayload m !! k =
    if existsb (λ f, bool_decide (fieldKey f = k)) (editFields m) && written m k
    then Some (sentValue m k) else None.
Proof. unfold RecordModal.buildPayload. by rewrite payload_lookup, lookup_empty. Qed.

Lemma existsb_fieldKey fs k :
  existsb (λ f, bool_decide (fieldKey f = k)) fs = true ↔
  ∃ f, f ∈ fs ∧ fieldKey f = k.
Proof.
  rewrite existsb_exists. split.
  - intros (f & Hin & Hk). exists f. split; [by apply list_elem_of_In|].
    by apply bool_decide_eq_true in Hk.
  - intros (f & Hin & Hk). exists f. split; [by apply list_elem_of_In|].
    by apply bool_decide_eq_true.
Qed.

End Engine.

(** In create mode the payload holds exactly the fields of the form whose
    working value is neither null, undefined nor the empty string, each
    with its working value. *)
Theorem create_payload_is_filled_fields
    (NumberToString : Q → string) (legacyDateParse : string → option Z)
    (LocalTZA : Z → Z) (m : Modal) (k : string) (v : JSVal) :
  isEditMode m = false →
  (buildPayload NumberToString legacyDateParse LocalTZA m !! k = Some v ↔
   (∃ f, f ∈ editFields m ∧ fieldKey f = k) ∧
   getProp (recordData m) k = v ∧
   isNullish v = false ∧ isEmptyString v = false).
Proof.
  intros Hmode. rewrite buildPayload_lookup.
  unfold ModalView.written, ModalView.sentValue. rewrite Hmode. cbv zeta.
  destruct (existsb _ _) eqn:He; simpl.
  - apply existsb_fieldKey in He.
    destruct (isNullish (getProp (recordData m) k)) eqn:Hn; simpl.
    + split; [done|]. intros (_ & <- & Hv & _). congruence.
    + destruct (isEmptyString (getProp (recordData m) k)) eqn:Hs; simpl.
      * split; [done|]. intros (_ & <- & _ & Hv). congruence.
      * split.
        -- intros [= <-]. done.
        -- intros (_ & <- & _). done.
  - split; [done|]. intros (Hf & _). apply existsb_fieldKey in Hf. congruence.
Qed.

(** The theorem at a create form with a name typed in. *)
Lemma create_payload_is_filled_fields_witness :
  isEditMode namedCreate = false ∧
  buildPayload plainNumber noLegacyDates utc namedCreate !! "Name"
    = Some (VStr "Acme").
Proof.
  split; [reflexivity|].
  apply (create_payload_is_filled_fields plainNumber noLegacyDates utc
           namedCreate "Name" (VStr "Acme") eq_refl).
  split; [|by vm_compute].
  exists (descriptor "Name"). split; [|reflexivity].
  apply list_elem_of_singleton. reflexivity.
Defined.

(** In edit mode the payload holds exactly the fields of the form whose
    working value and snapshot value normalize differently; the value sent
    is the working value, or the empty string when that is null or
    undefined. *)
Theorem edit_payload_is_changed_fields
    (NumberToString : Q → string) (legacyDateParse : string → option Z)
    (LocalTZA : Z → Z) (m : Modal) (k : string) (v : JSVal) :
  isEditMode m = true →
  (buildPayload NumberToString legacyDateParse LocalTZA m !! k = Some v ↔
   (∃ f, f ∈ editFields m ∧ fieldKey f = k) ∧
   normalizedValue NumberToString legacyDateParse LocalTZA (getProp (recordData m) k)
     ≠ normalizedValue NumberToString legacyDateParse LocalTZA
         (getProp (_initialRecordValues m) k) ∧
   v = if isNullish (getProp (recordData m) k) then VStr ""
       else getProp (recordData m) k).
Proof.
  intros Hmode. rewrite buildPayload_lookup.
  unfold ModalView.written, ModalView.sentValue. rewrite Hmode. cbv zeta.
  destruct (existsb _ _) eqn:He; simpl.
  - apply existsb_fieldKey in He.
    case_bool_decide as Hn; simpl.
    + split; [done|]. intros (_ & Hne & _). done.
    + split.
      * intros [= <-]. done.
      * intros (_ & _ & ->). done.
  - split; [done|]. intros (Hf & _). apply existsb_fieldKey in Hf. congruence.
Qed.

(** The theorem at the sample session once the name is set to null. *)
Lemma edit_payload_is_changed_fields_witness :
  isEditMode (handleFieldChange "Name" VNull sampleSession) = true ∧
  buildPayload plainNumber noLegacyDates utc
    (handleFieldChange "Name" VNull sampleSession) !! "Name" = Some (VStr "").
Proof.
  split; [reflexivity|].
  apply (edit_payload_is_changed_fields plainNumber noLegacyDates utc
           (handleFieldChange "Name" VNull sampleSession) "Name" (VStr "") eq_refl).
  split; [|split; [by vm_compute|reflexivity]].
  exists (descriptor "Name"). split; [|reflexivity].
  apply list_elem_of_singleton. reflexivity.
Defined.

End Payload.

(** ** What a save never sends *)

Module SaveGuards.

Import JS JSFacts RecordModal ModalExamples FormExamples.

Lemma whiteSpace_not_digit c : isWhiteSpace c = true → isDigit c = false.
Proof. destruct c as [[] [] [] [] [] [] [] []]; vm_compute; congruence. Qed.

Lemma digits_trimStartL l :
  filter (λ c, isDigit c = true) (trimStartL l) = filter (λ c, isDigit c = true) l.
Proof.
  induction l as [|c r IH]; simpl; [done|].
  destruct (isWhiteSpace c) eqn:Hw; [|done].
  rewrite IH. rewrite filter_cons_False; [done|].
  rewrite (whiteSpace_not_digit c Hw). done.
Qed.

Lemma digits_rev l :
  filter (λ c, isDigit c = true) (rev l) = rev (filter (λ c, isDigit c = true) l).
Proof.
  induction l as [|c r IH]; simpl; [done|].
  rewrite filter_app, IH, !filter_cons, filter_nil.
  destruct (decide (isDigit c = true)); simpl; [done|].
  by rewrite app_nil_r.
Qed.

Lemma digitsOnly_trim s : digitsOnly (trim s) = digitsOnly s.
Proof.
  unfold digitsOnly, trim. rewrite chars_str. f_equal.
  unfold trimL, trimEndL.
  rewrite digits_rev, digits_trimStartL, digits_rev, rev_involutive.
  apply digits_trimStartL.
Qed.

Section Engine.

Variable NumberToString : Q → string.
Variable legacyDateParse : string → option Z.
Variable LocalTZA : Z → Z.

Local Abbreviation StringOf := (ToString NumberToString).
Local Abbreviation buildPayload := (buildPayload NumberToString legacyDateParse LocalTZA).
Local Abbreviation handleSave := (handleSave NumberToString legacyDateParse LocalTZA).
Local Abbreviation passesValidation := (passesValidation NumberToString).
Local Abbreviation isValidEmail := (isValidEmail NumberToString).
Local Abbreviation isValidPhone := (isValidPhone NumberToString).
Local Abbreviation formatError := (formatError NumberToString).

(** The validators give the same verdict on a value and on its trimmed
    text, which is what [handleSave] hands them. *)
Lemma isValidEmail_trimmed val :
  isNullish val = false →
  isValidEmail (VStr (trim (StringOf val))) = isValidEmail val.
Proof.
  intros Hn. unfold RecordModal.isValidEmail, RecordModal.StringOf.
  rewrite Hn. cbn [isNullish orb ToString]. by rewrite trim_idemp.
Qed.

Lemma isValidPhone_trimmed val :
  isNullish val = false →
  isValidPhone (VStr (trim (StringOf val))) = isValidPhone val.
Proof.
  intros Hn. unfold RecordModal.isValidPhone, RecordModal.StringOf.
  rewrite Hn. cbn [isNullish orb ToString]. by rewrite trim_idemp, digitsOnly_trim.
Qed.

Lemma blank_is_valid val :
  isNullish val || bool_decide (trim (StringOf val) = "") = true →
  isValidEmail val = true ∧ isValidPhone val = true.
Proof.
  intros H. unfold RecordModal.isValidEmail, RecordModal.isValidPhone,
    RecordModal.StringOf. by rewrite H.
Qed.

(** The verdict of the format loop on one field. *)
Lemma formatError_cons data f rest :
  formatError data (f :: rest) =
    let val := getProp data (fieldKey f) in
    let label := orString (label f) (fieldKey f) in
    if bool_decide (rawType f = "email") && negb (isValidEmail val) then
      Some ("Invalid email format for " +:+ label +:+ ".")
    else if bool_decide (rawType f = "phone") && negb (isValidPhone val) then
      Some ("Invalid phone format for " +:+ label +:+ ".")
    else formatError data rest.
Proof.
  cbv zeta. cbn [RecordModal.formatError].
  change (RecordModal.StringOf NumberToString) with StringOf.
  destruct (isNullish (getProp data (fieldKey f))
            || bool_decide (trim (StringOf (getProp data (fieldKey f))) = "")) eqn:Hb.
  - destruct (blank_is_valid _ Hb) as [-> ->]. simpl.
    by rewrite !andb_false_r.
  - apply orb_false_iff in Hb as [Hn _].
    by rewrite isValidEmail_trimmed, isValidPhone_trimmed.
Qed.

Lemma formatError_none data fs :
  formatError data fs = None →
  ∀ f, f ∈ fs →
    (rawType f = "email" → isValidEmail (getProp data (fieldKey f)) = true) ∧
    (rawType f = "phone" → isValidPhone (getProp data (fieldKey f)) = true).
Proof.
  induction fs as [|g r IH]; intros H f Hf; [by apply elem_of_nil in Hf|].
  rewrite formatError_cons in H. cbv zeta in H.
  destruct (bool_decide (rawType g = "email") && _) eqn:He; [done|].
  destruct (bool_decide (rawType g = "phone") && _) eqn:Hp; [done|].
  apply elem_of_cons in Hf as [->|Hf]; [|by apply IH].
  split; intros Ht; rewrite Ht in *; simpl in *; by apply negb_false_iff.
Qed.

Lemma formatError_first data pre f rest :
  (∀ g, g ∈ pre →
     (rawType g = "email" → isValidEmail (getProp data (fieldKey g)) = true) ∧
     (rawType g = "phone" → isValidPhone (getProp data (fieldKey g)) = true)) →
  formatError data (pre ++ f :: rest) = formatError data (f :: rest).
Proof.
  induction pre as [|g r IH]; intros H; [done|].
  rewrite <- app_comm_cons, formatError_cons. cbv zeta.
  destruct (H g ltac:(by left)) as [He Hp].
  assert (E1 : bool_decide (rawType g = "email")
               && negb (isValidEmail (getProp data (fieldKey g))) = false).
  { destruct (bool_decide (rawType g = "email")) eqn:E; [|reflexivity].
    apply bool_decide_eq_true in E. rewrite (He E). reflexivity. }
  assert (E2 : bool_decide (rawType g = "phone")
               && negb (isValidPhone (getProp data (fieldKey g))) = false).
  { destruct (bool_decide (rawType g = "phone")) eqn:E; [|reflexivity].
    apply bool_decide_eq_true in E. rewrite (Hp E). reflexivity. }
  rewrite E1, E2. apply IH. intros g' Hg'. apply H. by right.
Qed.

Lemma passes_formatError m t :
  passesValidation m t = true → formatError (recordData m) (editFields m) = None.
Proof.
  unfold RecordModal.passesValidation, RecordModal.validate.
  intros H. apply andb_true_iff in H as [_ H].
  destruct (foldl _ _ _) as [t1 v1].
  change (RecordModal.formatError NumberToString) with formatError in H.
  by destruct (formatError _ _).
Qed.

End Engine.

(** When [handleSave] issues a call, the object type is not blank, every
    field of type email holds a working value [isValidEmail] accepts and
    every field of type phone one [isValidPhone] accepts; the call is
    [updateRecord] for the record's Id with a payload that is not empty in
    edit mode, [createRecord] in create mode. *)
Theorem save_sends_only_valid_formats
    (NumberToString : Q → string) (legacyDateParse : string → option Z)
    (LocalTZA : Z → Z) (m : Modal) (t : Template) (call : ApexCall) :
  snd (handleSave NumberToString legacyDateParse LocalTZA m t) = Some call →
  trim (objectApiName m) ≠ "" ∧
  (∀ f, f ∈ editFields m → rawType f = "email" →
     isValidEmail NumberToString (getProp (recordData m) (fieldKey f)) = true) ∧
  (∀ f, f ∈ editFields m → rawType f = "phone" →
     isValidPhone NumberToString (getProp (recordData m) (fieldKey f)) = true) ∧
  call = (if isEditMode m
          then updateRecord (objectApiName m) (getProp (record m) "Id")
                 (buildPayload NumberToString legacyDateParse LocalTZA m)
          else createRecord (objectApiName m)
                 (buildPayload NumberToString legacyDateParse LocalTZA m)) ∧
  (isEditMode m = true →
   buildPayload NumberToString legacyDateParse LocalTZA m ≠ ∅).
Proof.
  intros Hcall.
  destruct (passesValidation NumberToString m t) eqn:Hv.
  - pose proof (passes_formatError _ _ _ Hv) as Hf.
    pose proof (formatError_none _ _ _ Hf) as Hok.
    split.
    { unfold passesValidation in Hv. apply andb_true_iff in Hv as [Hv _].
      apply andb_true_iff in Hv as [Hv _].
      by apply negb_true_iff, bool_decide_eq_false in Hv. }
    split; [intros f Hin; by apply (Hok f Hin)|].
    split; [intros f Hin; by apply (Hok f Hin)|].
    rewrite (ChangeSet.handleSave_passed _ _ _ _ _ Hv) in Hcall. cbv zeta in Hcall.
    destruct (isEditMode m); simpl in Hcall.
    + case_bool_decide as Hs; simpl in Hcall; [done|].
      split; [congruence|]. intros _ He. apply Hs. rewrite He. done.
    + split; [congruence|done].
  - destruct (ChangeSet.handleSave_blocked _ legacyDateParse LocalTZA _ _ Hv) as [Hn _].
    congruence.
Qed.

(** The theorem at a create form with a name typed in. *)
Lemma save_sends_only_valid_formats_witness :
  snd (handleSave plainNumber noLegacyDates utc namedCreate sampleTemplate)
    = Some (createRecord "Account" (<["Name" := VStr "Acme"]> ∅)) ∧
  createRecord "Account" (<["Name" := VStr "Acme"]> ∅)
    = createRecord (objectApiName namedCreate)
        (buildPayload plainNumber noLegacyDates utc namedCreate).
Proof.
  assert (Hcall : snd (handleSave plainNumber noLegacyDates utc namedCreate
                         sampleTemplate)
                  = Some (createRecord "Account" (<["Name" := VStr "Acme"]> ∅)))
    by (vm_compute; reflexivity).
  destruct (save_sends_only_valid_formats plainNumber noLegacyDates utc
              namedCreate sampleTemplate _ Hcall) as (_ & _ & _ & Hc & _).
  split; [exact Hcall|exact Hc].
Defined.

(** When the fields before [f] in the form hold well-formed values and [f],
    of type email or phone, holds one its validator rejects, [handleSave]
    issues no call and shows the message of [f], with its label, or its
    name when it has no label. *)
Theorem first_format_error_is_reported
    (NumberToString : Q → string) (legacyDateParse : string → option Z)
    (LocalTZA : Z → Z) (m : Modal) (t : Template)
    (pre post : list FieldDef) (f : FieldDef) (kind : string) :
  editFields m = pre ++ f :: post →
  trim (objectApiName m) ≠ "" →
  (isEditMode m = true →
   trim (ToString NumberToString (getProp (record m) "Id")) ≠ "") →
  (∀ g, g ∈ pre →
     (rawType g = "email" →
      isValidEmail NumberToString (getProp (recordData m) (fieldKey g)) = true) ∧
     (rawType g = "phone" →
      isValidPhone NumberToString (getProp (recordData m) (fieldKey g)) = true)) →
  rawType f = kind →
  (kind = "email" ∧
   isValidEmail NumberToString (getProp (recordData m) (fieldKey f)) = false) ∨
  (kind = "phone" ∧
   isValidPhone NumberToString (getProp (recordData m) (fieldKey f)) = false) →
  snd (handleSave NumberToString legacyDateParse LocalTZA m t) = None ∧
  errorMessage (fst (fst (handleSave NumberToString legacyDateParse LocalTZA m t)))
    = "Invalid " +:+ kind +:+ " format for "
      +:+ orString (label f) (fieldKey f) +:+ ".".
Proof.
  intros Hfields Hobj Hid Hpre Htype Hbad.
  set (msg := "Invalid " +:+ kind +:+ " format for "
              +:+ orString (label f) (fieldKey f) +:+ ".").
  assert (Hfe : formatError NumberToString (recordData m) (editFields m) = Some msg).
  { rewrite Hfields, formatError_first by done.
    rewrite formatError_cons. cbv zeta. rewrite Htype.
    destruct Hbad as [[Hk Hv]|[Hk Hv]]; rewrite Hv; unfold msg; rewrite Hk.
    - reflexivity.
    - reflexivity. }
  assert (Hmsg : msg ≠ "").
  { unfold msg. cbn [String.append]. discriminate. }
  unfold handleSave. cbn [objectApiName record setErrorMessage].
  rewrite decide_False by done.
  change (isEditMode (setErrorMessage "" m)) with (isEditMode m).
  assert (Hguard : isEditMode m &&
            (negb (truthy (getProp (record m) "Id")) ||
             bool_decide (trim (RecordModal.StringOf NumberToString
                                  (getProp (record m) "Id")) = "")) = false).
  { destruct (isEditMode m) eqn:He; [|done]. simpl.
    unfold isEditMode in He. rewrite He. simpl.
    apply bool_decide_eq_false. by apply Hid. }
  rewrite Hguard.
  unfold validate. cbn [recordData editFields setErrorMessage].
  destruct (foldl _ _ _) as [t1 v1].
  rewrite Hfe. cbn [negb setErrorMessage errorMessage snd fst].
  rewrite decide_False by done. done.
Qed.

(** The theorem at the contact form, whose email is not an address. *)
Lemma first_format_error_is_reported_witness :
  editFields contactForm = [descriptor "Name"] ++ emailField :: [phoneField] ∧
  isValidEmail plainNumber (getProp (recordData contactForm) "Email") = false ∧
  snd (handleSave plainNumber noLegacyDates utc contactForm contactTemplate) = None ∧
  errorMessage (fst (fst (handleSave plainNumber noLegacyDates utc
                            contactForm contactTemplate)))
    = "Invalid email format for Work email.".
Proof.
  assert (Hfields : editFields contactForm
                    = [descriptor "Name"] ++ emailField :: [phoneField])
    by reflexivity.
  assert (Hbad : isValidEmail plainNumber
                   (getProp (recordData contactForm) (fieldKey emailField)) = false)
    by (vm_compute; reflexivity).
  assert (Hobj : trim (objectApiName contactForm) ≠ "")
    by (vm_compute; discriminate).
  assert (Hid : isEditMode contactForm = true →
                trim (ToString plainNumber (getProp (record contactForm) "Id")) ≠ "")
    by (vm_compute; discriminate).
  assert (Hpre : ∀ g, g ∈ [descriptor "Name"] →
            (rawType g = "email" →
             isValidEmail plainNumber
               (getProp (recordData contactForm) (fieldKey g)) = true) ∧
            (rawType g = "phone" →
             isValidPhone plainNumber
               (getProp (recordData contactForm) (fieldKey g)) = true)).
  { intros g Hg. apply list_elem_of_singleton in Hg. subst g.
    split; intros H; vm_compute in H; discriminate. }
  destruct (first_format_error_is_reported plainNumber noLegacyDates utc
              contactForm contactTemplate [descriptor "Name"] [phoneField]
              emailField "email" Hfields Hobj Hid Hpre eq_refl
              (or_introl (conj eq_refl Hbad))) as [Hnone Hmsg].
  split; [exact Hfields|]. split; [exact Hbad|]. split; [exact Hnone|exact Hmsg].
Defined.

End SaveGuards.

(** ** What the form shows *)

Module FormView.

Import JS JSFacts RecordModal ModalView ModalExamples FormExamples.

Lemma slice_take {A} (a : list A) (n : Z) :
  0 <= n <= Z.of_nat (List.length a) → JSArray.slice a 0 n = take (Z.to_nat n) a.
Proof.
  intros Hn. unfold JSArray.slice, relIndex. cbv zeta.
  change (0 <? 0) with false. cbv iota.
  destruct (Z.ltb_spec n 0) as [?|_]; [lia|].
  rewrite Z.min_l by lia. rewrite Z.min_l by lia.
  change (Z.to_nat 0) with 0%nat. rewrite drop_0. f_equal. lia.
Qed.

Lemma sliceFrom_drop {A} (a : list A) (n : Z) :
  0 <= n <= Z.of_nat (List.length a) → JSArray.sliceFrom a n = drop (Z.to_nat n) a.
Proof.
  intros Hn. unfold JSArray.sliceFrom, JSArray.slice, relIndex. cbv zeta.
  destruct (Z.ltb_spec n 0) as [?|_]; [lia|].
  destruct (Z.ltb_spec (Z.of_nat (List.length a)) 0) as [?|_]; [lia|].
  rewrite Z.min_id, Z.min_l by lia.
  apply take_ge. rewrite length_drop. lia.
Qed.

Lemma ceilDiv_half n : 0 <= n → 0 <= ceilDiv n 2 <= n ∧ 0 <= 2 * ceilDiv n 2 - n <= 1.
Proof.
  intros Hn. unfold ceilDiv.
  pose proof (Z.div_mod (- n) 2 ltac:(lia)) as Hdm.
  pose proof (Z.mod_pos_bound (- n) 2 ltac:(lia)) as Hm.
  lia.
Qed.

Lemma getProp_insert (o : gmap string JSVal) k v : getProp (<[k := v]> o) k = v.
Proof. unfold getProp. by rewrite lookup_insert_eq. Qed.

Lemma isoDate_nonempty t : slice (Date.toISOString t) 0 10 ≠ "".
Proof.
  unfold Date.toISOString.
  destruct (Date.civilFromDays (Date.Day t)) as [[y m] d].
  set (p := Date.isoDatePart y m d).
  assert (Hp : (10 ≤ List.length p)%nat).
  { unfold p, Date.isoDatePart, Date.yearDigits.
    destruct ((0 <=? y) && (y <=? 9999));
      repeat (rewrite ?length_app, ?length_cons, ?ChangeSet.padDigits_length).
    all: simpl; lia. }
  rewrite ChangeSet.slice_prefix by done.
  destruct p as [|c p]; [simpl in Hp; lia|]. discriminate.
Qed.

Section Engine.

Variable NumberToString : Q → string.
Variable legacyDateParse : string → option Z.
Variable LocalTZA : Z → Z.

Local Abbreviation fieldView := (fieldView NumberToString legacyDateParse LocalTZA).
Local Abbreviation newDate := (newDate legacyDateParse LocalTZA).

(** The value a field shows when its working value is a text. *)
Lemma hasSelection_text m e s :
  getProp (recordData m) (fieldKey (descriptorOf e)) = VStr s → s ≠ "" →
  View.externalLookupHasSelection (fieldView m e) = true.
Proof.
  intros Hv Hs. unfold ModalView.fieldView. cbv zeta.
  cbn [View.externalLookupHasSelection]. rewrite Hv.
  destruct (bool_decide (type (descriptorOf e) = Some "date") && truthy (VStr s)).
  - destruct (ModalView.newDate _ _ _) as [t|].
    + cbn [isNullish isEmptyString negb andb].
      rewrite decide_False by apply isoDate_nonempty. done.
    + cbn [isNullish isEmptyString negb andb]. by rewrite decide_False.
  - cbn [isNullish isEmptyString negb andb]. by rewrite decide_False.
Qed.

(** The view of a field whose working value is the empty string. *)
Lemma fieldView_empty m e :
  getProp (recordData m) (fieldKey (descriptorOf e)) = VStr "" →
  View.externalLookupHasSelection (fieldView m e) = false ∧
  View.value (fieldView m e) = "" ∧
  View.externalLookupInputValue (fieldView m e)
    = default "" (externalLookupSearchTerm m !! fieldKey (descriptorOf e)).
Proof.
  intros Hv. unfold ModalView.fieldView. cbv zeta.
  cbn [View.externalLookupHasSelection View.value View.externalLookupInputValue].
  rewrite Hv. cbn [truthy]. rewrite decide_True by done.
  rewrite andb_false_r. cbn [isNullish isEmptyString negb andb].
  rewrite decide_True by done. done.
Qed.

End Engine.

(** Typing in a lookup input: the input shows the text as typed, the field
    has no selection and no value, and the dropdown is open.  Clearing the
    lookup: the input is empty, the field has no selection, no value and
    no options, and the dropdown is closed. *)
Theorem lookup_view_after_typing_and_clearing
    (NumberToString : Q → string) (legacyDateParse : string → option Z)
    (LocalTZA : Z → Z) (w : World) (e : EditField) (text : string) :
  let f := fieldKey (descriptorOf e) in
  let typed :=
    fieldView NumberToString legacyDateParse LocalTZA
      (modal (handleExternalLookupInput f text w)) e in
  let cleared :=
    fieldView NumberToString legacyDateParse LocalTZA
      (handleExternalLookupClear f (modal w)) e in
  (View.externalLookupInputValue typed = text ∧
   View.externalLookupHasSelection typed = false ∧
   View.value typed = "" ∧
   View.externalLookupDropdownOpen typed = true) ∧
  (View.externalLookupInputValue cleared = "" ∧
   View.externalLookupHasSelection cleared = false ∧
   View.value cleared = "" ∧
   View.externalLookupDropdownOpen cleared = false ∧
   View.externalOptions cleared = []).
Proof.
  intros f typed cleared. split.
  - destruct (fieldView_empty NumberToString legacyDateParse LocalTZA
                (modal (handleExternalLookupInput f text w)) e) as (H1 & H2 & H3).
    { unfold getProp. cbn. fold f. by rewrite lookup_insert_eq. }
    fold typed in H1, H2, H3. rewrite H1, H2, H3. cbn. fold f.
    rewrite lookup_insert_eq. repeat split.
    unfold typed, fieldView. cbn. fold f.
    rewrite lookup_insert_eq. by rewrite bool_decide_eq_true_2.
  - destruct (fieldView_empty NumberToString legacyDateParse LocalTZA
                (handleExternalLookupClear f (modal w)) e) as (H1 & H2 & H3).
    { unfold getProp. cbn. fold f. by rewrite lookup_insert_eq. }
    fold cleared in H1, H2, H3. rewrite H1, H2, H3. cbn. fold f.
    rewrite lookup_insert_eq. repeat split.
    + unfold cleared, fieldView. cbn. fold f.
      rewrite lookup_insert_eq. by rewrite bool_decide_eq_false_2.
    + unfold cleared, fieldView. cbn. fold f.
      by rewrite lookup_insert_eq.
Qed.

(** Picking an option with a value: the field has a selection, the input
    shows the label of the option, or its value when it has no label, the
    dropdown is closed and the option list is empty. *)
Theorem lookup_view_after_selection
    (NumberToString : Q → string) (legacyDateParse : string → option Z)
    (LocalTZA : Z → Z) (m : Modal) (e : EditField)
    (value : string) (label : option string) :
  value ≠ "" →
  let f := fieldKey (descriptorOf e) in
  let v := fieldView NumberToString legacyDateParse LocalTZA
             (handleExternalLookupSelect f value label m) e in
  View.externalLookupHasSelection v = true ∧
  View.externalLookupInputValue v = orString label value ∧
  View.externalLookupDropdownOpen v = false ∧
  View.externalOptions v = [].
Proof.
  intros Hvalue f v.
  assert (Hsel : View.externalLookupHasSelection v = true).
  { apply (hasSelection_text _ _ _ _ _ value); [|done].
    unfold getProp. cbn. fold f. by rewrite lookup_insert_eq. }
  split; [done|].
  assert (Hlabel : orString label value ≠ "").
  { unfold orString. destruct label as [s|]; [|done]. by case_decide. }
  split; [|split].
  - revert Hsel. unfold v, fieldView. cbv zeta.
    cbn [View.externalLookupHasSelection View.externalLookupInputValue].
    intros ->. cbn. fold f. rewrite lookup_insert_eq. cbn.
    by rewrite bool_decide_eq_false_2.
  - unfold v, fieldView. cbn. fold f.
    rewrite lookup_insert_eq. by rewrite bool_decide_eq_false_2.
  - unfold v, fieldView. cbn. fold f. by rewrite lookup_insert_eq.
Qed.

(** The theorem at the owner lookup, once "Aaron" is picked. *)
Lemma lookup_view_after_selection_witness :
  View.externalLookupHasSelection
    (fieldView plainNumber noLegacyDates utc
       (handleExternalLookupSelect "OwnerId" "005A" (Some "Aaron") (modal ownerForm))
       ownerEdit) = true ∧
  View.externalLookupInputValue
    (fieldView plainNumber noLegacyDates utc
       (handleExternalLookupSelect "OwnerId" "005A" (Some "Aaron") (modal ownerForm))
       ownerEdit) = "Aaron".
Proof.
  assert (Hvalue : "005A" ≠ "") by discriminate.
  destruct (lookup_view_after_selection plainNumber noLegacyDates utc
              (modal ownerForm) ownerEdit "005A" (Some "Aaron") Hvalue)
    as (Hsel & Hinput & _).
  split; [exact Hsel|exact Hinput].
Defined.

(** A modal opened on a record shows, for a field that holds a text value
    and has a label among [lookupLabels], that label in its lookup input,
    as a selection. *)
Theorem opening_shows_lookup_labels
    (NumberToString : Q → string) (legacyDateParse : string → option Z)
    (LocalTZA : Z → Z) (record : gmap string JSVal) (obj : string)
    (fields : list FieldDef) (labels : gmap string string)
    (e : EditField) (s lbl : string) :
  record !! fieldKey (descriptorOf e) = Some (VStr s) → s ≠ "" →
  labels !! fieldKey (descriptorOf e) = Some lbl → lbl ≠ "" →
  let v := fieldView NumberToString legacyDateParse LocalTZA
             (connectedCallback (open record obj fields labels)) e in
  View.externalLookupHasSelection v = true ∧
  View.externalLookupInputValue v = lbl.
Proof.
  intros Hrec Hs Hlab Hlbl v.
  assert (Hsize : size labels ≠ 0%nat).
  { intros H0. apply map_size_empty_iff in H0. subst labels.
    by rewrite lookup_empty in Hlab. }
  assert (Hsel : View.externalLookupHasSelection v = true).
  { apply (hasSelection_text _ _ _ _ _ s); [|done].
    unfold getProp, connectedCallback, open. cbn.
    rewrite decide_False by done. cbn. by rewrite Hrec. }
  split; [done|].
  revert Hsel. unfold v, fieldView. cbv zeta.
  cbn [View.externalLookupHasSelection View.externalLookupInputValue].
  intros ->. unfold connectedCallback, open. cbn.
  rewrite decide_False by done. cbn.
  rewrite (lookup_union_Some_l _ _ _ _ Hlab). cbn.
  by rewrite bool_decide_eq_false_2.
Qed.

(** The theorem at a record whose owner is Aaron. *)
Lemma opening_shows_lookup_labels_witness :
  ownedRecord !! "OwnerId" = Some (VStr "005A") ∧
  ownerLabels !! "OwnerId" = Some "Aaron" ∧
  View.externalLookupInputValue
    (fieldView plainNumber noLegacyDates utc
       (connectedCallback (open ownedRecord "Account" [ownerField] ownerLabels))
       ownerEdit) = "Aaron".
Proof.
  assert (Hrec : ownedRecord !! fieldKey (descriptorOf ownerEdit) = Some (VStr "005A"))
    by reflexivity.
  assert (Hlab : ownerLabels !! fieldKey (descriptorOf ownerEdit) = Some "Aaron")
    by reflexivity.
  assert (Hs : "005A" ≠ "") by discriminate.
  assert (Hl : "Aaron" ≠ "") by discriminate.
  destruct (opening_shows_lookup_labels plainNumber noLegacyDates utc
              ownedRecord "Account" [ownerField] ownerLabels ownerEdit
              "005A" "Aaron" Hrec Hs Hlab Hl) as [_ Hinput].
  split; [exact Hrec|]. split; [exact Hlab|exact Hinput].
Defined.

(** The two columns of the form: the left one followed by the right one
    is the list of all fields, in order, and the left one holds as many
    fields as the right one, or one more. *)
Theorem fields_split_in_two_columns
    (NumberToString : Q → string) (legacyDateParse : string → option Z)
    (LocalTZA : Z → Z) (fields : list EditField) (m : Modal) :
  fieldsLeft NumberToString legacyDateParse LocalTZA fields m
    ++ fieldsRight NumberToString legacyDateParse LocalTZA fields m
    = fieldsWithValues NumberToString legacyDateParse LocalTZA fields m ∧
  (List.length (fieldsLeft NumberToString legacyDateParse LocalTZA fields m)
     = List.length (fieldsRight NumberToString legacyDateParse LocalTZA fields m) ∨
   List.length (fieldsLeft NumberToString legacyDateParse LocalTZA fields m)
     = S (List.length (fieldsRight NumberToString legacyDateParse LocalTZA fields m))).
Proof.
  unfold fieldsLeft, fieldsRight. cbv zeta.
  set (all := fieldsWithValues _ _ _ fields m).
  destruct (ceilDiv_half (Z.of_nat (List.length all)) ltac:(lia)) as [Hmid Hhalf].
  rewrite slice_take, sliceFrom_drop by done.
  split; [apply take_drop|].
  rewrite length_take, length_drop. lia.
Qed.

(** In edit mode the title is the name being edited; once the name is
    cleared it is the name of the record as loaded, and "Record" when that
    has none. *)
Theorem modalTitle_follows_name
    (NumberToString : Q → string) (m : Modal) (s n : string) :
  isEditMode m = true →
  (s ≠ "" → modalTitle NumberToString (handleFieldChange "Name" (VStr s) m) = s) ∧
  (getProp (record m) "Name" = VStr n → n ≠ "" →
   modalTitle NumberToString (handleFieldChange "Name" (VStr "") m) = n) ∧
  (truthy (getProp (record m) "Name") = false →
   modalTitle NumberToString (handleFieldChange "Name" (VStr "") m) = "Record").
Proof.
  intros Hmode. unfold modalTitle, handleFieldChange.
  change (isEditMode (setRecordData _ m)) with (isEditMode m). rewrite Hmode.
  cbn [recordData record setRecordData]. rewrite !getProp_insert.
  cbn [truthy]. split; [|split].
  - intros Hs. by rewrite decide_False.
  - intros Hn Hne. rewrite decide_True by done. rewrite Hn. cbn [truthy].
    by rewrite decide_False.
  - intros Hn. rewrite decide_True by done. by rewrite Hn.
Qed.

(** The theorem at the sample session: the record is named "Acme". *)
Lemma modalTitle_follows_name_witness :
  isEditMode sampleSession = true ∧
  modalTitle plainNumber (handleFieldChange "Name" (VStr "Acme Ltd") sampleSession)
    = "Acme Ltd" ∧
  modalTitle plainNumber (handleFieldChange "Name" (VStr "") sampleSession) = "Acme".
Proof.
  assert (Hmode : isEditMode sampleSession = true) by reflexivity.
  destruct (modalTitle_follows_name plainNumber sampleSession "Acme Ltd" "Acme" Hmode)
    as (Htyped & Hcleared & _).
  split; [exact Hmode|]. split.
  - apply Htyped. discriminate.
  - apply Hcleared; [reflexivity|discriminate].
Defined.

End FormView.
(** ** The dropdown of a lookup after a blur *)

Module Dropdown.

Import JS RecordModal ModalView SortFacts.

Lemma fire_keeps_closed f t w :
  externalLookupDropdownOpen (modal w) !! f = Some false →
  externalLookupDropdownOpen (modal (fire t w)) !! f = Some false.
Proof.
  intros H. unfold fire. destruct (timerKind t).
  - by case_decide.
  - cbn. destruct (decide (timerField t = f)) as [->|Hne].
    + by rewrite lookup_insert_eq.
    + by rewrite lookup_insert_ne.
Qed.

Lemma fire_closes f t w :
  timerKind t = BlurTimer → timerField t = f →
  externalLookupDropdownOpen (modal (fire t w)) !! f = Some false.
Proof.
  intros Hk <-. unfold fire. rewrite Hk. cbn. by rewrite lookup_insert_eq.
Qed.

Lemma fires_keep_closed f ts w :
  externalLookupDropdownOpen (modal w) !! f = Some false →
  externalLookupDropdownOpen (modal (foldl (λ w t, fire t w) w ts)) !! f = Some false.
Proof.
  revert w. induction ts as [|t r IH]; intros w H; simpl; [done|].
  by apply IH, fire_keeps_closed.
Qed.

Lemma fires_close f ts t w :
  t ∈ ts → timerKind t = BlurTimer → timerField t = f →
  externalLookupDropdownOpen (modal (foldl (λ w t, fire t w) w ts)) !! f = Some false.
Proof.
  revert w. induction ts as [|t' r IH]; intros w Hin Hk Hf; simpl.
  - by apply elem_of_nil in Hin.
  - apply elem_of_cons in Hin as [<-|Hin].
    + by apply fires_keep_closed, fire_closes.
    + by apply IH.
Qed.

(** When a blur timer of the field is due, the dropdown of the field is
    closed once the time has passed. *)
Lemma advance_closes f dt w :
  blurDue f dt w →
  externalLookupDropdownOpen (modal (advance dt w)) !! f = Some false.
Proof.
  intros (t & Hin & Hk & Hf & Hdue). unfold advance. cbv zeta.
  apply (fires_close f _ t); [|done|done].
  rewrite sort_perm. apply list_elem_of_In, filter_In.
  split; [by apply list_elem_of_In|].
  unfold isDue. by apply Z.leb_le.
Qed.

(** A lookup input that loses the focus has its dropdown closed 200 ms
    later, not before: once that time has passed the dropdown of the field
    is closed, and until then, no other timer pending, the component is as
    it was. *)
Theorem blur_closes_dropdown_after_delay (w : World) (f : string) (dt : Z) :
  (200 <= dt →
   externalLookupDropdownOpen (modal (run [Blur f; Elapse dt] w)) !! f = Some false) ∧
  (dt < 200 → timers w = [] → modal (run [Blur f; Elapse dt] w) = modal w).
Proof.
  split.
  - intros Hdt. change (run [Blur f; Elapse dt] w)
      with (advance dt (handleExternalLookupBlur f w)).
    apply advance_closes.
    exists (mkTimer (nextTimerId w) (now w + 200) BlurTimer f "").
    unfold handleExternalLookupBlur. cbn. split; [|repeat split; lia].
    apply elem_of_app. right. by apply list_elem_of_singleton.
  - intros Hdt Hts. change (run [Blur f; Elapse dt] w)
      with (advance dt (handleExternalLookupBlur f w)).
    unfold advance, handleExternalLookupBlur. cbv zeta. cbn [timers now modal].
    rewrite Hts. cbn [app List.filter]. unfold isDue. cbn [due].
    destruct (Z.leb_spec (now w + 200) (now w + dt)) as [?|_]; [lia|].
    reflexivity.
Qed.

End Dropdown.
(** ** What the handlers leave alone *)

Module Frame.

Import JS RecordModal ModalView ModalExamples FormExamples.

Section Engine.

Variable NumberToString : Q → string.
Variable legacyDateParse : string → option Z.
Variable LocalTZA : Z → Z.

Local Abbreviation fieldView := (fieldView NumberToString legacyDateParse LocalTZA).
Local Abbreviation handleSave := (handleSave NumberToString legacyDateParse LocalTZA).

(** The view of a field reads the state of the component at the name of
    the field only. *)
Lemma fieldView_agree m m' e :
  let k := fieldKey (descriptorOf e) in
  recordData m !! k = recordData m' !! k →
  externalLookupOptionsMap m !! k = externalLookupOptionsMap m' !! k →
  externalLookupDisplayMap m !! k = externalLookupDisplayMap m' !! k →
  externalLookupSearchTerm m !! k = externalLookupSearchTerm m' !! k →
  externalLookupDropdownOpen m !! k = externalLookupDropdownOpen m' !! k →
  fieldView m e = fieldView m' e.
Proof.
  intros k H1 H2 H3 H4 H5. unfold ModalView.fieldView, getProp. cbv zeta.
  fold k. by rewrite H1, H2, H3, H4, H5.
Qed.

Lemma handleSave_writes_flags_only m t :
  ∃ e b, fst (fst (handleSave m t)) = setErrorMessage e (setSaveLoading b m).
Proof.
  assert (Hid : ∀ e, setErrorMessage e m
                     = setErrorMessage e (setSaveLoading (saveLoading m) m)) by done.
  unfold RecordModal.handleSave. cbn [objectApiName record setErrorMessage].
  case_decide; [eexists _, _; apply Hid|].
  change (isEditMode (setErrorMessage "" m)) with (isEditMode m).
  destruct (isEditMode m && _); [eexists _, _; apply Hid|].
  destruct (validate _ _ _) as [[t' v] msg].
  destruct msg as [e|], v; cbn [negb fst].
  all: try (eexists _, _; apply Hid).
  - destruct (_ && _); [eexists _, _; apply Hid|].
    destruct (isEditMode _); eexists _, true; reflexivity.
  - destruct (_ && _); [eexists _, _; apply Hid|].
    destruct (isEditMode _); eexists _, true; reflexivity.
Qed.

End Engine.

Lemma fire_keeps_form t w :
  let m := modal w in
  let m' := modal (fire t w) in
  _initialRecordValues m' = _initialRecordValues m ∧ record m' = record m ∧
  editFields m' = editFields m ∧ objectApiName m' = objectApiName m ∧
  lookupLabels m' = lookupLabels m ∧ recordData m' = recordData m ∧
  saveLoading m' = saveLoading m ∧ errorMessage m' = errorMessage m.
Proof.
  unfold fire. destruct (timerKind t); [|done]. by case_decide.
Qed.

Lemma fires_keep_form ts w :
  let m := modal w in
  let m' := modal (foldl (λ w t, fire t w) w ts) in
  _initialRecordValues m' = _initialRecordValues m ∧ record m' = record m ∧
  editFields m' = editFields m ∧ objectApiName m' = objectApiName m ∧
  lookupLabels m' = lookupLabels m ∧ recordData m' = recordData m ∧
  saveLoading m' = saveLoading m ∧ errorMessage m' = errorMessage m.
Proof.
  revert w. induction ts as [|t r IH]; intros w; simpl; [done|].
  destruct (IH (fire t w)) as (H1 & H2 & H3 & H4 & H5 & H6 & H7 & H8).
  destruct (fire_keeps_form t w) as (G1 & G2 & G3 & G4 & G5 & G6 & G7 & G8).
  simpl in *. by rewrite H1, H2, H3, H4, H5, H6, H7, H8.
Qed.

Lemma step_keeps_form w e :
  let m := modal w in
  let m' := modal (step w e) in
  _initialRecordValues m' = _initialRecordValues m ∧ record m' = record m ∧
  editFields m' = editFields m ∧ objectApiName m' = objectApiName m ∧
  lookupLabels m' = lookupLabels m ∧
  saveLoading m' = saveLoading m ∧ errorMessage m' = errorMessage m.
Proof.
  destruct e; simpl; try done.
  - unfold advance. cbv zeta.
    match goal with |- context [foldl _ ?w0 ?ts] =>
      destruct (fires_keep_form ts w0) as (H1 & H2 & H3 & H4 & H5 & _ & H7 & H8) end.
    simpl in *. by rewrite H1, H2, H3, H4, H5, H7, H8.
  - unfold deliver. destruct (List.find _ _); [|done]. by destruct res.
Qed.

(** The snapshot of the record is written when the modal opens and never
    after: whatever the user types, picks, clears or changes, whatever
    timers fire and searches are answered, and whatever [handleSave] does,
    the snapshot, the record, the list of fields, the object type and the
    mode stay as they were; [handleSave] changes nothing but the error
    message and the saving flag. *)
Theorem snapshot_is_never_rewritten
    (NumberToString : Q → string) (legacyDateParse : string → option Z)
    (LocalTZA : Z → Z) (es : list Event) (w : World) (t : Template) :
  let m := modal (run es w) in
  let saved := fst (fst (handleSave NumberToString legacyDateParse LocalTZA m t)) in
  (_initialRecordValues m = _initialRecordValues (modal w) ∧
   record m = record (modal w) ∧
   editFields m = editFields (modal w) ∧
   objectApiName m = objectApiName (modal w) ∧
   isEditMode m = isEditMode (modal w)) ∧
  (_initialRecordValues saved = _initialRecordValues m ∧
   recordData saved = recordData m ∧
   record saved = record m ∧
   editFields saved = editFields m ∧
   externalLookupDisplayMap saved = externalLookupDisplayMap m ∧
   externalLookupSearchTerm saved = externalLookupSearchTerm m ∧
   externalLookupOptionsMap saved = externalLookupOptionsMap m).
Proof.
  intros m saved. split.
  - unfold m, run. clear saved m. revert w.
    induction es as [|e r IH]; intros w; simpl; [done|].
    destruct (IH (step w e)) as (H1 & H2 & H3 & H4 & H5).
    destruct (step_keeps_form w e) as (G1 & G2 & G3 & G4 & _).
    simpl in *. unfold isEditMode in *. by rewrite H1, H2, H3, H4, G1, G2, G3, G4.
  - destruct (handleSave_writes_flags_only NumberToString legacyDateParse LocalTZA m t)
      as (e & b & Hs).
    unfold saved. by rewrite Hs.
Qed.

(** A lookup handler of one field leaves the view of every field of
    another name as it was. *)
Theorem lookup_handlers_leave_other_fields
    (NumberToString : Q → string) (legacyDateParse : string → option Z)
    (LocalTZA : Z → Z) (w : World) (e : EditField) (f : string)
    (text value : string) (label : option string) (x : JSVal) (ev : Event) :
  fieldKey (descriptorOf e) ≠ f →
  ev ∈ [Input f text; Select f value label; Clear f; Change f x] →
  fieldView NumberToString legacyDateParse LocalTZA (modal (step w ev)) e
    = fieldView NumberToString legacyDateParse LocalTZA (modal w) e.
Proof.
  intros Hne Hev. apply fieldView_agree.
  all: repeat (apply elem_of_cons in Hev as [->|Hev]);
    try (by apply elem_of_nil in Hev).
  all: cbn; by rewrite ?lookup_insert_ne.
Qed.

(** The theorem at the owner lookup: typing in it leaves the view of the
    name as it was. *)
Lemma lookup_handlers_leave_other_fields_witness :
  fieldKey (descriptorOf nameEdit) = "Name" ∧
  fieldView plainNumber noLegacyDates utc
    (modal (step ownerForm (Input "OwnerId" "a"))) nameEdit
    = fieldView plainNumber noLegacyDates utc (modal ownerForm) nameEdit.
Proof.
  split; [reflexivity|].
  apply (lookup_handlers_leave_other_fields plainNumber noLegacyDates utc
           ownerForm nameEdit "OwnerId" "a" "" None VNull (Input "OwnerId" "a")).
  - discriminate.
  - apply elem_of_cons. left. reflexivity.
Defined.

End Frame.

(** ** The page of the table that is shown *)

Module PageView.

Import JS RecordsViewer ViewerPage ViewerExamples.

(** A slice that starts at a position that is not negative. *)
Lemma slice_page {A} (a : list A) (start size : Z) :
  0 <= start → 0 <= size →
  JSArray.slice a start (start + size)
    = take (Z.to_nat size) (drop (Z.to_nat start) a).
Proof.
  intros Hs Hn. unfold JSArray.slice, relIndex. cbv zeta.
  destruct (Z.ltb_spec start 0) as [?|_]; [lia|].
  destruct (Z.ltb_spec (start + size) 0) as [?|_]; [lia|].
  set (len := Z.of_nat (List.length a)).
  destruct (Z.le_gt_cases start len) as [Hle|Hgt].
  - rewrite (Z.min_l start) by done.
    destruct (Z.le_gt_cases (start + size) len) as [Hle2|Hgt2].
    + rewrite Z.min_l by done. f_equal. lia.
    + rewrite Z.min_r by lia.
      rewrite !take_ge; [done| |]; rewrite length_drop; unfold len in *; lia.
  - rewrite !Z.min_r by lia. rewrite Z.sub_diag. simpl.
    rewrite (drop_ge a (Z.to_nat start)) by (unfold len in *; lia).
    by rewrite take_nil.
Qed.

Lemma imap_fst {A B} (g : nat → B) (l : list A) :
  map fst (imap (λ i x, (x, g i)) l) = l.
Proof.
  revert g. induction l as [|x r IH]; intros g; simpl; [done|].
  f_equal. apply (IH (g ∘ S)).
Qed.

Lemma displayTableData_rows v :
  1 <= currentPage v → 0 < pageSize v →
  map fst (displayTableData v)
    = take (Z.to_nat (pageSize v))
        (drop (Z.to_nat ((currentPage v - 1) * pageSize v)) (tableData v)).
Proof.
  intros Hp Hs. unfold displayTableData. cbv zeta.
  rewrite <- (slice_page (tableData v) ((currentPage v - 1) * pageSize v)
                (pageSize v)) by nia.
  unfold JSArray.slice, totalRecords. cbv zeta.
  apply imap_fst.
Qed.

Lemma paginatedData_rows v :
  1 <= currentPage v → 0 < pageSize v →
  paginatedData v
    = take (Z.to_nat (pageSize v))
        (drop (Z.to_nat ((currentPage v - 1) * pageSize v)) (tableData v)).
Proof.
  intros Hp Hs. unfold paginatedData, totalRecords.
  destruct (Z.eqb_spec (Z.of_nat (List.length (tableData v))) 0) as [H0|_].
  - destruct (tableData v); [|simpl in H0; lia]. by rewrite drop_nil, take_nil.
  - cbv zeta. apply slice_page; nia.
Qed.

(** Pages of [size] rows, one after the other, make up the table. *)
Lemma chunks_concat {A} (size : nat) (n : nat) (l : list A) :
  (List.length l ≤ n * size)%nat →
  concat (map (λ i, take size (drop (i * size) l)) (seq 0 n)) = l.
Proof.
  revert l. induction n as [|n IH]; intros l Hl.
  - destruct l; [done|simpl in Hl; lia].
  - rewrite <- cons_seq, <- fmap_S_seq. simpl. rewrite drop_0.
    transitivity (take size l ++ drop size l); [|apply take_drop]. f_equal.
    rewrite <- list_fmap_compose.
    etrans; [|apply (IH (drop size l)); rewrite length_drop; lia].
    f_equal. apply list_fmap_ext. intros i x _. simpl.
    by rewrite drop_drop.
Qed.

(** Each row shown is numbered by its position in the table, counted from
    one, and a page shows at most [pageSize] rows. *)
Theorem displayed_rows_are_numbered_by_position
    (v : Viewer) (i : nat) (row : Row) (n : Z) :
  1 <= currentPage v → 0 < pageSize v →
  displayTableData v !! i = Some (row, n) →
  n = (currentPage v - 1) * pageSize v + Z.of_nat i + 1 ∧
  tableData v !! Z.to_nat (n - 1) = Some row ∧
  Z.of_nat i < pageSize v.
Proof.
  intros Hp Hs Hrow.
  pose proof (displayTableData_rows v Hp Hs) as Hrows.
  assert (Hn : n = (currentPage v - 1) * pageSize v + Z.of_nat i + 1).
  { unfold displayTableData in Hrow. cbv zeta in Hrow.
    rewrite list_lookup_imap in Hrow.
    destruct (_ !! i); simplify_eq/=. done. }
  assert (Hfst : map fst (displayTableData v) !! i = Some row).
  { rewrite list_lookup_fmap, Hrow. done. }
  rewrite Hrows in Hfst.
  apply lookup_take_Some in Hfst as [Hfst Hi].
  rewrite lookup_drop in Hfst.
  split; [done|]. split; [|lia].
  rewrite <- Hfst. f_equal. nia.
Qed.

(** The theorem on the last page of the table of 205 rows, 50 to a page:
    its first row is row 201. *)
Lemma displayed_rows_are_numbered_by_position_witness :
  currentPage loadedTable = 5 ∧ pageSize loadedTable = 50 ∧
  displayTableData loadedTable !! 0%nat = Some (∅, 201) ∧
  tableData loadedTable !! 200%nat = Some ∅.
Proof.
  assert (Hp : 1 <= currentPage loadedTable) by (vm_compute; discriminate).
  assert (Hs : 0 < pageSize loadedTable) by (vm_compute; reflexivity).
  assert (Hrow : displayTableData loadedTable !! 0%nat = Some (∅, 201))
    by (vm_compute; reflexivity).
  destruct (displayed_rows_are_numbered_by_position loadedTable 0 ∅ 201 Hp Hs Hrow)
    as (_ & Hpos & _).
  split; [reflexivity|]. split; [reflexivity|]. split; [exact Hrow|exact Hpos].
Defined.

(** The pages of the table, from the first to the last, hold the rows of
    the table in order, each row on exactly one page. *)
Theorem pages_partition_table (v : Viewer) :
  0 < pageSize v →
  concat (map (λ p, paginatedData (setCurrentPage p v)) (pagesUpTo (totalPages v)))
    = tableData v.
Proof.
  intros Hs. unfold pagesUpTo. rewrite map_map.
  set (size := Z.to_nat (pageSize v)).
  rewrite (map_ext _ (λ i, take size (drop (i * size) (tableData v)))).
  - apply chunks_concat. unfold totalPages, totalRecords, size.
    destruct (Z.eqb_spec (Z.of_nat (List.length (tableData v))) 0) as [H0|Hne];
      simpl; [lia|].
    destruct (Z.leb_spec (pageSize v) 0) as [?|_]; [lia|].
    pose proof (Paging.ceilDiv_bounds (Z.of_nat (List.length (tableData v)))
                  (pageSize v) Hs) as [_ Hb].
    nia.
  - intros i. rewrite paginatedData_rows; cbn [currentPage pageSize setCurrentPage];
      [|lia|done].
    cbn [tableData setCurrentPage]. unfold size. do 2 f_equal. nia.
Qed.

(** The theorem on the table of 205 rows, 50 to a page. *)
Lemma pages_partition_table_witness :
  pageSize loadedTable = 50 ∧ totalPages loadedTable = 5 ∧
  concat (map (λ p, paginatedData (setCurrentPage p loadedTable))
            (pagesUpTo (totalPages loadedTable)))
    = tableData loadedTable.
Proof.
  assert (Hs : 0 < pageSize loadedTable) by (vm_compute; reflexivity).
  split; [reflexivity|]. split; [vm_compute; reflexivity|].
  exact (pages_partition_table loadedTable Hs).
Defined.

(** On a page within the page count of a table that has rows, the rows
    shown are those of [paginatedData]; they are the rows numbered
    [pageStart] to [pageEnd], at least one and at most [pageSize] of
    them. *)
Theorem page_shows_rows_from_start_to_end (v : Viewer) :
  0 < pageSize v → 1 <= currentPage v <= totalPages v → 0 < totalRecords v →
  map fst (displayTableData v) = paginatedData v ∧
  Z.of_nat (List.length (paginatedData v)) = pageEnd v - pageStart v + 1 ∧
  1 <= Z.of_nat (List.length (paginatedData v)) <= pageSize v ∧
  1 <= pageStart v <= pageEnd v ∧ pageEnd v <= totalRecords v.
Proof.
  intros Hs [Hp1 Hp2] Hrows.
  rewrite displayTableData_rows, paginatedData_rows by done.
  split; [done|].
  rewrite length_take, length_drop.
  unfold pageStart, pageEnd, totalPages in *.
  destruct (Z.eqb_spec (totalRecords v) 0) as [?|_]; [lia|].
  destruct (Z.leb_spec (pageSize v) 0) as [?|_]; [lia|]. simpl in Hp2.
  pose proof (Paging.ceilDiv_bounds (totalRecords v) (pageSize v) Hs) as [Hlow _].
  unfold totalRecords in *.
  set (len := List.length (tableData v)) in *.
  set (p := currentPage v) in *. set (size := pageSize v) in *.
  assert (Hstart : (p - 1) * size < Z.of_nat len) by nia.
  assert (H0 : 0 <= (p - 1) * size) by nia.
  replace (p * size) with ((p - 1) * size + size) by lia.
  lia.
Qed.

(** The theorem on the last page of the table of 205 rows: it shows the
    five rows 201 to 205. *)
Lemma page_shows_rows_from_start_to_end_witness :
  pageStart loadedTable = 201 ∧ pageEnd loadedTable = 205 ∧
  Z.of_nat (List.length (paginatedData loadedTable))
    = pageEnd loadedTable - pageStart loadedTable + 1.
Proof.
  assert (Hs : 0 < pageSize loadedTable) by (vm_compute; reflexivity).
  assert (Hp : 1 <= currentPage loadedTable <= totalPages loadedTable)
    by (split; vm_compute; discriminate).
  assert (Hrows : 0 < totalRecords loadedTable) by (vm_compute; reflexivity).
  destruct (page_shows_rows_from_start_to_end loadedTable Hs Hp Hrows)
    as (_ & Hlen & _).
  split; [vm_compute; reflexivity|]. split; [vm_compute; reflexivity|exact Hlen].
Defined.

(** Moving between pages: from a page within the page count, each of the
    four buttons leads to a page within the page count and leaves the
    rows and the page size alone; next then previous, and previous then
    next, lead back to the same state when the first move is possible;
    on the first page the previous button is disabled, on the last page
    the next one. *)
Theorem page_navigation_stays_in_range (v : Viewer) :
  1 <= currentPage v <= totalPages v →
  (∀ v', v' ∈ [handleFirstPage v; handlePrevPage v; handleNextPage v; handleLastPage v] →
     1 <= currentPage v' <= totalPages v' ∧
     tableData v' = tableData v ∧ pageSize v' = pageSize v) ∧
  (canGoNext v = true → handlePrevPage (handleNextPage v) = v) ∧
  (canGoPrev v = true → handleNextPage (handlePrevPage v) = v) ∧
  prevDisabled (handleFirstPage v) = true ∧
  nextDisabled (handleLastPage v) = true.
Proof.
  intros [H1 H2].
  pose proof (Paging.totalPages_pos v) as Hpos.
  split; [|split; [|split; [|split]]].
  - intros v' Hv'. repeat (apply elem_of_cons in Hv' as [->|Hv']).
    + unfold handleFirstPage. cbn.
      change (totalPages (setCurrentPage 1 v)) with (totalPages v). split; [lia|done].
    + unfold handlePrevPage, canGoPrev.
      destruct (Z.gtb_spec (currentPage v) 1); [|done]. cbn.
      change (totalPages (setCurrentPage _ v)) with (totalPages v). split; [lia|done].
    + unfold handleNextPage, canGoNext.
      destruct (Z.ltb_spec (currentPage v) (totalPages v)); [|done]. cbn.
      change (totalPages (setCurrentPage _ v)) with (totalPages v). split; [lia|done].
    + unfold handleLastPage. cbn.
      change (totalPages (setCurrentPage _ v)) with (totalPages v). split; [lia|done].
    + by apply elem_of_nil in Hv'.
  - unfold handleNextPage, handlePrevPage, canGoNext, canGoPrev. intros ->.
    cbn [currentPage setCurrentPage].
    destruct (Z.gtb_spec (currentPage v + 1) 1) as [_|?]; [|lia].
    destruct v. unfold setCurrentPage. cbn. f_equal. lia.
  - unfold handleNextPage, handlePrevPage, canGoNext, canGoPrev. intros ->.
    change (totalPages (setCurrentPage _ v)) with (totalPages v).
    cbn [currentPage setCurrentPage].
    destruct (Z.ltb_spec (currentPage v - 1) (totalPages v)) as [_|?]; [|lia].
    destruct v. unfold setCurrentPage. cbn. f_equal. lia.
  - reflexivity.
  - unfold nextDisabled, canGoNext, handleLastPage.
    change (totalPages (setCurrentPage _ v)) with (totalPages v).
    cbn [currentPage setCurrentPage]. by rewrite Z.ltb_irrefl.
Qed.

(** The theorem on the last page of the table of 205 rows. *)
Lemma page_navigation_stays_in_range_witness :
  currentPage loadedTable = 5 ∧ totalPages loadedTable = 5 ∧
  canGoPrev loadedTable = true ∧
  handleNextPage (handlePrevPage loadedTable) = loadedTable.
Proof.
  assert (Hp : 1 <= currentPage loadedTable <= totalPages loadedTable)
    by (split; vm_compute; discriminate).
  assert (Hprev : canGoPrev loadedTable = true) by (vm_compute; reflexivity).
  destruct (page_navigation_stays_in_range loadedTable Hp) as (_ & _ & Hback & _).
  split; [reflexivity|]. split; [vm_compute; reflexivity|].
  split; [exact Hprev|exact (Hback Hprev)].
Defined.

(** A successful load shows the configured columns, in order, followed by
    one column of row actions, Edit and Delete, also when the response
    brings no columns; the table is on its first page and unsorted. *)
Theorem loaded_table_ends_with_row_actions
    (v : Viewer) (records : option (list Row)) (columns : option (list RawColumn))
    (err : option string) :
  let v' := loadRecordsDone (LoadResponse true records columns err) v in
  List.length (tableColumns v') = S (List.length (default [] columns)) ∧
  last (tableColumns v')
    = Some (ActionColumn [("Edit", "edit"); ("Delete", "delete")]) ∧
  (∀ i col, default [] columns !! i = Some col →
            tableColumns v' !! i = Some (buildColumn col) ∧
            ∀ actions, buildColumn col ≠ ActionColumn actions) ∧
  tableData v' = default [] records ∧
  currentPage v' = 1 ∧ 1 <= totalPages v' ∧
  sortedBy v' = "" ∧ sortedDirection v' = "asc" ∧ isLoading v' = false.
Proof.
  intros v'. unfold v', loadRecordsDone, buildTableColumns.
  cbn [tableColumns tableData currentPage sortedBy sortedDirection isLoading
       setSort setCurrentPage setTable setIsLoading].
  split; [rewrite length_app, length_map; simpl; lia|].
  split; [by rewrite last_snoc|].
  split.
  { intros i col Hcol. split.
    - rewrite lookup_app_l by (rewrite length_map; by apply lookup_lt_Some in Hcol).
      by rewrite list_lookup_fmap, Hcol.
    - intros actions. unfold buildColumn. by destruct (colIsLink col). }
  repeat split. apply Paging.totalPages_pos.
Qed.

End PageView.
(** ** The page index in every state *)

Module PageInvariant.

Import JS ViewerPage RecordsViewer ViewerExamples SortFacts.

Lemma totalPages_rows v v' :
  List.length (tableData v') = List.length (tableData v) →
  pageSize v' = pageSize v → totalPages v' = totalPages v.
Proof. intros Hl Hs. unfold totalPages, totalRecords. by rewrite Hl, Hs. Qed.

Lemma option_sizes value :
  value ∈ map snd LIMIT_OPTIONS →
  0 < match parseInt value with
      | Some n => if n =? 0 then 25 else n
      | None => 25
      end.
Proof.
  intros H. unfold LIMIT_OPTIONS in H. simpl in H.
  repeat (apply elem_of_cons in H as [->|H]; [by vm_compute|]).
  by apply elem_of_nil in H.
Qed.

Lemma step_inRange S v e : regular e = true → inRange v → inRange (step S v e).
Proof.
  intros He [Hs [H1 H2]]. unfold inRange.
  pose proof (Paging.totalPages_pos v) as Hpos.
  destruct e as [value| | | | |f d|value| |r|rid confirmed|r| ]; simpl in *.
  - apply bool_decide_eq_true in He. pose proof (option_sizes value He) as Hn.
    unfold handlePageSizeChange.
    set (n := match parseInt value with
              | Some n => if n =? 0 then 25 else n
              | None => 25
              end) in *.
    destruct (n =? pageSize v); [done|].
    pose proof (Paging.maxPage_totalPages (setPageSize n v) ltac:(simpl; lia)) as Hmax.
    cbn [currentPage setCurrentPage setPageSize pageSize] in *.
    change (totalPages (setCurrentPage _ (setPageSize n v)))
      with (totalPages (setPageSize n v)).
    change (totalRecords (setPageSize n v)) with (totalRecords v) in *.
    lia.
  - unfold handleFirstPage. cbn.
    change (totalPages (setCurrentPage _ v)) with (totalPages v). lia.
  - unfold handlePrevPage, canGoPrev.
    destruct (Z.gtb_spec (currentPage v) 1); [|done]. cbn.
    change (totalPages (setCurrentPage _ v)) with (totalPages v). lia.
  - unfold handleNextPage, canGoNext.
    destruct (Z.ltb_spec (currentPage v) (totalPages v)); [|done]. cbn.
    change (totalPages (setCurrentPage _ v)) with (totalPages v). lia.
  - unfold handleLastPage. cbn.
    change (totalPages (setCurrentPage _ v)) with (totalPages v). lia.
  - unfold handleSort. destruct (_ || _); [done|]. cbn.
    rewrite (totalPages_rows v); [done| |done]. cbn.
    apply Permutation_length, sort_perm.
  - done.
  - unfold loadRecords. by case_decide.
  - destruct r as [success recs cols err|b m]; [|done]. simpl in He. subst success.
    unfold loadRecordsDone. cbn. split; [done|]. split; [done|].
    apply Paging.totalPages_pos.
  - unfold handleDelete. destruct (_ || _); [done|]. by destruct confirmed.
  - unfold handleDeleteDone. destruct r as [[] ?|? ?]; simpl; try done.
    unfold loadRecords. simpl. by case_decide.
  - done.
Qed.

(** In every state the component reaches from its creation, by events
    whose page sizes are among the options offered and whose loads
    succeed, the page size is positive and the current page lies between
    1 and the page count. *)
Theorem page_index_is_always_in_range
    (StringToNumber : string → Number) (es : list Event) (obj : string) :
  forallb regular es = true →
  0 < pageSize (run StringToNumber es (create obj)) ∧
  1 <= currentPage (run StringToNumber es (create obj))
    <= totalPages (run StringToNumber es (create obj)).
Proof.
  intros Hes.
  assert (Hinit : inRange (create obj)) by (by vm_compute).
  unfold run. revert Hinit Hes. generalize (create obj).
  induction es as [|e r IH]; intros v Hv Hes; simpl; [done|].
  simpl in Hes. apply andb_true_iff in Hes as [He Hr].
  apply IH; [|done]. by apply step_inRange.
Qed.

(** The theorem on the table of 205 rows shown on its last page. *)
Lemma page_index_is_always_in_range_witness :
  forallb regular onLastPage = true ∧
  pageSize (run (λ _, NaN) onLastPage (create "Account")) = 50 ∧
  1 <= currentPage (run (λ _, NaN) onLastPage (create "Account"))
    <= totalPages (run (λ _, NaN) onLastPage (create "Account")).
Proof.
  assert (Hes : forallb regular onLastPage = true) by (vm_compute; reflexivity).
  destruct (page_index_is_always_in_range (λ _, NaN) onLastPage "Account" Hes)
    as [_ Hrange].
  split; [exact Hes|]. split; [reflexivity|exact Hrange].
Defined.

End PageInvariant.

(** ** The debounce of the search box *)

Module SearchBox.

Import JS RecordsViewer ViewerPage ViewerExamples.

Lemma Armed_Tidy deadline p : Armed deadline p → Tidy p.
Proof.
  intros (Hn & id & Hts & Hreg & Hid). split; [done|]. right. by exists id, deadline.
Qed.

(** A change of the search text leaves exactly one timer pending. *)
Lemma change_arms value p :
  Tidy p →
  let p' := handleSearchChange value p in
  Armed (clock p + SEARCH_DEBOUNCE_MS) p' ∧
  sent p' = sent p ∧ clock p' = clock p ∧
  viewer p' = setSearchTerm (orString value "") (viewer p).
Proof.
  intros [Hn Hts]. unfold handleSearchChange. cbv zeta. cbn.
  split; [|done]. split; [done|]. exists (nextTimerId p). split; [|done].
  destruct Hts as [->|(id & deadline & -> & -> & Hid)].
  - by destruct (_searchTimeout p) as [[|?]|].
  - rewrite (proj2 (Nat.eqb_neq _ _) Hid). unfold clearTimeout. cbn.
    by rewrite Nat.eqb_refl.
Qed.

(** Before the deadline nothing happens. *)
Lemma search_timer_waits deadline dt p :
  Armed deadline p → clock p + dt < deadline →
  Armed deadline (advance dt p) ∧
  sent (advance dt p) = sent p ∧ viewer (advance dt p) = viewer p ∧
  clock (advance dt p) = clock p + dt.
Proof.
  intros (Hn & id & Hts & Hreg & Hid) Hdt. unfold advance. cbv zeta.
  rewrite Hts. cbn [List.filter]. unfold isDue. cbn [searchDue].
  destruct (Z.leb_spec deadline (clock p + dt)) as [?|_]; [lia|]. cbn.
  split; [|done]. split; [done|]. by exists id.
Qed.

(** At the deadline the timer fires: the component loads the records. *)
Lemma search_timer_fires deadline dt p :
  Armed deadline p → deadline <= clock p + dt →
  advance dt p =
    mkPage (fst (loadRecords (viewer p))) None (clock p + dt) (nextTimerId p) []
      (sent p ++ match snd (loadRecords (viewer p)) with
                 | Some c => [c]
                 | None => []
                 end).
Proof.
  intros (Hn & id & Hts & Hreg & Hid) Hdt. unfold advance. cbv zeta.
  rewrite Hts. cbn [List.filter]. unfold isDue. cbn [searchDue].
  destruct (Z.leb_spec deadline (clock p + dt)) as [_|?]; [|lia]. cbn.
  unfold fire. cbn. by destruct (loadRecords (viewer p)).
Qed.

(** Changes of the text that follow one another within the debounce
    window load nothing. *)
Lemma search_typing_loads_nothing texts p :
  Tidy p → forallb shortPause texts = true →
  Tidy (run (typing texts) p) ∧
  sent (run (typing texts) p) = sent p ∧
  objectApiName (viewer (run (typing texts) p)) = objectApiName (viewer p).
Proof.
  revert p. induction texts as [|[text pause] r IH]; intros p Hk Hp; [done|].
  simpl in Hp. apply andb_true_iff in Hp as [Hp Hr].
  unfold shortPause in Hp. simpl in Hp. apply andb_true_iff in Hp as [Hp0 Hp1].
  apply Z.leb_le in Hp0. apply Z.ltb_lt in Hp1.
  destruct (change_arms (Some text) p Hk) as (Ha & Hs & Hc & Hv).
  set (p1 := handleSearchChange (Some text) p) in *.
  destruct (search_timer_waits _ pause p1 Ha ltac:(lia)) as (Ha2 & Hs2 & Hv2 & _).
  destruct (IH (advance pause p1) (Armed_Tidy _ _ Ha2) Hr) as (Hk3 & Hs3 & Ho3).
  change (run (typing ((text, pause) :: r)) p)
    with (run (typing r) (advance pause p1)).
  rewrite Hs3, Hs2, Hs, Ho3, Hv2, Hv. done.
Qed.

(** Changes of the search text that follow one another within the
    debounce window, followed by a pause of at least the window, load the
    records once, with the last text as search term (none when it is
    empty); no timer is left pending and the table shows as loading. *)
Theorem search_debounce_loads_once
    (p : Page) (texts : list (string * Z)) (last : string) (wait : Z) :
  Tidy p →
  forallb shortPause texts = true →
  SEARCH_DEBOUNCE_MS <= wait →
  objectApiName (viewer p) ≠ "" →
  let p' := run (typing texts ++ [SearchChange (Some last); Elapse wait]) p in
  sent p' = sent p ++ [getRecords (objectApiName (viewer p)) FETCH_LIMIT
                         (if decide (last = "") then None else Some last)] ∧
  timers p' = [] ∧ _searchTimeout p' = None ∧
  isLoading (viewer p') = true ∧ searchTerm (viewer p') = last.
Proof.
  intros Hk Hp Hwait Hobj p'.
  destruct (search_typing_loads_nothing texts p Hk Hp) as (Hk1 & Hs1 & Ho1).
  unfold p', run. rewrite foldl_app. fold (run (typing texts) p).
  set (p1 := run (typing texts) p) in *.
  change (foldl step p1 [SearchChange (Some last); Elapse wait])
    with (advance wait (handleSearchChange (Some last) p1)).
  destruct (change_arms (Some last) p1 Hk1) as (Ha & Hs & Hc & Hv).
  set (p2 := handleSearchChange (Some last) p1) in *.
  rewrite (search_timer_fires _ wait p2 Ha) by lia.
  assert (Hterm : orString (Some last) "" = last).
  { unfold orString. by case_decide. }
  cbn [sent timers _searchTimeout viewer].
  rewrite Hs, Hs1, Hv, Hterm. clearbody p2 p1. unfold loadRecords.
  cbn [objectApiName setSearchTerm]. rewrite Ho1.
  rewrite decide_False by done. cbn. by rewrite Ho1.
Qed.

(** The theorem on the search box of a table of accounts: "a", "ac" and
    "acme" typed a tenth of a second apart. *)
Lemma search_debounce_loads_once_witness :
  sent (run (typing [("a", 100); ("ac", 100)]
             ++ [SearchChange (Some "acme"); Elapse 400]) (boot (create "Account")))
    = [getRecords "Account" 200 (Some "acme")].
Proof.
  assert (Htidy : Tidy (boot (create "Account"))).
  { split; [discriminate|]. left. reflexivity. }
  assert (Hwait : SEARCH_DEBOUNCE_MS <= 400) by (vm_compute; discriminate).
  assert (Hobj : objectApiName (viewer (boot (create "Account"))) ≠ "")
    by discriminate.
  destruct (search_debounce_loads_once (boot (create "Account"))
              [("a", 100); ("ac", 100)] "acme" 400 Htidy eq_refl Hwait Hobj)
    as (Hsent & _).
  exact Hsent.
Defined.

End SearchBox.

(** ** Row actions *)

Module RowActions.

Import JS RecordsViewer ViewerPage ViewerExamples.

(** A row action issues a call only for a table with an object type and a
    row with an Id: [getRecordForEdit] for the actions viewRecord and
    edit, which leave the component as it is, and [deleteRecord] for the
    action delete, once the user has confirmed.  A delete that is not
    confirmed changes nothing. *)
Theorem row_action_needs_id_and_confirmation
    (actionName : string) (rowId : JSVal) (confirmed : bool) (v : Viewer)
    (call : ApexCall) :
  snd (handleRowAction actionName rowId confirmed v) = Some call →
  objectApiName v ≠ "" ∧ truthy rowId = true ∧
  (((actionName = "viewRecord" ∨ actionName = "edit") ∧
    call = getRecordForEdit (objectApiName v) rowId ∧
    fst (handleRowAction actionName rowId confirmed v) = v) ∨
   (actionName = "delete" ∧ confirmed = true ∧
    call = deleteRecord (objectApiName v) rowId ∧
    isLoading (fst (handleRowAction actionName rowId confirmed v)) = true)) ∧
  handleRowAction "delete" rowId false v = (v, None).
Proof.
  unfold handleRowAction. case_decide as Hobj; [done|].
  destruct (truthy rowId) eqn:Hid; cbn [negb].
  - intros H. split; [done|]. split; [done|]. split.
    + destruct (bool_decide (actionName = "viewRecord") || bool_decide (actionName = "edit"))
        eqn:Hedit.
      * left. simpl in H. split; [|split; [congruence|done]].
        apply orb_true_iff in Hedit as [E|E]; apply bool_decide_eq_true in E; auto.
      * case_bool_decide as Hdel; [|done]. right.
        unfold handleDelete in *. rewrite Hid in *.
        rewrite bool_decide_eq_false_2 in * by done. cbn [negb orb] in *.
        destruct confirmed; [|done]. simpl in H. split; [done|].
        split; [done|]. split; [congruence|done].
    + clear H. unfold handleDelete. rewrite Hid.
      rewrite (bool_decide_eq_false_2 ("delete" = "viewRecord")) by done.
      rewrite (bool_decide_eq_false_2 ("delete" = "edit")) by done.
      rewrite (bool_decide_eq_true_2 ("delete" = "delete")) by done.
      by rewrite (bool_decide_eq_false_2 (objectApiName v = "")) by done.
  - intros H. exfalso.
    destruct (bool_decide (actionName = "viewRecord") || bool_decide (actionName = "edit"));
      [done|].
    by case_bool_decide.
Qed.

(** The theorem at a confirmed delete of record 001. *)
Lemma row_action_needs_id_and_confirmation_witness :
  snd (handleRowAction "delete" (VStr "001") true (create "Account"))
    = Some (deleteRecord "Account" (VStr "001")) ∧
  handleRowAction "delete" (VStr "001") false (create "Account")
    = (create "Account", None).
Proof.
  assert (Hcall : snd (handleRowAction "delete" (VStr "001") true (create "Account"))
                  = Some (deleteRecord "Account" (VStr "001"))) by reflexivity.
  destruct (row_action_needs_id_and_confirmation "delete" (VStr "001") true
              (create "Account") _ Hcall) as (_ & _ & _ & Hdeclined).
  split; [exact Hcall|exact Hdeclined].
Defined.

End RowActions.

(** ** Saving twice *)

Module SaveAgain.

Import JS RecordModal ModalView.

Lemma setCustomValidityL_absorb fn a b l :
  setCustomValidityL fn a (setCustomValidityL fn b l) = setCustomValidityL fn a l.
Proof.
  induction l as [|e r IH]; simpl; [done|].
  case_bool_decide as He; simpl.
  - by rewrite bool_decide_eq_true_2.
  - rewrite bool_decide_eq_false_2 by done. by rewrite IH.
Qed.

Lemma setCustomValidityL_comm fn fn' a b l :
  fn ≠ fn' →
  setCustomValidityL fn a (setCustomValidityL fn' b l)
    = setCustomValidityL fn' b (setCustomValidityL fn a l).
Proof.
  intros Hne. induction l as [|e r IH]; simpl; [done|].
  destruct (bool_decide (dataField e = Some fn')) eqn:E'; simpl;
    destruct (bool_decide (dataField e = Some fn)) eqn:E; simpl;
    rewrite ?E, ?E'; try done.
  - apply bool_decide_eq_true in E, E'. congruence.
  - by rewrite IH.
Qed.

Lemma setCustomValidityL_absent fn msg l :
  List.find (λ e, bool_decide (dataField e = Some fn)) l = None →
  setCustomValidityL fn msg l = l.
Proof.
  induction l as [|e r IH]; simpl; [done|].
  destruct (bool_decide (dataField e = Some fn)); [done|].
  intros H. by rewrite IH.
Qed.

Lemma setCustomValidity_absorb fn a b t :
  setCustomValidity fn a (setCustomValidity fn b t) = setCustomValidity fn a t.
Proof. unfold setCustomValidity. simpl. by rewrite setCustomValidityL_absorb. Qed.

Lemma setCustomValidity_comm fn fn' a b t :
  fn ≠ fn' →
  setCustomValidity fn a (setCustomValidity fn' b t)
    = setCustomValidity fn' b (setCustomValidity fn a t).
Proof.
  intros H. unfold setCustomValidity. simpl. by rewrite setCustomValidityL_comm.
Qed.

Lemma clearAll_covers fs k msg t :
  k ∈ map fieldKey fs →
  clearAll fs (setCustomValidity k msg t) = clearAll fs t.
Proof.
  revert t. induction fs as [|f r IH]; intros t Hk; simpl in *.
  - by apply elem_of_nil in Hk.
  - destruct (decide (fieldKey f = k)) as [->|Hne].
    + by rewrite setCustomValidity_absorb.
    + apply elem_of_cons in Hk as [Hk|Hk]; [congruence|].
      rewrite setCustomValidity_comm by done. by apply IH.
Qed.

(** What the required-lookup loop does to the template. *)
Lemma requireLookup_template data t v f :
  fst (requireLookup data (t, v) f) =
    if truthy (getProp data (fieldKey f)) then t
    else setCustomValidity (fieldKey f) "This field is required." t.
Proof.
  unfold requireLookup. destruct (truthy _); [done|].
  destruct (querySelector (fieldKey f) t) eqn:Hq.
  - by destruct (querySelector _ (setCustomValidity _ _ _)).
  - unfold setCustomValidity. simpl.
    rewrite setCustomValidityL_absent by done. by destruct t.
Qed.

Lemma clearAll_requireLookup data fs req t v :
  (∀ f, f ∈ req → fieldKey f ∈ map fieldKey fs) →
  clearAll fs (fst (foldl (requireLookup data) (t, v) req)) = clearAll fs t.
Proof.
  revert t v. induction req as [|f r IH]; intros t v Hsub; cbn [foldl]; [done|].
  destruct (requireLookup data (t, v) f) as [t' v'] eqn:Hstep.
  rewrite IH by (intros g Hg; apply Hsub; by right).
  pose proof (requireLookup_template data t v f) as Ht. rewrite Hstep in Ht.
  simpl in Ht. subst t'. destruct (truthy _); [done|].
  apply clearAll_covers. apply Hsub. by left.
Qed.

Lemma clearAll_again fs gs t :
  (∀ f, f ∈ gs → fieldKey f ∈ map fieldKey fs) →
  clearAll fs (clearAll gs t) = clearAll fs t.
Proof.
  revert t. induction gs as [|g r IH]; intros t Hsub; simpl; [done|].
  rewrite IH by (intros f Hf; apply Hsub; by right).
  apply clearAll_covers. apply Hsub. by left.
Qed.

Section Engine.

Variable NumberToString : Q → string.
Variable legacyDateParse : string → option Z.
Variable LocalTZA : Z → Z.

Local Abbreviation validate := (validate NumberToString).
Local Abbreviation handleSave := (handleSave NumberToString legacyDateParse LocalTZA).

(** The validity messages a validation leaves on the lookup inputs do not
    change the next validation. *)
Lemma validate_again m t :
  validate m (fst (fst (validate m t))) = validate m t.
Proof.
  unfold RecordModal.validate. cbv zeta.
  change (clearLookupValidity (editFields m)) with (clearAll (List.filter isExternal (editFields m))).
  set (ext := List.filter isExternal (editFields m)).
  set (req := List.filter (λ f, isExternal f && required f) (editFields m)).
  set (t1 := clearAll ext t).
  assert (Hclear : ∀ v,
            clearAll ext (fst (foldl (requireLookup (recordData m)) (t1, v) req)) = t1).
  { intros v. rewrite clearAll_requireLookup.
    - unfold t1. by apply clearAll_again; intros f Hf; apply list_elem_of_fmap_2.
    - intros f Hf. apply list_elem_of_fmap_2. unfold ext, req in *.
      apply list_elem_of_In, filter_In in Hf as [Hf Hc].
      apply list_elem_of_In, filter_In. split; [done|].
      by apply andb_true_iff in Hc as [Hc _]. }
  destruct (foldl (requireLookup (recordData m)) (t1, _) req) as [t2 v2] eqn:Hfold.
  assert (Ht2 : clearAll ext t2 = t1).
  { specialize (Hclear (forallb reportValidity (inputs t1) && forallb id (comboboxes t1))).
    by rewrite Hfold in Hclear. }
  destruct (formatError _ _ _) as [msg|]; simpl; rewrite Ht2, Hfold; done.
Qed.

(** [handleSave] on a component whose message is [e0] and whose saving
    flag is [b0]: it reads neither. *)
Lemma handleSave_unfold m e0 b0 t :
  handleSave (setErrorMessage e0 (setSaveLoading b0 m)) t =
    if decide (trim (objectApiName m) = "") then
      (setErrorMessage "Object type is required." (setSaveLoading b0 m), t, None)
    else if isEditMode m &&
            (negb (truthy (getProp (record m) "Id")) ||
             bool_decide (trim (RecordModal.StringOf NumberToString
                                  (getProp (record m) "Id")) = "")) then
      (setErrorMessage "Record Id is required to update." (setSaveLoading b0 m), t, None)
    else
      let '(t, allValid, msg) := validate m t in
      if negb allValid then
        (setErrorMessage
           (match msg with
            | Some e => if decide (e = "")
                        then "Please fix validation errors before saving." else e
            | None => "Please fix validation errors before saving."
            end) (setSaveLoading b0 m), t, None)
      else
        let payload := RecordModal.buildPayload NumberToString legacyDateParse LocalTZA m in
        if isEditMode m && bool_decide (size payload = 0%nat) then
          (setErrorMessage "No fields were changed." (setSaveLoading b0 m), t, None)
        else
          (setErrorMessage "" (setSaveLoading true m), t,
           Some (if isEditMode m
                 then updateRecord (objectApiName m) (getProp (record m) "Id") payload
                 else createRecord (objectApiName m) payload)).
Proof.
  unfold RecordModal.handleSave.
  change (objectApiName (setErrorMessage "" (setErrorMessage e0 (setSaveLoading b0 m))))
    with (objectApiName m).
  case_decide; [done|].
  change (isEditMode (setErrorMessage "" (setErrorMessage e0 (setSaveLoading b0 m))))
    with (isEditMode m).
  change (record (setErrorMessage "" (setErrorMessage e0 (setSaveLoading b0 m))))
    with (record m).
  destruct (isEditMode m && (_ || _)); [done|].
  change (RecordModal.validate NumberToString
            (setErrorMessage "" (setErrorMessage e0 (setSaveLoading b0 m))) t)
    with (validate m t).
  destruct (validate m t) as [[t2 v2] msg2].
  destruct msg2 as [msg|], v2; cbn [negb]; try done.
  - change (isEditMode (setErrorMessage msg _)) with (isEditMode m).
    change (RecordModal.buildPayload NumberToString legacyDateParse LocalTZA
              (setErrorMessage msg _))
      with (RecordModal.buildPayload NumberToString legacyDateParse LocalTZA m).
    destruct (isEditMode m && _); [done|].
    change (isEditMode (setErrorMessage "" _)) with (isEditMode m).
    by destruct (isEditMode m).
  - change (isEditMode (setErrorMessage "" _)) with (isEditMode m).
    change (RecordModal.buildPayload NumberToString legacyDateParse LocalTZA
              (setErrorMessage "" _))
      with (RecordModal.buildPayload NumberToString legacyDateParse LocalTZA m).
    destruct (isEditMode m && _); [done|].
    by destruct (isEditMode m).
Qed.

End Engine.

(** Pressing Save a second time, nothing edited in between, does what the
    first press did: the same message, the same validity messages on the
    inputs, and the same call, issued again when the first press issued
    one. *)
Theorem saving_twice_gives_the_same_outcome
    (NumberToString : Q → string) (legacyDateParse : string → option Z)
    (LocalTZA : Z → Z) (m : Modal) (t : Template) :
  let first := handleSave NumberToString legacyDateParse LocalTZA m t in
  handleSave NumberToString legacyDateParse LocalTZA (fst (fst first)) (snd (fst first))
    = first.
Proof.
  intros first.
  assert (Hm : m = setErrorMessage (errorMessage m) (setSaveLoading (saveLoading m) m))
    by (by destruct m).
  assert (Hfirst : first = handleSave NumberToString legacyDateParse LocalTZA
                             (setErrorMessage (errorMessage m)
                                (setSaveLoading (saveLoading m) m)) t)
    by (by rewrite <- Hm).
  rewrite handleSave_unfold in Hfirst. clearbody first. subst first. clear Hm.
  pose proof (validate_again NumberToString m t) as Hv.
  case_decide as Hobj.
  { cbn [fst snd]. rewrite handleSave_unfold. by rewrite decide_True. }
  destruct (isEditMode m && (_ || _)) eqn:Hg.
  { cbn [fst snd]. rewrite handleSave_unfold, decide_False, Hg by done. done. }
  destruct (validate NumberToString m t) as [[t2 v2] msg2]. simpl in Hv.
  destruct (negb v2) eqn:Hv2.
  { cbn [fst snd]. rewrite handleSave_unfold, decide_False, Hg, Hv, Hv2 by done. done. }
  cbv zeta. destruct (isEditMode m && bool_decide _) eqn:He.
  { cbn [fst snd]. rewrite handleSave_unfold, decide_False, Hg, Hv, Hv2 by done.
    cbv zeta. by rewrite He. }
  cbn [fst snd]. rewrite handleSave_unfold, decide_False, Hg, Hv, Hv2 by done.
  cbv zeta. by rewrite He.
Qed.

End SaveAgain.

(** ** The configuration of a chart *)

Module ChartFacts.

Import JS DashboardCharts ChartExamples.

Section Engine.

Variable ToNumber : Json → Number.

Local Abbreviation datasetConfig := (datasetConfig ToNumber).
Local Abbreviation mapDatasets := (mapDatasets ToNumber).
Local Abbreviation buildChartConfig := (buildChartConfig ToNumber).

Lemma mapDatasets_some ty labels k l out :
  mapDatasets ty labels k l = Some out →
  List.length out = List.length l ∧
  ∀ i ds, out !! i = Some ds →
    ∃ raw, l !! i = Some raw ∧ datasetConfig ty labels (k + i) raw = Some ds.
Proof.
  revert k out. induction l as [|raw r IH]; intros k out; simpl.
  - intros [= <-]. split; [done|]. intros i ds H. by rewrite lookup_nil in H.
  - destruct (datasetConfig ty labels k raw) as [d|] eqn:Hd; [|done].
    destruct (mapDatasets ty labels (S k) r) as [ds'|] eqn:Hr; [|done].
    intros [= <-]. destruct (IH _ _ Hr) as [Hlen Hrest].
    split; [simpl; by rewrite Hlen|].
    intros [|i] ds H; simpl in H.
    + simplify_eq. exists raw. split; [done|]. by rewrite Nat.add_0_r.
    + destruct (Hrest i ds H) as (raw' & Hl & Hc). exists raw'. split; [done|].
      by rewrite <- Nat.add_succ_comm.
Qed.


End Engine.


Lemma palette_index i : ∃ c, CHART_COLORS !! (i mod List.length CHART_COLORS)%nat = Some c.
Proof.
  apply lookup_lt_is_Some. change (List.length CHART_COLORS) with 6%nat.
  apply Nat.mod_upper_bound. done.
Qed.

Lemma palette_slice n :
  JSArray.slice CHART_COLORS 0 (Z.of_nat n) = take n CHART_COLORS.
Proof.
  unfold JSArray.slice, relIndex. cbv zeta.
  change (Z.of_nat (List.length CHART_COLORS)) with 6.
  change (0 <? 0) with false. cbv iota.
  destruct (Z.ltb_spec (Z.of_nat n) 0) as [?|_]; [lia|].
  change (Z.min 0 6) with 0.
  change (Z.to_nat 0) with 0%nat. rewrite drop_0.
  destruct (Z.le_gt_cases (Z.of_nat n) 6) as [H|H].
  - rewrite Z.min_l by done. f_equal. lia.
  - rewrite Z.min_r by lia.
    rewrite !take_ge; [done| |]; change (List.length CHART_COLORS) with 6%nat; lia.
Qed.

(** The colours of a chart.  In a bar or line chart the dataset at index
    [i] gets the colour of the palette at index [i] modulo 6, which
    exists, as its background, and a line chart gets it as border too, 2
    wide; in a chart of another kind every dataset gets the first colours
    of the palette, one for each label and six at most. *)
Theorem chart_colours_come_from_the_palette
    (ToNumber : Json → Number) (chartDef : ChartDef) (cfg : ChartConfig)
    (i : nat) (ds : DatasetConfig) :
  buildChartConfig ToNumber chartDef = Some cfg →
  configDatasets cfg !! i = Some ds →
  (configType cfg = "bar" ∨ configType cfg = "line" →
   ∃ c, CHART_COLORS !! (i mod 6)%nat = Some c ∧
        backgroundColor ds = OneColour (Some c) ∧
        (configType cfg = "line" →
         borderColor ds = Some c ∧ borderWidth ds = 2 ∧ fill ds = true) ∧
        (configType cfg = "bar" →
         borderColor ds = None ∧ borderWidth ds = 1 ∧ fill ds = false)) ∧
  (configType cfg ≠ "bar" → configType cfg ≠ "line" →
   backgroundColor ds = Colours (take (List.length (labels chartDef)) CHART_COLORS) ∧
   borderColor ds = None ∧ borderWidth ds = 1 ∧ fill ds = false).
Proof.
  unfold buildChartConfig. cbv zeta.
  set (ty := if bool_decide (type chartDef ∈ chartTypes) then type chartDef else "bar").
  destruct (mapDatasets _ _ _ _ _) as [out|] eqn:Hout; [|done].
  intros [= <-]. cbn [configDatasets configType]. intros Hds.
  destruct (mapDatasets_some _ _ _ _ _ _ Hout) as [_ Hrest].
  destruct (Hrest i ds Hds) as (raw & _ & Hcfg). clear Hrest Hout Hds.
  unfold datasetConfig in Hcfg. cbv zeta in Hcfg.
  destruct (get raw "label") as [dlabel|]; [|done].
  destruct (get raw "data") as [ddata|]; [|done].
  simplify_eq. cbn [backgroundColor borderColor borderWidth fill].
  rewrite Nat.add_0_l. change (List.length CHART_COLORS) with 6%nat.
  destruct (palette_index i) as [c Hc]. change (List.length CHART_COLORS) with 6%nat in Hc.
  split.
  - intros Hkind. exists c. split; [done|].
    assert (Hb : bool_decide (ty = "bar") || bool_decide (ty = "line") = true).
    { apply orb_true_iff. destruct Hkind as [H|H]; [left|right];
        by apply bool_decide_eq_true. }
    rewrite Hb, Hc. split; [done|]. split; intros ->; done.
  - intros Hbar Hline.
    rewrite (bool_decide_eq_false_2 _ Hbar), (bool_decide_eq_false_2 _ Hline).
    cbn [orb]. by rewrite palette_slice.
Qed.

(** The theorem at a pie chart of three labels. *)
Lemma chart_colours_come_from_the_palette_witness :
  buildChartConfig numberOf pieDef = Some pieConfig ∧
  configType pieConfig = "pie" ∧
  backgroundColor pieDataset
    = Colours (take (List.length (labels pieDef)) CHART_COLORS).
Proof.
  assert (Hcfg : buildChartConfig numberOf pieDef = Some pieConfig)
    by (vm_compute; reflexivity).
  assert (Hds : configDatasets pieConfig !! 0%nat = Some pieDataset) by reflexivity.
  destruct (chart_colours_come_from_the_palette numberOf pieDef pieConfig 0
              pieDataset Hcfg Hds) as [_ Hpie].
  destruct (Hpie ltac:(discriminate) ltac:(discriminate)) as (Hcolours & _).
  split; [exact Hcfg|]. split; [reflexivity|exact Hcolours].
Defined.

(** The kind of a chart.  The type the server names is matched whatever
    its letter case; a chart whose type is missing, empty or not one of
    bar, line, pie, doughnut and radar is drawn as a bar chart; the axes
    are configured for bar and line charts only. *)
Theorem chart_kind_is_matched_without_case
    (ToNumber : Json → Number) (i : nat) (c : Json) (chartDef : ChartDef)
    (cfg : ChartConfig) :
  toChartDef i c = Some chartDef →
  buildChartConfig ToNumber chartDef = Some cfg →
  configType cfg ∈ chartTypes ∧
  (∀ s, get c "type" = Some (JStr s) → toLowerCase s ∈ chartTypes →
        configType cfg = toLowerCase s) ∧
  (∀ s, get c "type" = Some (JStr s) → toLowerCase s ∉ chartTypes →
        configType cfg = "bar") ∧
  (∀ x, get c "type" = Some x → truthy x = false → configType cfg = "bar") ∧
  (scales cfg = true ↔ configType cfg = "bar" ∨ configType cfg = "line").
Proof.
  intros Hdef Hcfg.
  assert (Htype : configType cfg =
                    if bool_decide (type chartDef ∈ chartTypes)
                    then type chartDef else "bar").
  { revert Hcfg. unfold buildChartConfig. cbv zeta.
    destruct (mapDatasets _ _ _ _ _); [|done]. by intros [= <-]. }
  assert (Hscales : scales cfg = bool_decide (configType cfg = "bar")
                                 || bool_decide (configType cfg = "line")).
  { revert Hcfg. unfold buildChartConfig. cbv zeta.
    destruct (mapDatasets _ _ _ _ _); [|done]. by intros [= <-]. }
  assert (Hlower : ∀ x, get c "type" = Some x →
            type chartDef = match orElse x (JStr "bar") with
                            | JStr s => toLowerCase s
                            | _ => ""
                            end).
  { intros x Hx. revert Hdef. unfold toChartDef. rewrite Hx.
    destruct (get c "id"); [|done]. destruct (get c "title"); [|done].
    destruct (get c "labels"); [|done]. destruct (get c "datasets"); [|done].
    destruct (orElse x (JStr "bar")); try done. by intros [= <-]. }
  split; [|split; [|split; [|split]]].
  - rewrite Htype. destruct (bool_decide (type chartDef ∈ chartTypes)) eqn:E.
    + by apply bool_decide_eq_true in E.
    + unfold chartTypes. set_solver.
  - intros s Hs Hin. rewrite Htype, (Hlower _ Hs). unfold orElse. simpl.
    destruct (decide (s = "")) as [->|_].
    + exfalso. assert (Hb : bool_decide (toLowerCase "" ∈ chartTypes) = true)
        by (by apply bool_decide_eq_true).
      vm_compute in Hb. discriminate.
    + by rewrite bool_decide_eq_true_2.
  - intros s Hs Hnot. rewrite Htype, (Hlower _ Hs). unfold orElse. simpl.
    destruct (decide (s = "")) as [->|_]; [done|].
    by rewrite bool_decide_eq_false_2.
  - intros x Hx Hfalsy. rewrite Htype, (Hlower _ Hx). unfold orElse.
    by rewrite Hfalsy.
  - rewrite Hscales. rewrite orb_true_iff, !bool_decide_eq_true. done.
Qed.

(** The theorem at the pie chart, whose type the server writes "PIE". *)
Lemma chart_kind_is_matched_without_case_witness :
  toChartDef 0 rawPie = Some pieDef ∧
  buildChartConfig numberOf pieDef = Some pieConfig ∧
  configType pieConfig = "pie".
Proof.
  assert (Hdef : toChartDef 0 rawPie = Some pieDef) by (vm_compute; reflexivity).
  assert (Hcfg : buildChartConfig numberOf pieDef = Some pieConfig)
    by (vm_compute; reflexivity).
  destruct (chart_kind_is_matched_without_case numberOf 0 rawPie pieDef pieConfig
              Hdef Hcfg) as (_ & Hkind & _).
  split; [exact Hdef|]. split; [exact Hcfg|].
  apply (Hkind "PIE"); [reflexivity|].
  unfold chartTypes. change (toLowerCase "PIE") with "pie". set_solver.
Defined.

End ChartFacts.

(** ** When a form is valid, and what happens then *)

Module ValidForm.

Import JS JSFacts RecordModal ModalExamples FormExamples.

Lemma comboboxes_clearLookupValidity fields t :
  comboboxes (clearLookupValidity fields t) = comboboxes t.
Proof.
  unfold clearLookupValidity. revert t.
  induction (List.filter isExternal fields) as [|f r IH]; intros t; simpl; [done|].
  by rewrite IH.
Qed.

(** The required-lookup loop leaves the template and the verdict alone
    when every field has a value or no input. *)
Lemma requireLookup_fold_valid data req t v :
  (∀ f, f ∈ req →
        truthy (getProp data (fieldKey f)) = true ∨ querySelector (fieldKey f) t = None) →
  foldl (requireLookup data) (t, v) req = (t, v).
Proof.
  induction req as [|f r IH]; intros H; cbn [foldl]; [done|].
  assert (Hstep : requireLookup data (t, v) f = (t, v)).
  { unfold requireLookup. destruct (H f ltac:(by left)) as [-> | ->]; [done|].
    by destruct (truthy _). }
  rewrite Hstep. apply IH. intros g Hg. apply H. by right.
Qed.

Section Engine.

Variable NumberToString : Q → string.
Variable legacyDateParse : string → option Z.
Variable LocalTZA : Z → Z.

Local Abbreviation validate := (validate NumberToString).
Local Abbreviation isValidEmail := (isValidEmail NumberToString).
Local Abbreviation isValidPhone := (isValidPhone NumberToString).
Local Abbreviation formatError := (formatError NumberToString).

Lemma formatError_all_valid data fs :
  (∀ f, f ∈ fs →
     (rawType f = "email" → isValidEmail (getProp data (fieldKey f)) = true) ∧
     (rawType f = "phone" → isValidPhone (getProp data (fieldKey f)) = true)) →
  formatError data fs = None.
Proof.
  induction fs as [|g r IH]; intros H; [done|].
  rewrite SaveGuards.formatError_cons. cbv zeta.
  destruct (H g ltac:(by left)) as [He Hp].
  assert (E1 : bool_decide (rawType g = "email")
               && negb (isValidEmail (getProp data (fieldKey g))) = false).
  { destruct (bool_decide (rawType g = "email")) eqn:E; [|reflexivity].
    apply bool_decide_eq_true in E. rewrite (He E). reflexivity. }
  assert (E2 : bool_decide (rawType g = "phone")
               && negb (isValidPhone (getProp data (fieldKey g))) = false).
  { destruct (bool_decide (rawType g = "phone")) eqn:E; [|reflexivity].
    apply bool_decide_eq_true in E. rewrite (Hp E). reflexivity. }
  rewrite E1, E2. apply IH. intros f Hf. apply H. by right.
Qed.

End Engine.

(** The validation of [handleSave] passes exactly when: every input
    reports itself valid once the custom messages of the lookup inputs
    are cleared; every combobox reports itself valid; every required
    external lookup that has an input holds a value; and every field of
    type email or phone holds a value its validator accepts. *)
Theorem validation_passes_exactly_when
    (NumberToString : Q → string) (m : Modal) (t : Template) :
  snd (fst (validate NumberToString m t)) = true ↔
  forallb reportValidity (inputs (clearLookupValidity (editFields m) t)) = true ∧
  forallb id (comboboxes t) = true ∧
  (∀ f, f ∈ editFields m → isExternal f = true → required f = true →
        is_Some (querySelector (fieldKey f) t) →
        truthy (getProp (recordData m) (fieldKey f)) = true) ∧
  (∀ f, f ∈ editFields m →
     (rawType f = "email" →
      isValidEmail NumberToString (getProp (recordData m) (fieldKey f)) = true) ∧
     (rawType f = "phone" →
      isValidPhone NumberToString (getProp (recordData m) (fieldKey f)) = true)).
Proof.
  unfold validate. cbv zeta.
  rewrite (comboboxes_clearLookupValidity (editFields m) t).
  set (t1 := clearLookupValidity (editFields m) t).
  set (req := List.filter (λ f, isExternal f && required f) (editFields m)).
  assert (Hreq : ∀ f, f ∈ req ↔ f ∈ editFields m ∧ isExternal f = true ∧ required f = true).
  { intros f. unfold req. rewrite !list_elem_of_In, filter_In, andb_true_iff.
    tauto. }
  split.
  - intros Hvalid.
    destruct (formatError NumberToString (recordData m) (editFields m)) as [msg|] eqn:Hfe.
    { by destruct (foldl _ _ _). }
    destruct (foldl _ _ _) as [t2 v2] eqn:Hfold. simpl in Hvalid. subst v2.
    assert (Hlookups : ∀ f, f ∈ req → is_Some (querySelector (fieldKey f) t) →
                            truthy (getProp (recordData m) (fieldKey f)) = true).
    { intros f Hf Hq. destruct (truthy _) eqn:Ht; [done|]. exfalso.
      pose proof (RequiredLookup.requireLookup_fold_missing (recordData m) req t1
                    (forallb reportValidity (inputs t1) && forallb id (comboboxes t))
                    f Hf Ht) as Hfalse.
      rewrite Hfold in Hfalse. simpl in Hfalse.
      assert (true = false); [|done]. apply Hfalse.
      unfold t1. by apply RequiredLookup.query_clearLookupValidity. }
    rewrite requireLookup_fold_valid in Hfold.
    + injection Hfold as _ Hv0. apply andb_true_iff in Hv0 as [Hi Hc].
      split; [done|]. split; [done|]. split.
      * intros f Hin Hx Hr. apply Hlookups. apply Hreq. done.
      * by apply SaveGuards.formatError_none.
    + intros f Hf. destruct (querySelector (fieldKey f) t1) eqn:Hq; [left|by right].
      apply Hlookups; [done|]. apply (RequiredLookup.query_clearLookupValidity (editFields m)).
      fold t1. by rewrite Hq.
  - intros (Hi & Hc & Hlookups & Hformat).
    rewrite (formatError_all_valid NumberToString _ _ Hformat).
    rewrite requireLookup_fold_valid.
    + simpl. by rewrite Hi, Hc.
    + intros f Hf. apply Hreq in Hf as (Hin & Hx & Hr).
      destruct (querySelector (fieldKey f) t1) eqn:Hq; [left|by right].
      apply Hlookups; try done.
      apply (RequiredLookup.query_clearLookupValidity (editFields m)).
      fold t1. by rewrite Hq.
Qed.

(** A form that passes the guards of [handleSave] and, in edit mode, has
    a field whose working value and snapshot value normalize differently
    is sent: [handleSave] issues [updateRecord] for the record's Id, or
    [createRecord] in create mode, with the payload of the form, raises
    the saving flag and clears the message. *)
Theorem valid_form_with_a_change_is_sent
    (NumberToString : Q → string) (legacyDateParse : string → option Z)
    (LocalTZA : Z → Z) (m : Modal) (t : Template) :
  passesValidation NumberToString m t = true →
  (isEditMode m = true →
   ∃ f, f ∈ editFields m ∧
        normalizedValue NumberToString legacyDateParse LocalTZA
          (getProp (recordData m) (fieldKey f))
        ≠ normalizedValue NumberToString legacyDateParse LocalTZA
            (getProp (_initialRecordValues m) (fieldKey f))) →
  snd (handleSave NumberToString legacyDateParse LocalTZA m t)
    = Some (if isEditMode m
            then updateRecord (objectApiName m) (getProp (record m) "Id")
                   (buildPayload NumberToString legacyDateParse LocalTZA m)
            else createRecord (objectApiName m)
                   (buildPayload NumberToString legacyDateParse LocalTZA m)) ∧
  saveLoading (fst (fst (handleSave NumberToString legacyDateParse LocalTZA m t))) = true ∧
  errorMessage (fst (fst (handleSave NumberToString legacyDateParse LocalTZA m t))) = "".
Proof.
  intros Hv Hchanged.
  rewrite (ChangeSet.handleSave_passed _ _ _ _ _ Hv). cbv zeta.
  destruct (isEditMode m) eqn:Hmode; [|done]. simpl.
  destruct (Hchanged eq_refl) as (f & Hin & Hne).
  assert (Hlook : buildPayload NumberToString legacyDateParse LocalTZA m !! fieldKey f
                  ≠ None).
  { rewrite Payload.buildPayload_lookup.
    assert (He : existsb (λ g, bool_decide (fieldKey g = fieldKey f)) (editFields m) = true).
    { apply Payload.existsb_fieldKey. by exists f. }
    rewrite He. unfold ModalView.written. rewrite Hmode. cbv zeta.
    by rewrite bool_decide_eq_false_2. }
  rewrite bool_decide_eq_false_2; [done|].
  intros Hsize. apply map_size_empty_iff in Hsize. rewrite Hsize in Hlook.
  by rewrite lookup_empty in Hlook.
Qed.

(** The theorem at the sample session once the name is changed. *)
Lemma valid_form_with_a_change_is_sent_witness :
  passesValidation plainNumber
    (handleFieldChange "Name" (VStr "Acme Ltd") sampleSession) sampleTemplate = true ∧
  snd (handleSave plainNumber noLegacyDates utc
         (handleFieldChange "Name" (VStr "Acme Ltd") sampleSession) sampleTemplate)
    = Some (updateRecord "Account" (VStr "001") (<["Name" := VStr "Acme Ltd"]> ∅)).
Proof.
  assert (Hv : passesValidation plainNumber
                 (handleFieldChange "Name" (VStr "Acme Ltd") sampleSession)
                 sampleTemplate = true) by (vm_compute; reflexivity).
  destruct (valid_form_with_a_change_is_sent plainNumber noLegacyDates utc
              (handleFieldChange "Name" (VStr "Acme Ltd") sampleSession)
              sampleTemplate Hv) as (Hcall & _).
  { intros _. exists (descriptor "Name"). split.
    - apply list_elem_of_singleton. reflexivity.
    - vm_compute. discriminate. }
  split; [exact Hv|]. rewrite Hcall. vm_compute. reflexivity.
Defined.

End ValidForm.
